(** * Batyr: the worker of the synchronisation engine

    A shallow embedding of [src/server/worker.cpp]: the per-job pull
    algorithm [Worker::pull] and the worker loop [Worker::run].

    The code talks to three collaborators that are not part of the
    file: the OGR vector driver, the database connection with its
    transaction object, and the job record.  They are modelled as
    explicit interfaces; every call on them is recorded in a trace so
    that statements about the order of effects can be made. *)

From Stdlib Require Import ZArith String Ascii List Lia DecimalString DecimalZ.
From Stdlib Require Import Floats.SpecFloat.
From stdpp Require Import gmap strings list.

Open Scope string_scope.
Open Scope list_scope.
Open Scope Z_scope.

(** ** C and C++ library functions used by the worker *)

(** [::tolower] in the "C" locale. *)
Definition tolower (c : ascii) : ascii :=
  let n := nat_of_ascii c in
  if ((65 <=? n) && (n <=? 90))%nat then ascii_of_nat (n + 32) else c.

(** [std::transform(begin, end, back_inserter(out), ::tolower)]. *)
Fixpoint lowercase (s : string) : string :=
  match s with
  | EmptyString => EmptyString
  | String c s' => String (tolower c) (lowercase s')
  end.

(** [std::to_string(int)]: the [%d] rendering.  Counters are kept as
    unbounded integers; the code's [int] overflows only beyond 2^31
    features, which is undefined behaviour in C++ and outside the model. *)
Definition to_string_int (z : Z) : string :=
  NilEmpty.string_of_int (Z.to_int z).

Definition isspace (c : ascii) : bool :=
  let n := nat_of_ascii c in
  ((n =? 32) || ((9 <=? n) && (n <=? 13)))%nat.

Definition digit_value (c : ascii) : option Z :=
  let n := Z.of_nat (nat_of_ascii c) in
  if ((48 <=? n) && (n <=? 57))%Z then Some (n - 48) else None.

Fixpoint atoi_digits (acc : Z) (s : string) : Z :=
  match s with
  | EmptyString => acc
  | String c s' =>
      match digit_value c with
      | Some d => atoi_digits (10 * acc + d) s'
      | None => acc
      end
  end.

Fixpoint skip_spaces (s : string) : string :=
  match s with
  | EmptyString => EmptyString
  | String c s' => if isspace c then skip_spaces s' else s
  end.

(** [std::atoi]: leading white space, an optional sign, then the longest
    run of decimal digits; anything else (also the empty string) gives 0. *)
Definition atoi (s : string) : Z :=
  match skip_spaces s with
  | String "-" s' => - atoi_digits 0 s'
  | String "+" s' => atoi_digits 0 s'
  | s' => atoi_digits 0 s'
  end.

Module StringUtils.

(** Modelled from the spec: [StringUtils::join] is declared in
    common/stringutils.h, which is not among the sources; the
    specification describes it as joining a list with a separator. *)
Fixpoint join (parts : list string) (sep : string) : string :=
  match parts with
  | [] => EmptyString
  | p :: rest =>
      match rest with
      | [] => p
      | _ :: _ => p +:+ sep +:+ join rest sep
      end
  end.

End StringUtils.

(** ** Exceptions *)

(** Modelled from the spec: the exception classes [DbError] and
    [WorkerError] are declared in headers outside the sources.  The
    worker loop has one handler for each of them, one for every other
    [std::runtime_error], and none for anything else; [exn] has one
    constructor for each of these four cases. *)
Inductive exn : Type :=
| DbError (what : string)
| WorkerError (what : string)
| runtime_error (what : string)
| other_exception.

(** Outcome of a computation: a value, a thrown exception, or a call
    that never returns (the reconnect loop of [Worker::run] waits for
    the database without bound). *)
Inductive Res (A : Type) : Type :=
| Ret (a : A)
| Throw (e : exn)
| Blocked.
Arguments Ret {A} a.
Arguments Throw {A} e.
Arguments Blocked {A}.

(** ** The job record *)

(** Modelled from the spec: the class [Job] is declared in a header
    outside the sources.  The specification gives it an id, a layer
    name, an optional filter, a status among QUEUED, IN_PROCESS,
    FINISHED and FAILED, a message and the statistics pulled, created,
    updated and deleted; the worker uses the getters and setters below,
    each setter writing its own field. *)
Module Job.

Inductive Status : Type := QUEUED | IN_PROCESS | FINISHED | FAILED.

Record Statistics : Type := mkStatistics {
  numPulled : Z;
  numCreated : Z;
  numUpdated : Z;
  numDeleted : Z
}.

Record t : Type := mkJob {
  getId : string;
  getLayerName : string;
  getFilter : string;
  getStatus : Status;
  getMessage : string;
  getStatistics : Statistics
}.

Definition setStatus (s : Status) (j : t) : t :=
  mkJob (getId j) (getLayerName j) (getFilter j) s (getMessage j) (getStatistics j).

Definition setMessage (m : string) (j : t) : t :=
  mkJob (getId j) (getLayerName j) (getFilter j) (getStatus j) m (getStatistics j).

Definition setStatistics (p c u d : Z) (j : t) : t :=
  mkJob (getId j) (getLayerName j) (getFilter j) (getStatus j) (getMessage j)
        (mkStatistics p c u d).

End Job.

(** ** The OGR source *)

(** [OGRFieldType] with the numeric tags of ogr_core.h. *)
Inductive OGRFieldType : Type :=
| OFTInteger | OFTIntegerList | OFTReal | OFTRealList | OFTString
| OFTStringList | OFTWideString | OFTWideStringList | OFTBinary
| OFTDate | OFTTime | OFTDateTime | OFTInteger64 | OFTInteger64List.

Definition OGRFieldType_tag (t : OGRFieldType) : Z :=
  match t with
  | OFTInteger => 0 | OFTIntegerList => 1 | OFTReal => 2 | OFTRealList => 3
  | OFTString => 4 | OFTStringList => 5 | OFTWideString => 6
  | OFTWideStringList => 7 | OFTBinary => 8 | OFTDate => 9 | OFTTime => 10
  | OFTDateTime => 11 | OFTInteger64 => 12 | OFTInteger64List => 13
  end.

Record OGRFieldDefn : Type := mkFieldDefn {
  GetNameRef : string;
  GetType : OGRFieldType
}.

Record OGRFeatureDefn : Type := mkFeatureDefn {
  GetGeomFieldCount : Z;
  GetFieldDefns : list OGRFieldDefn
}.

(** A geometry together with the answers of the allocator while it is
    encoded: [CPLMalloc] and [CPLBinaryToHex] return a null pointer when
    [CPLMalloc_ok], respectively [CPLBinaryToHex_ok], is false;
    [exportToWkb] is [None] when the export returns an error code. *)
Record OGRGeometry : Type := mkGeometry {
  WkbSize : Z;
  CPLMalloc_ok : bool;
  exportToWkb : option (list Byte.byte);
  CPLBinaryToHex_ok : bool
}.

(** A feature.  The code dereferences [GetGeometryRef()] without a
    check, so the features of the model all carry a geometry. *)
Record OGRFeature : Type := mkFeature {
  GetGeometryRef : OGRGeometry;
  GetFieldAsString : nat -> string;
  GetFieldAsInteger : nat -> Z;
  GetFieldAsDouble : nat -> spec_float
}.

(** A source layer.  [SetAttributeFilter f] is true for [OGRERR_NONE];
    [CPLGetLastErrorMsg f] is the error text left behind by a rejected
    filter ([None] for a null pointer); [GetFeatures f] is the feature
    stream under filter [f], the empty string standing for no filter. *)
Record OGRLayer : Type := mkLayer {
  GetLayerDefn : OGRFeatureDefn;
  SetAttributeFilter : string -> bool;
  CPLGetLastErrorMsg : string -> option string;
  GetFeatures : string -> list OGRFeature
}.

Record OGRDataSource : Type := mkDataSource {
  GetLayerByName : string -> option OGRLayer
}.

(** [OGRSFDriverRegistrar::Open]: [None] for a null dataset. *)
Record OGRSFDriverRegistrar : Type := mkRegistrar {
  Open : string -> option OGRDataSource
}.

Inductive OgrCall : Type :=
| OgrOpen (source : string)
| OgrGetLayerByName (name : string)
| OgrResetReading
| OgrSetAttributeFilter (filter : string)
| OgrGetNextFeature.

(** ** Configuration *)

Module Layer.

Record t : Type := mk {
  name : string;
  source : string;
  source_layer : string;
  target_table_schema : string;
  target_table_name : string
}.

End Layer.

(** [Configuration::getLayer]; an unknown layer name throws. *)
Record Configuration : Type := mkConfiguration {
  getLayer : string -> Res Layer.t
}.

(** ** The database *)

Module Field.

Record t : Type := mk {
  name : string;
  pgTypeName : string;
  isPrimaryKey : bool
}.

End Field.

(** The container returned by [getTableFields], as the sequence of its
    (key, value) pairs in iteration order. *)
Definition FieldMap : Type := list (string * Field.t).

Record PGresult : Type := mkPGresult {
  PQcmdTuples : string
}.

Inductive DbCall : Type :=
| DbReconnect
| DbGetTransaction
| DbCreateTempTable (schema table temp : string)
| DbGetTableFields (schema table : string)
| DbPrepare (stmtName sql : string) (nParams : nat)
| DbExecPrepared (stmtName : string) (values : list string)
| DbExec (sql : string).

(** Outcome of the reconnect loop of [Worker::run] as the database
    decides it: the connection comes back after [n] failed attempts, a
    call of [reconnect] throws after [n] failed attempts, or the
    connection never comes back. *)
Inductive Reconnect : Type :=
| Connected (failedAttempts : nat)
| ReconnectThrows (failedAttempts : nat) (e : exn)
| NeverConnected.

(** The connection and its transaction object over a database state
    [D].  Every operation may throw; [getTransaction] answers [false]
    for a null transaction. *)
Record Database (D : Type) : Type := mkDatabase {
  reconnect : D -> Reconnect * D;
  getTransaction : D -> Res bool * D;
  createTempTable : string -> string -> string -> D -> Res unit * D;
  getTableFields : string -> string -> D -> Res FieldMap * D;
  prepare : string -> string -> nat -> D -> Res unit * D;
  execPrepared : string -> list string -> D -> Res unit * D;
  exec : string -> D -> Res PGresult * D
}.
Arguments mkDatabase {D} _ _ _ _ _ _ _.
Arguments reconnect {D} _ _.
Arguments getTransaction {D} _ _.
Arguments createTempTable {D} _ _ _ _ _.
Arguments getTableFields {D} _ _ _ _.
Arguments prepare {D} _ _ _ _ _.
Arguments execPrepared {D} _ _ _ _.
Arguments exec {D} _ _ _.

(** ** Worlds, traces and the worker monad *)

Inductive Event : Type :=
| EvJob (j : Job.t)
| EvOgr (c : OgrCall)
| EvDb (c : DbCall).

(** The state a job runs in: the job record, the database, and the
    chronological trace of everything done so far.  Each mutation of
    the job record leaves a snapshot [EvJob] in the trace: these are
    the states a client polling the record can see. *)
Record World (D : Type) : Type := mkWorld {
  w_job : Job.t;
  w_db : D;
  w_trace : list Event
}.
Arguments mkWorld {D} _ _ _.
Arguments w_job {D} _.
Arguments w_db {D} _.
Arguments w_trace {D} _.

Definition M (D A : Type) : Type := World D -> Res A * World D.

Definition ret {D A} (a : A) : M D A := fun w => (Ret a, w).

Definition throw {D A} (e : exn) : M D A := fun w => (Throw e, w).

Definition bind {D A B} (m : M D A) (k : A -> M D B) : M D B :=
  fun w =>
    match m w with
    | (Ret a, w') => k a w'
    | (Throw e, w') => (Throw e, w')
    | (Blocked, w') => (Blocked, w')
    end.

Declare Scope worker_scope.
Delimit Scope worker_scope with worker.
Notation "x <- m ;; k" := (bind m (fun x => k))
  (at level 100, m at next level, right associativity) : worker_scope.
Notation "m ;;; k" := (bind m (fun _ => k))
  (at level 100, right associativity) : worker_scope.
Open Scope worker_scope.

Definition lift {D A} (r : Res A) : M D A := fun w => (r, w).

Definition emit {D} (ev : Event) : M D unit :=
  fun w => (Ret tt, mkWorld (w_job w) (w_db w) (w_trace w ++ [ev])).

Definition getJob {D} : M D Job.t := fun w => (Ret (w_job w), w).

Definition modifyJob {D} (f : Job.t -> Job.t) : M D unit :=
  fun w =>
    let j := f (w_job w) in
    (Ret tt, mkWorld j (w_db w) (w_trace w ++ [EvJob j])).

Definition dbCall {D A} (c : DbCall) (op : D -> Res A * D) : M D A :=
  fun w =>
    let '(r, d) := op (w_db w) in
    (r, mkWorld (w_job w) d (w_trace w ++ [EvDb c])).

(** The job record in every state a client could have observed. *)
Definition observed {D} (j0 : Job.t) (w : World D) : list Job.t :=
  j0 :: omap (fun ev => match ev with EvJob j => Some j | _ => None end) (w_trace w).

(** ** Rendering of values *)

Definition dq : string := String (ascii_of_nat 34) EmptyString.

(** [std::string::empty]. *)
Definition empty (s : string) : bool :=
  match s with
  | EmptyString => true
  | String _ _ => false
  end.

Definition digit_char (d : Z) : ascii := ascii_of_nat (48 + Z.to_nat d).

(** The six digits after the decimal point, for [0 <= n < 10^6]. *)
Definition digits6 (n : Z) : string :=
  String (digit_char (n / 100000 mod 10))
    (String (digit_char (n / 10000 mod 10))
       (String (digit_char (n / 1000 mod 10))
          (String (digit_char (n / 100 mod 10))
             (String (digit_char (n / 10 mod 10))
                (String (digit_char (n mod 10)) EmptyString))))).

(** Nearest integer to [num / den], ties to even ([den > 0]). *)
Definition round_half_even (num den : Z) : Z :=
  let q := num / den in
  let r := num mod den in
  if 2 * r <? den then q
  else if den <? 2 * r then q + 1
  else if Z.even q then q else q + 1.

(** The magnitude of a finite double [m * 2^e], times 10^6, as an exact
    fraction [scaled_num m e / scaled_den e]. *)
Definition scaled_num (m : positive) (e : Z) : Z :=
  Z.pos m * 10 ^ 6 * 2 ^ Z.max e 0.

Definition scaled_den (e : Z) : Z := 2 ^ Z.max (- e) 0.

Definition sign_string (s : bool) : string :=
  if s then "-" else EmptyString.

(** The [%f] rendering of the integer number [n] of millionths. *)
Definition fixed6 (s : bool) (n : Z) : string :=
  sign_string s +:+ to_string_int (n / 10 ^ 6) +:+ "." +:+ digits6 (n mod 10 ^ 6).

(** [std::to_string(double)], which the C++ standard defines as the
    result of [sprintf] with format [%f]: fixed notation with six
    digits after the decimal point, the exact binary value being
    rounded to nearest (ties to even, the default rounding mode).  A
    double is a [spec_float] of the IEEE 754 binary64 format. *)
Definition to_string_double (x : spec_float) : string :=
  match x with
  | S754_nan => "nan"
  | S754_infinity s => sign_string s +:+ "inf"
  | S754_zero s => fixed6 s 0
  | S754_finite s m e => fixed6 s (round_half_even (scaled_num m e) (scaled_den e))
  end.

(** The doubles: binary64 has 53 bits of precision and exponents below 1024. *)
Definition is_double (x : spec_float) : bool := valid_binary 53 1024 x.

Definition hex_char (n : N) : ascii :=
  if (n <? 10)%N then ascii_of_N (48 + n) else ascii_of_N (55 + n).

(** [CPLBinaryToHex(nBytes, pabyData)]: two upper-case hexadecimal
    digits for each of the first [nBytes] bytes. *)
Fixpoint hex_of_bytes (bytes : list Byte.byte) : string :=
  match bytes with
  | [] => EmptyString
  | b :: rest =>
      let n := Byte.to_N b in
      String (hex_char (n / 16)) (String (hex_char (n mod 16)) (hex_of_bytes rest))
  end.

Definition CPLBinaryToHex (nBytes : Z) (pabyData : list Byte.byte) : string :=
  hex_of_bytes (take (Z.to_nat nBytes) pabyData).

(** ** Pure parts of [Worker::pull] *)

Definition rbind {A B} (r : Res A) (k : A -> Res B) : Res B :=
  match r with
  | Ret a => k a
  | Throw e => Throw e
  | Blocked => Blocked
  end.

Module OgrField.

Record t : Type := mk {
  name : string;
  index : nat;
  type : OGRFieldType
}.

(** A value-initialised entry, as [std::map::operator[]] creates it. *)
Definition fresh : t := mk EmptyString 0 OFTInteger.

End OgrField.

(** [ogrFields[key]] read through [operator[]]. *)
Definition ogrFields_at (ogrFields : gmap string OgrField.t) (key : string) : OgrField.t :=
  default OgrField.fresh (ogrFields !! key).

(** [ogrFields.find(key) != ogrFields.end()]. *)
Definition ogrFields_has (ogrFields : gmap string OgrField.t) (key : string) : bool :=
  match ogrFields !! key with
  | Some _ => true
  | None => false
  end.

(** Lines 104-123: the columns of the dataset, keyed by lower-cased
    name.  Only [index] and [type] of an entry are assigned. *)
Fixpoint collect_fields (defns : list OGRFieldDefn) (i : nat)
    (ogrFields : gmap string OgrField.t) : gmap string OgrField.t :=
  match defns with
  | [] => ogrFields
  | ogrFieldDefn :: rest =>
      let fieldName := lowercase (GetNameRef ogrFieldDefn) in
      let entry := ogrFields_at ogrFields fieldName in
      collect_fields rest (S i)
        (<[fieldName := OgrField.mk (OgrField.name entry) i (GetType ogrFieldDefn)]> ogrFields)
  end.

(** [tableFields[key]] read through [operator[]]. *)
Definition tableFields_at (tableFields : FieldMap) (key : string) : Field.t :=
  match List.find (fun p => String.eqb (fst p) key) tableFields with
  | Some p => snd p
  | None => Field.mk EmptyString EmptyString false
  end.

Record Columns : Type := mkColumns {
  primaryKeyColumns : list string;
  geometryColumn : string;
  insertColumns : list string;
  updateColumns : list string
}.

(** Lines 149-164: the body of the loop over the target's columns. *)
Definition classify_field (layerName : string) (ogrFields : gmap string OgrField.t)
    (field : Field.t) (acc : Columns) : Res Columns :=
  let pk := if Field.isPrimaryKey field
            then primaryKeyColumns acc ++ [Field.name field]
            else primaryKeyColumns acc in
  let upd := if Field.isPrimaryKey field
             then updateColumns acc
             else updateColumns acc ++ [Field.name field] in
  rbind
    (if String.eqb (Field.pgTypeName field) "geometry" then
       if negb (empty (geometryColumn acc)) then
         Throw (WorkerError ("Layer " +:+ dq +:+ layerName +:+ dq
                  +:+ " has multiple geometry columns. Currently only one is supported"))
       else Ret (Field.name field, insertColumns acc ++ [Field.name field])
     else Ret (geometryColumn acc, insertColumns acc))
    (fun '(geom, ins) =>
       let ins' := if ogrFields_has ogrFields (Field.name field)
                   then ins ++ [Field.name field] else ins in
       Ret (mkColumns pk geom ins' upd)).

(** Lines 144-165. *)
Fixpoint classify_fields (layerName : string) (ogrFields : gmap string OgrField.t)
    (tableFields : FieldMap) (acc : Columns) : Res Columns :=
  match tableFields with
  | [] => Ret acc
  | tableFieldPair :: rest =>
      rbind (classify_field layerName ogrFields (snd tableFieldPair) acc)
            (classify_fields layerName ogrFields rest)
  end.

(** Lines 169-174. *)
Definition missingPrimaryKeysSource (ogrFields : gmap string OgrField.t)
    (primaryKeyColumns : list string) : list string :=
  List.filter (fun primaryKeyCol => negb (ogrFields_has ogrFields primaryKeyCol))
              primaryKeyColumns.

Definition missing_message (layerName : string) (missing : list string) : string :=
  "The source for layer " +:+ dq +:+ layerName +:+ dq
  +:+ " is missing the following fields required "
  +:+ "by the primary key: " +:+ StringUtils.join missing ", ".

(** Lines 166-178. *)
Definition check_primary_key (layerName : string) (ogrFields : gmap string OgrField.t)
    (cols : Columns) : Res unit :=
  match primaryKeyColumns cols with
  | [] => Throw (WorkerError ("Got no primarykey for layer " +:+ dq +:+ layerName +:+ dq))
  | _ :: _ =>
      match missingPrimaryKeysSource ogrFields (primaryKeyColumns cols) with
      | [] => Ret tt
      | missing => Throw (WorkerError (missing_message layerName missing))
      end
  end.

(** Lines 144-178 together. *)
Definition introspect (layerName : string) (ogrFields : gmap string OgrField.t)
    (tableFields : FieldMap) : Res Columns :=
  rbind (classify_fields layerName ogrFields tableFields
           (mkColumns [] EmptyString [] []))
        (fun cols => rbind (check_primary_key layerName ogrFields cols)
                           (fun _ => Ret cols)).

(** Lines 181-188. *)
Fixpoint insertQueryValues (tableFields : FieldMap) (insertColumns : list string)
    (idxColumn : Z) : list string :=
  match insertColumns with
  | [] => []
  | insertColumn :: rest =>
      ("$" +:+ to_string_int idxColumn +:+ "::"
       +:+ Field.pgTypeName (tableFields_at tableFields insertColumn))
      :: insertQueryValues tableFields rest (idxColumn + 1)
  end.

(** Lines 189-195. *)
Definition insertQuery (tempTableName : string) (tableFields : FieldMap)
    (insertColumns : list string) : string :=
  "insert into " +:+ dq +:+ tempTableName +:+ dq +:+ " (" +:+ dq
  +:+ StringUtils.join insertColumns (dq +:+ ", " +:+ dq)
  +:+ dq +:+ ") values ("
  +:+ StringUtils.join (insertQueryValues tableFields insertColumns 1) ", "
  +:+ ")".

(** Lines 207-230: the geometry of the feature as hexadecimal WKB. *)
Definition encode_geometry (ogrGeometry : OGRGeometry) (numPulled : Z) : Res string :=
  let bufferSize := WkbSize ogrGeometry in
  if negb (CPLMalloc_ok ogrGeometry) then
    Throw (WorkerError "Unable to allocate memory to export geometry")
  else
    match exportToWkb ogrGeometry with
    | None =>
        Throw (WorkerError ("Could not export the geometry from feature #"
                            +:+ to_string_int numPulled))
    | Some buffer =>
        if negb (CPLBinaryToHex_ok ogrGeometry) then
          Throw (WorkerError "Unable to allocate memory to convert geometry to hex")
        else Ret (CPLBinaryToHex bufferSize buffer)
    end.

(** Lines 232-246: an attribute of the feature by the kind of its field. *)
Definition field_value (ogrFeature : OGRFeature) (ogrField : OgrField.t) : Res string :=
  match OgrField.type ogrField with
  | OFTString => Ret (GetFieldAsString ogrFeature (OgrField.index ogrField))
  | OFTInteger => Ret (to_string_int (GetFieldAsInteger ogrFeature (OgrField.index ogrField)))
  | OFTReal => Ret (to_string_double (GetFieldAsDouble ogrFeature (OgrField.index ogrField)))
  | t => Throw (WorkerError ("Unsupported OGR field type: "
                             +:+ to_string_int (OGRFieldType_tag t)))
  end.

(** Lines 202-248: the value vector of one feature. *)
Fixpoint strValues (tableFields : FieldMap) (ogrFields : gmap string OgrField.t)
    (ogrFeature : OGRFeature) (numPulled : Z) (insertColumns : list string)
    : Res (list string) :=
  match insertColumns with
  | [] => Ret []
  | insertColumn :: rest =>
      let tableField := tableFields_at tableFields insertColumn in
      rbind
        (if String.eqb (Field.pgTypeName tableField) "geometry"
         then encode_geometry (GetGeometryRef ogrFeature) numPulled
         else field_value ogrFeature (ogrFields_at ogrFields insertColumn))
        (fun v =>
           rbind (strValues tableFields ogrFields ogrFeature numPulled rest)
                 (fun vs => Ret (v :: vs)))
  end.

(** Lines 271-276: the assignments of the SET clause. *)
Fixpoint set_clause (tempTableName : string) (updateColumns : list string) (i : nat)
    : string :=
  match updateColumns with
  | [] => EmptyString
  | c :: rest =>
      (if (i =? 0)%nat then EmptyString else ", ")
      +:+ dq +:+ c +:+ dq +:+ " = " +:+ dq +:+ tempTableName +:+ dq +:+ "."
      +:+ dq +:+ c +:+ dq +:+ " "
      +:+ set_clause tempTableName rest (S i)
  end.

(** Lines 279-285: the primary-key match of the WHERE clause. *)
Fixpoint key_condition (tableName tempTableName : string)
    (primaryKeyColumns : list string) (i : nat) : string :=
  match primaryKeyColumns with
  | [] => EmptyString
  | c :: rest =>
      (if (i =? 0)%nat then EmptyString else " and ")
      +:+ dq +:+ tableName +:+ dq +:+ "." +:+ dq +:+ c +:+ dq
      +:+ " is not distinct from " +:+ dq +:+ tempTableName +:+ dq +:+ "."
      +:+ dq +:+ c +:+ dq
      +:+ key_condition tableName tempTableName rest (S i)
  end.

(** Lines 288-295: the row-difference condition of the WHERE clause. *)
Fixpoint difference_condition (tableName tempTableName : string)
    (updateColumns : list string) (i : nat) : string :=
  match updateColumns with
  | [] => EmptyString
  | c :: rest =>
      (if (i =? 0)%nat then EmptyString else " or ")
      +:+ "(" +:+ dq +:+ tableName +:+ dq +:+ "." +:+ dq +:+ c +:+ dq
      +:+ " is distinct from  " +:+ dq +:+ tempTableName +:+ dq +:+ "."
      +:+ dq +:+ c +:+ dq +:+ ")"
      +:+ difference_condition tableName tempTableName rest (S i)
  end.

(** Lines 268-296. *)
Definition updateStmt (layer : Layer.t) (tempTableName : string) (cols : Columns)
    : string :=
  "update " +:+ dq +:+ Layer.target_table_schema layer +:+ dq +:+ "." +:+ dq
  +:+ Layer.target_table_name layer +:+ dq +:+ " "
  +:+ " set "
  +:+ set_clause tempTableName (updateColumns cols) 0
  +:+ " from " +:+ dq +:+ tempTableName +:+ dq
  +:+ " where ("
  +:+ key_condition (Layer.target_table_name layer) tempTableName
        (primaryKeyColumns cols) 0
  +:+ ") and ("
  +:+ difference_condition (Layer.target_table_name layer) tempTableName
        (updateColumns cols) 0
  +:+ ")".

(** Lines 302-310. *)
Definition insertMissingStmt (layer : Layer.t) (tempTableName : string) (cols : Columns)
    : string :=
  "insert into " +:+ dq +:+ Layer.target_table_schema layer +:+ dq +:+ "." +:+ dq
  +:+ Layer.target_table_name layer +:+ dq +:+ " "
  +:+ " ( " +:+ dq +:+ StringUtils.join (insertColumns cols) (dq +:+ ", " +:+ dq)
  +:+ dq +:+ ") "
  +:+ " select " +:+ dq +:+ StringUtils.join (insertColumns cols) (dq +:+ ", " +:+ dq)
  +:+ dq +:+ " "
  +:+ " from " +:+ dq +:+ tempTableName +:+ dq
  +:+ " where (" +:+ dq
  +:+ StringUtils.join (primaryKeyColumns cols) (dq +:+ ", " +:+ dq)
  +:+ dq +:+ ") not in ("
  +:+ " select " +:+ dq
  +:+ StringUtils.join (primaryKeyColumns cols) (dq +:+ "," +:+ dq)
  +:+ dq +:+ " "
  +:+ "       from " +:+ dq +:+ Layer.target_table_schema layer +:+ dq +:+ "." +:+ dq
  +:+ Layer.target_table_name layer +:+ dq
  +:+ ")".

(** Lines 317-322. *)
Definition deleteRemovedStmt (layer : Layer.t) (tempTableName : string) (cols : Columns)
    : string :=
  "delete from " +:+ dq +:+ Layer.target_table_schema layer +:+ dq +:+ "." +:+ dq
  +:+ Layer.target_table_name layer +:+ dq +:+ " "
  +:+ " where (" +:+ dq
  +:+ StringUtils.join (primaryKeyColumns cols) (dq +:+ ", " +:+ dq)
  +:+ dq +:+ ") not in ("
  +:+ " select " +:+ dq
  +:+ StringUtils.join (primaryKeyColumns cols) (dq +:+ "," +:+ dq)
  +:+ dq +:+ " "
  +:+ "       from " +:+ dq +:+ tempTableName +:+ dq
  +:+ ")".

(** Lines 75-87: the message for a rejected attribute filter. *)
Definition invalid_filter_message (layer : Layer.t) (lastErrorMsg : option string)
    (filterString : string) : string :=
  "The given filter for layer " +:+ dq +:+ Layer.name layer +:+ dq +:+ " is invalid"
  +:+ match lastErrorMsg with
      | Some msg => ": " +:+ msg
      | None => "."
      end
  +:+ " The applied filter was [ " +:+ filterString +:+ " ]".

(** Lines 97-98. *)
Definition geometry_count_message (count : Z) : string :=
  "The source provides " +:+ to_string_int count
  +:+ "geometry fields. Currently only sources with on geoemtry field are supported".

(** ** [Worker::pull] and [Worker::run] *)

Section Worker.

Context {D : Type}.

(** The GDAL major version the worker is compiled against. *)
Variable GDAL_VERSION_MAJOR : Z.
Variable configuration : Configuration.
Variable ogr : OGRSFDriverRegistrar.
Variable db : Database D.

Definition setStatus (s : Job.Status) : M D unit := modifyJob (Job.setStatus s).

Definition setMessage (m : string) : M D unit := modifyJob (Job.setMessage m).

Definition setStatistics (p c u d : Z) : M D unit :=
  modifyJob (Job.setStatistics p c u d).

(** Lines 71-91. *)
Definition apply_filter (layer : Layer.t) (ogrLayer : OGRLayer) (filterString : string)
    : M D unit :=
  if empty filterString then ret tt
  else
    emit (EvOgr (OgrSetAttributeFilter filterString)) ;;;
    if SetAttributeFilter ogrLayer filterString then ret tt
    else throw (WorkerError
                  (invalid_filter_message layer
                     (CPLGetLastErrorMsg ogrLayer filterString) filterString)).

(** Lines 95-101, compiled in only for [GDAL_VERSION_MAJOR > 1]. *)
Definition check_geometry_count (ogrFeatureDefn : OGRFeatureDefn) : M D unit :=
  if (1 <? GDAL_VERSION_MAJOR) && negb (GetGeomFieldCount ogrFeatureDefn =? 1)
  then throw (WorkerError (geometry_count_message (GetGeomFieldCount ogrFeatureDefn)))
  else ret tt.

(** Lines 53-101. *)
Definition open_source (job : Job.t) : M D (Layer.t * OGRLayer) :=
  layer <- lift (getLayer configuration (Job.getLayerName job)) ;;
  emit (EvOgr (OgrOpen (Layer.source layer))) ;;;
  match Open ogr (Layer.source layer) with
  | None =>
      throw (WorkerError ("Could not open dataset for layer " +:+ dq
                          +:+ Layer.name layer +:+ dq))
  | Some ogrDataset =>
      emit (EvOgr (OgrGetLayerByName (Layer.source_layer layer))) ;;;
      match GetLayerByName ogrDataset (Layer.source_layer layer) with
      | None =>
          throw (WorkerError ("source_layer " +:+ dq +:+ Layer.source_layer layer
                              +:+ dq +:+ " in dataset for layer " +:+ dq
                              +:+ Layer.name layer +:+ dq +:+ " not found"))
      | Some ogrLayer =>
          emit (EvOgr OgrResetReading) ;;;
          apply_filter layer ogrLayer (Job.getFilter job) ;;;
          check_geometry_count (GetLayerDefn ogrLayer) ;;;
          ret (layer, ogrLayer)
      end
  end.

(** Lines 200-263: the features are streamed into the scratch table. *)
Fixpoint stream_features (insertStmtName : string) (tableFields : FieldMap)
    (ogrFields : gmap string OgrField.t) (insertColumns : list string)
    (features : list OGRFeature) (numPulled : Z) : M D Z :=
  match features with
  | [] => emit (EvOgr OgrGetNextFeature) ;;; ret numPulled
  | ogrFeature :: rest =>
      emit (EvOgr OgrGetNextFeature) ;;;
      values <- lift (strValues tableFields ogrFields ogrFeature numPulled insertColumns) ;;
      dbCall (DbExecPrepared insertStmtName values)
             (execPrepared db insertStmtName values) ;;;
      stream_features insertStmtName tableFields ogrFields insertColumns rest
                      (numPulled + 1)
  end.

(** Lines 264-328: differential reconciliation and the end of the job. *)
Definition reconcile (layer : Layer.t) (tempTableName : string) (cols : Columns)
    (numPulled : Z) : M D unit :=
  setStatistics numPulled 0 0 0 ;;;
  updateRes <- dbCall (DbExec (updateStmt layer tempTableName cols))
                      (exec db (updateStmt layer tempTableName cols)) ;;
  let numUpdated := atoi (PQcmdTuples updateRes) in
  insertMissingRes <- dbCall (DbExec (insertMissingStmt layer tempTableName cols))
                             (exec db (insertMissingStmt layer tempTableName cols)) ;;
  let numCreated := atoi (PQcmdTuples insertMissingRes) in
  deleteRemovedRes <- dbCall (DbExec (deleteRemovedStmt layer tempTableName cols))
                             (exec db (deleteRemovedStmt layer tempTableName cols)) ;;
  let numDeleted := atoi (PQcmdTuples deleteRemovedRes) in
  setStatus Job.FINISHED ;;;
  setStatistics numPulled numCreated numUpdated numDeleted.

(** Lines 127-328: the work inside the transaction. *)
Definition pull_transaction (job : Job.t) (layer : Layer.t) (ogrLayer : OGRLayer)
    (ogrFields : gmap string OgrField.t) : M D unit :=
  let tempTableName := "batyr_" +:+ Job.getId job in
  dbCall (DbCreateTempTable (Layer.target_table_schema layer)
                            (Layer.target_table_name layer) tempTableName)
         (createTempTable db (Layer.target_table_schema layer)
                          (Layer.target_table_name layer) tempTableName) ;;;
  tableFields <- dbCall (DbGetTableFields (Layer.target_table_schema layer)
                                          (Layer.target_table_name layer))
                        (getTableFields db (Layer.target_table_schema layer)
                                        (Layer.target_table_name layer)) ;;
  cols <- lift (introspect (Job.getLayerName job) ogrFields tableFields) ;;
  let insertStmtName := "batyr_insert" +:+ Job.getId job in
  dbCall (DbPrepare insertStmtName
                    (insertQuery tempTableName tableFields (insertColumns cols))
                    (length (insertColumns cols)))
         (prepare db insertStmtName
                  (insertQuery tempTableName tableFields (insertColumns cols))
                  (length (insertColumns cols))) ;;;
  numPulled <- stream_features insertStmtName tableFields ogrFields
                 (insertColumns cols) (GetFeatures ogrLayer (Job.getFilter job)) 0 ;;
  reconcile layer tempTableName cols numPulled.

(** [Worker::pull(job)].  [job] is the record as the caller holds it:
    its id, layer name and filter are what the code reads; the status,
    the message and the statistics are written to the record in the
    world.  The commit or rollback of the transaction object when it
    goes out of scope belongs to the database classes and is not part
    of the model. *)
Definition pull (job : Job.t) : M D unit :=
  bind (open_source job) (fun '(layer, ogrLayer) =>
    let ogrFields := collect_fields (GetFieldDefns (GetLayerDefn ogrLayer)) 0 ∅ in
    transaction <- dbCall DbGetTransaction (getTransaction db) ;;
    if transaction : bool then pull_transaction job layer ogrLayer ogrFields
    else
      setStatus Job.FAILED ;;;
      setMessage "Could not start a database transaction").

Definition waiting_message : string := "Waiting to aquire a database connection".

Fixpoint emit_all (evs : list Event) : M D unit :=
  match evs with
  | [] => ret tt
  | ev :: rest => emit ev ;;; emit_all rest
  end.

(** Lines 358-366: [reconnect] is called until it succeeds; after the
    first failed attempt the job message announces the wait. *)
Definition reconnect_loop : M D unit :=
  outcome <- dbCall DbReconnect
               (fun d => let '(outcome, d') := reconnect db d in (Ret outcome, d')) ;;
  match outcome with
  | Connected O => ret tt
  | Connected (S n) =>
      setMessage waiting_message ;;;
      emit_all (replicate (S n) (EvDb DbReconnect))
  | ReconnectThrows O e => throw e
  | ReconnectThrows (S n) e =>
      setMessage waiting_message ;;;
      emit_all (replicate (S n) (EvDb DbReconnect)) ;;;
      throw e
  | NeverConnected =>
      setMessage waiting_message ;;;
      lift Blocked
  end.

(** Lines 354-369: the body of the [try] block for a popped job. *)
Definition process_job : M D unit :=
  setStatus Job.IN_PROCESS ;;;
  reconnect_loop ;;;
  setMessage EmptyString ;;;
  job <- getJob ;;
  pull job.

(** Lines 345-389: one iteration of the loop for a popped job.  [Ret]
    means the loop goes on with the next job; [Throw] means the
    exception leaves [run]. *)
Definition run_job : M D unit :=
  fun w =>
    match process_job w with
    | (Ret _, w') => (Ret tt, w')
    | (Throw (DbError what), w') =>
        (setStatus Job.FAILED ;;; setMessage what) w'
    | (Throw (WorkerError what), w') =>
        (setStatus Job.FAILED ;;; setMessage what) w'
    | (Throw (runtime_error what), w') =>
        (setStatus Job.FAILED ;;; setMessage what ;;; throw (runtime_error what)) w'
    | (Throw other_exception, w') => (Throw other_exception, w')
    | (Blocked, w') => (Blocked, w')
    end.

(** [Worker::run] over the jobs the queue hands out before it is
    closed.  The result lists, for every job that was popped, the
    world its iteration ended in. *)
Fixpoint run (queue : list Job.t) (d : D) : Res unit * list (World D) :=
  match queue with
  | [] => (Ret tt, [])
  | job :: rest =>
      match run_job (mkWorld job d []) with
      | (Ret _, w) => let '(r, ws) := run rest (w_db w) in (r, w :: ws)
      | (Throw e, w) => (Throw e, [w])
      | (Blocked, w) => (Blocked, [w])
      end
  end.

End Worker.

(** ** The UPDATE statement as the database reads it

    [Worker::pull] hands the database the text of an UPDATE ... FROM
    statement.  What the statement does to the target table is decided
    by PostgreSQL; this section gives the abstract syntax of the
    fragment the worker emits, its concrete syntax in the layout the
    worker uses, and its meaning on tables whose rows map column names
    to values (a column holding NULL is absent from the row's map). *)

Module Sql.

Abbreviation Row := (gmap string string).

Inductive colref : Type :=
| ColRef (table column : string).

#[warnings="-register-all"]
Inductive expr : Type :=
| IsDistinctFrom (a b : colref)
| IsNotDistinctFrom (a b : colref)
| And (es : list expr)
| Or (es : list expr)
| Paren (e : expr).

Record update : Type := mkUpdate {
  target_schema : string;
  target_table : string;
  assignments : list (string * colref);
  from_table : string;
  where_clause : expr
}.

(** *** Concrete syntax *)

Definition print_colref (r : colref) : string :=
  match r with
  | ColRef t c => dq +:+ t +:+ dq +:+ "." +:+ dq +:+ c +:+ dq
  end.

Fixpoint print_sep (sep : string) (parts : list string) (i : nat) : string :=
  match parts with
  | [] => EmptyString
  | p :: rest =>
      (if (i =? 0)%nat then EmptyString else sep) +:+ p +:+ print_sep sep rest (S i)
  end.

Fixpoint print_expr (e : expr) : string :=
  match e with
  | IsDistinctFrom a b => print_colref a +:+ " is distinct from  " +:+ print_colref b
  | IsNotDistinctFrom a b =>
      print_colref a +:+ " is not distinct from " +:+ print_colref b
  | And es => print_sep " and " (List.map print_expr es) 0
  | Or es => print_sep " or " (List.map print_expr es) 0
  | Paren e' => "(" +:+ print_expr e' +:+ ")"
  end.

Definition print_assignment (a : string * colref) : string :=
  dq +:+ fst a +:+ dq +:+ " = " +:+ print_colref (snd a) +:+ " ".

Definition print (u : update) : string :=
  "update " +:+ dq +:+ target_schema u +:+ dq +:+ "." +:+ dq +:+ target_table u
  +:+ dq +:+ " " +:+ " set "
  +:+ print_sep ", " (List.map print_assignment (assignments u)) 0
  +:+ " from " +:+ dq +:+ from_table u +:+ dq
  +:+ " where " +:+ print_expr (where_clause u).

(** *** Static checks *)

(** Every operand list of [and]/[or] is non-empty: an empty pair of
    parentheses is not an expression. *)
Fixpoint expr_ok (e : expr) : bool :=
  match e with
  | IsDistinctFrom _ _ | IsNotDistinctFrom _ _ => true
  | And es | Or es => negb (Nat.eqb (length es) 0) && forallb expr_ok es
  | Paren e' => expr_ok e'
  end.

Definition colref_table (r : colref) : string :=
  match r with ColRef t _ => t end.

Definition colref_column (r : colref) : string :=
  match r with ColRef _ c => c end.

Fixpoint expr_tables (e : expr) : list string :=
  match e with
  | IsDistinctFrom a b | IsNotDistinctFrom a b => [colref_table a; colref_table b]
  | And es | Or es => List.concat (List.map expr_tables es)
  | Paren e' => expr_tables e'
  end.

Definition known_table (u : update) (t : string) : bool :=
  String.eqb t (target_table u) || String.eqb t (from_table u).

(** Syntax: the SET list is not empty, and no pair of parentheses is. *)
Definition well_formed (u : update) : bool :=
  negb (Nat.eqb (length (assignments u)) 0) && expr_ok (where_clause u).

(** Names: no column is assigned twice, the target and the FROM table
    go by different names, and every column reference names one of
    the two. *)
Definition resolves (u : update) : bool :=
  bool_decide (NoDup (List.map fst (assignments u)))
  && negb (String.eqb (target_table u) (from_table u))
  && forallb (known_table u) (List.map (fun a => colref_table (snd a)) (assignments u))
  && forallb (known_table u) (expr_tables (where_clause u)).

(** The statements the database accepts. *)
Definition accepted (u : update) : bool := well_formed u && resolves u.

(** *** Meaning *)

(** The value of a column reference for a target row joined with a
    FROM row; [None] is NULL. *)
Definition value (u : update) (t s : Row) (r : colref) : option string :=
  if String.eqb (colref_table r) (target_table u)
  then t !! colref_column r
  else s !! colref_column r.

Fixpoint holds (u : update) (t s : Row) (e : expr) : bool :=
  match e with
  | IsDistinctFrom a b => negb (bool_decide (value u t s a = value u t s b))
  | IsNotDistinctFrom a b => bool_decide (value u t s a = value u t s b)
  | And es => forallb (holds u t s) es
  | Or es => existsb (holds u t s) es
  | Paren e' => holds u t s e'
  end.

Definition assign (column : string) (v : option string) (row : Row) : Row :=
  match v with
  | Some x => <[column := x]> row
  | None => delete column row
  end.

(** The new row: every right-hand side is computed from the old row
    [t] and the join row [s]. *)
Definition set_row (u : update) (t s : Row) : Row :=
  fold_right (fun a row => assign (fst a) (value u t s (snd a)) row) t (assignments u).

(** The join row used for a target row: of several candidates
    PostgreSQL uses one and does not say which; the model takes the
    first. *)
Definition join_row (u : update) (S : list Row) (t : Row) : option Row :=
  List.find (fun s => holds u t s (where_clause u)) S.

Definition update_row (u : update) (S : list Row) (t : Row) : Row :=
  match join_row u S t with
  | Some s => set_row u t s
  | None => t
  end.

Definition affected (u : update) (T S : list Row) : nat :=
  length (List.filter (fun t => bool_decide (is_Some (join_row u S t))) T).

(** Execution on a target table [T] and a FROM table [S]: the new
    target rows and the command status with the affected-row count. *)
Definition execute (u : update) (T S : list Row) : Res (list Row * PGresult) :=
  if accepted u
  then Ret (List.map (update_row u S) T,
            mkPGresult (to_string_int (Z.of_nat (affected u T S))))
  else Throw (DbError ("syntax error in: " +:+ print u)).

(** The target rows after the statement; a rejected statement
    changes nothing. *)
Definition rows_after (outcome : Res (list Row * PGresult)) (T : list Row) : list Row :=
  match outcome with
  | Ret (T', _) => T'
  | _ => T
  end.

End Sql.

(** The statement of lines 268-296 in abstract syntax. *)
Definition update_ast (layer : Layer.t) (tempTableName : string) (cols : Columns)
    : Sql.update :=
  let tableName := Layer.target_table_name layer in
  Sql.mkUpdate
    (Layer.target_table_schema layer)
    tableName
    (List.map (fun c => (c, Sql.ColRef tempTableName c)) (updateColumns cols))
    tempTableName
    (Sql.And
       [ Sql.Paren
           (Sql.And
              (List.map (fun c => Sql.IsNotDistinctFrom (Sql.ColRef tableName c)
                                                        (Sql.ColRef tempTableName c))
                        (primaryKeyColumns cols)));
         Sql.Paren
           (Sql.Or
              (List.map (fun c => Sql.Paren
                                    (Sql.IsDistinctFrom (Sql.ColRef tableName c)
                                                        (Sql.ColRef tempTableName c)))
                        (updateColumns cols))) ]).

(** ** The update step in the words of the specification *)

(** Two rows match when all primary-key columns are pairwise equal,
    two NULLs comparing equal. *)
Definition key_match (pk : list string) (t s : Sql.Row) : bool :=
  forallb (fun c => bool_decide (t !! c = s !! c)) pk.

(** Two rows differ when at least one non-key column is distinct, NULL
    being distinct from every value. *)
Definition row_differs (uc : list string) (t s : Sql.Row) : bool :=
  existsb (fun c => negb (bool_decide (t !! c = s !! c))) uc.

(** Every non-key column is copied from the scratch row to the target row. *)
Definition copy_columns (uc : list string) (s t : Sql.Row) : Sql.Row :=
  fold_right (fun c row => Sql.assign c (s !! c) row) t uc.

Definition to_update (pk uc : list string) (S : list Sql.Row) (t : Sql.Row) : bool :=
  existsb (fun s => key_match pk t s && row_differs uc t s) S.

Definition count_updates (pk uc : list string) (T S : list Sql.Row) : nat :=
  length (List.filter (to_update pk uc S) T).

(** ** Scenarios

    Concrete layers, sources and databases on which the statements
    below are exercised. *)

Module Scenario.

Definition roads : Layer.t :=
  Layer.mk "roads" "/data/roads.shp" "roads" "public" "roads".

Definition configuration : Configuration :=
  mkConfiguration
    (fun layerName =>
       if String.eqb layerName "roads" then Ret roads
       else Throw (runtime_error "unknown layer")).

(** POINT(1 2) in little-endian WKB. *)
Definition point_1_2 : list Byte.byte :=
  [Byte.x01; Byte.x01; Byte.x00; Byte.x00; Byte.x00;
   Byte.x00; Byte.x00; Byte.x00; Byte.x00; Byte.x00; Byte.x00; Byte.xf0; Byte.x3f;
   Byte.x00; Byte.x00; Byte.x00; Byte.x00; Byte.x00; Byte.x00; Byte.x00; Byte.x40].

Definition point_geometry : OGRGeometry := mkGeometry 21 true (Some point_1_2) true.

(** The doubles 2^-30 and 2^-31. *)
Definition two_pow_m30 : spec_float := S754_finite false (2 ^ 52) (-82).
Definition two_pow_m31 : spec_float := S754_finite false (2 ^ 52) (-83).

Definition feature (g : OGRGeometry) : OGRFeature :=
  mkFeature g
    (fun i => match i with 1%nat => "A" | _ => EmptyString end)
    (fun i => match i with 0%nat => 1 | _ => 0 end)
    (fun i => match i with 2%nat => two_pow_m30 | _ => S754_zero false end).

Definition fields : list OGRFieldDefn :=
  [mkFieldDefn "ID" OFTInteger; mkFieldDefn "NAME" OFTString;
   mkFieldDefn "LENGTH" OFTReal].

(** A source layer with [geomFields] geometry fields that rejects
    every filter but the empty one. *)
Definition source_layer (geomFields : Z) (features : list OGRFeature) : OGRLayer :=
  mkLayer (mkFeatureDefn geomFields fields)
          (fun filterString => empty filterString)
          (fun filterString => Some "syntax error, unexpected end of string")
          (fun _ => features).

Definition registrar (layer : OGRLayer) : OGRSFDriverRegistrar :=
  mkRegistrar
    (fun source =>
       if String.eqb source "/data/roads.shp"
       then Some (mkDataSource
                    (fun layerName =>
                       if String.eqb layerName "roads" then Some layer else None))
       else None).

Definition roads_table : FieldMap :=
  [("geom", Field.mk "geom" "geometry" false);
   ("id", Field.mk "id" "integer" true);
   ("length", Field.mk "length" "double precision" false);
   ("name", Field.mk "name" "text" false)].

(** A target whose key column [gid] the source does not have. *)
Definition gid_table : FieldMap :=
  [("geom", Field.mk "geom" "geometry" false);
   ("gid", Field.mk "gid" "integer" true);
   ("name", Field.mk "name" "text" false)].

(** A target all of whose columns are key columns. *)
Definition key_only_table : FieldMap :=
  [("id", Field.mk "id" "integer" true)].

(** A database over a counter of the statements executed so far.  It
    reports [tableFields] for every table and answers the three
    reconciliation statements with the command statuses [statuses];
    a statement beyond them is rejected. *)
Definition database (tableFields : FieldMap) (statuses : list string) : Database nat :=
  mkDatabase
    (fun d => (Connected O, d))
    (fun d => (Ret true, d))
    (fun _ _ _ d => (Ret tt, d))
    (fun _ _ d => (Ret tableFields, d))
    (fun _ _ _ d => (Ret tt, d))
    (fun _ _ d => (Ret tt, d))
    (fun sql d =>
       match statuses !! d with
       | Some status => (Ret (mkPGresult status), S d)
       | None => (Throw (DbError ("syntax error in: " +:+ sql)), S d)
       end).

Definition job (filterString : string) : Job.t :=
  Job.mkJob "42" "roads" filterString Job.QUEUED EmptyString
            (Job.mkStatistics 0 0 0 0).

Definition world (filterString : string) : World nat :=
  mkWorld (job filterString) 0%nat [].

(** Rows of the target and of the scratch table. *)
Definition row (id : string) (name : option string) : Sql.Row :=
  Sql.assign "name" name (<["id" := id]> ∅).

(** The columns the introspection finds for [roads_table]. *)
Definition roads_columns : Columns :=
  mkColumns ["id"] "geom" ["geom"; "id"; "length"; "name"] ["geom"; "length"; "name"].

Definition key_only_columns : Columns := mkColumns ["id"] EmptyString ["id"] [].

Definition ogrFields : gmap string OgrField.t := collect_fields fields 0 ∅.

End Scenario.

(** The primary-key and the other columns of a target table, by name. *)
Definition pk_names (tableFields : FieldMap) : list string :=
  List.map Field.name (List.filter Field.isPrimaryKey (List.map snd tableFields)).

Definition nonpk_names (tableFields : FieldMap) : list string :=
  List.map Field.name
    (List.filter (fun f => negb (Field.isPrimaryKey f)) (List.map snd tableFields)).

(** ** Reading a fixed-point rendering back

    The number of millionths a [%f] rendering denotes: the digits are
    read in order, the decimal point is skipped. *)

Fixpoint fixed_digits (acc : Z) (s : string) : Z :=
  match s with
  | EmptyString => acc
  | String c s' =>
      if Ascii.eqb c "." then fixed_digits acc s'
      else match digit_value c with
           | Some d => fixed_digits (10 * acc + d) s'
           | None => acc
           end
  end.

Definition millionths (s : string) : Z :=
  match s with
  | String "-" s' => - fixed_digits 0 s'
  | _ => fixed_digits 0 s
  end.

(** The number a sequence of decimal digits denotes, from an accumulator. *)
Fixpoint uint_value (acc : Z) (d : Decimal.uint) : Z :=
  match d with
  | Decimal.Nil => acc
  | Decimal.D0 l => uint_value (10 * acc + 0) l
  | Decimal.D1 l => uint_value (10 * acc + 1) l
  | Decimal.D2 l => uint_value (10 * acc + 2) l
  | Decimal.D3 l => uint_value (10 * acc + 3) l
  | Decimal.D4 l => uint_value (10 * acc + 4) l
  | Decimal.D5 l => uint_value (10 * acc + 5) l
  | Decimal.D6 l => uint_value (10 * acc + 6) l
  | Decimal.D7 l => uint_value (10 * acc + 7) l
  | Decimal.D8 l => uint_value (10 * acc + 8) l
  | Decimal.D9 l => uint_value (10 * acc + 9) l
  end.

(** ** Frames

    What a computation may do to the job record and to the trace: [R]
    relates the record before and after, [P] holds of every event that
    is added. *)

Definition frame_at {D A} (R : Job.t -> Job.t -> Prop) (P : Event -> Prop)
    (m : M D A) (w : World D) : Prop :=
  forall r w', m w = (r, w') ->
    R (w_job w) (w_job w')
    /\ exists evs, w_trace w' = w_trace w ++ evs /\ Forall P evs.

Definition frame {D A} (R : Job.t -> Job.t -> Prop) (P : Event -> Prop)
    (m : M D A) : Prop :=
  forall w, frame_at R P m w.

(** An event other than the application of an attribute filter. *)
Definition no_filter_event (ev : Event) : Prop :=
  forall filterString, ev <> EvOgr (OgrSetAttributeFilter filterString).

(** The request a job carries: what the worker never changes. *)
Definition same_request (j j' : Job.t) : Prop :=
  Job.getId j' = Job.getId j
  /\ Job.getLayerName j' = Job.getLayerName j
  /\ Job.getFilter j' = Job.getFilter j.

(** An event of opening the source: a call of the driver other than
    the reading of a feature. *)
Definition opening_event (ev : Event) : Prop :=
  match ev with
  | EvOgr OgrGetNextFeature => False
  | EvOgr _ => True
  | _ => False
  end.

(** The request and the status of a job are kept. *)
Definition same_status (j j' : Job.t) : Prop :=
  same_request j j' /\ Job.getStatus j' = Job.getStatus j.

(** ** Further notions used by the properties of the worker *)

(** The geometry columns of a target table. *)
Definition geometry_columns (tableFields : FieldMap) : list Field.t :=
  List.filter (fun f => String.eqb (Field.pgTypeName f) "geometry")
              (List.map snd tableFields).

(** The message of line 157. *)
Definition multiple_geometry_message (layerName : string) : string :=
  "Layer " +:+ dq +:+ layerName +:+ dq
  +:+ " has multiple geometry columns. Currently only one is supported".

(** What one column of the target adds to [insertColumns] (lines 155-164). *)
Definition inserted_for (ogrFields : gmap string OgrField.t) (f : Field.t) : list string :=
  (if String.eqb (Field.pgTypeName f) "geometry" then [Field.name f] else [])
  ++ (if ogrFields_has ogrFields (Field.name f) then [Field.name f] else []).

(** The events of the streaming loop for a prepared statement with
    [nParams] parameters: a feature is read, or the statement is
    executed with [nParams] values. *)
Definition streaming_event (insertStmtName : string) (nParams : nat) (ev : Event) : Prop :=
  match ev with
  | EvOgr OgrGetNextFeature => True
  | EvDb (DbExecPrepared stmtName values) =>
      stmtName = insertStmtName /\ length values = nParams
  | _ => False
  end.

Definition is_exec_prepared (ev : Event) : bool :=
  match ev with
  | EvDb (DbExecPrepared _ _) => true
  | _ => false
  end.

Definition is_next_feature (ev : Event) : bool :=
  match ev with
  | EvOgr OgrGetNextFeature => true
  | _ => false
  end.

(** The texts handed to [exec], in order. *)
Definition executed_statements (evs : list Event) : list string :=
  omap (fun ev => match ev with EvDb (DbExec sql) => Some sql | _ => None end) evs.

(** The field types line 233 has a case for. *)
Definition supported (t : OGRFieldType) : bool :=
  match t with
  | OFTString | OFTInteger | OFTReal => true
  | _ => false
  end.

(** The job record as the worker can leave it after a pull that started
    from [j]: finished, failed for want of a transaction, untouched, or
    with the count of pulled features only. *)
Inductive pulled (j : Job.t) : Res unit -> Job.t -> Prop :=
| PulledFinished (n c u d : Z) :
    pulled j (Ret tt)
      (Job.setStatistics n c u d
         (Job.setStatus Job.FINISHED (Job.setStatistics n 0 0 0 j)))
| PulledNoTransaction :
    pulled j (Ret tt)
      (Job.setMessage "Could not start a database transaction"
         (Job.setStatus Job.FAILED j))
| PulledStopped (r : Res unit) :
    (forall a, r <> Ret a) -> pulled j r j
| PulledStoppedLate (r : Res unit) (n : Z) :
    (forall a, r <> Ret a) -> pulled j r (Job.setStatistics n 0 0 0 j).

(** A job the loop is done with: FINISHED with an empty message, or
    FAILED. *)
Definition terminal {D} (w : World D) : Prop :=
  (Job.getStatus (w_job w) = Job.FINISHED /\ Job.getMessage (w_job w) = EmptyString)
  \/ Job.getStatus (w_job w) = Job.FAILED.

(** The exceptions the worker loop has a handler for that lets the
    loop go on. *)
Definition handled (e : exn) : Prop :=
  match e with
  | DbError _ | WorkerError _ => True
  | _ => False
  end.

(** A computation that throws nothing but exceptions in [P]. *)
Definition raises {D A} (P : exn -> Prop) (m : M D A) : Prop :=
  forall w e w', m w = (Throw e, w') -> P e.

(** A database all of whose operations throw nothing but exceptions
    the loop handles and goes on after. *)
Definition throws_only_handled {D} (db : Database D) : Prop :=
  (forall d n e d', reconnect db d = (ReconnectThrows n e, d') -> handled e)
  /\ (forall d e d', getTransaction db d = (Throw e, d') -> handled e)
  /\ (forall s t tmp d e d', createTempTable db s t tmp d = (Throw e, d') -> handled e)
  /\ (forall s t d e d', getTableFields db s t d = (Throw e, d') -> handled e)
  /\ (forall nm sql n d e d', prepare db nm sql n d = (Throw e, d') -> handled e)
  /\ (forall nm vs d e d', execPrepared db nm vs d = (Throw e, d') -> handled e)
  /\ (forall sql d e d', exec db sql d = (Throw e, d') -> handled e).

(** No two rows of the scratch table with the same key differ in
    another column. *)
Definition key_decides (pk uc : list string) (S : list Sql.Row) : Prop :=
  forall s1 s2, In s1 S -> In s2 S -> key_match pk s1 s2 = true ->
                forall c, In c uc -> s1 !! c = s2 !! c.

(** Lines 358-366 as they are written.  [attempt] is one call of
    [db.reconnect(true)]; [fuel] bounds the number of calls that are
    followed, and a loop that has not ended by then counts as waiting
    for ever. *)
Fixpoint reconnect_while {D} (attempt : D -> Res bool * D) (fuel : nat)
    (reconnectAttempts : nat) : M D unit :=
  match fuel with
  | O => lift Blocked
  | S fuel' =>
      connected <- dbCall DbReconnect attempt ;;
      if connected : bool then ret tt
      else
        (if (reconnectAttempts =? 0)%nat then setMessage waiting_message else ret tt) ;;;
        reconnect_while attempt fuel' (S reconnectAttempts)
  end.

(** What a sequence of attempts amounts to: the number of failed
    attempts before the connection is there or an attempt throws. *)
Fixpoint reconnect_outcome {D} (attempt : D -> Res bool * D) (fuel : nat) (d : D)
    : Reconnect * D :=
  match fuel with
  | O => (NeverConnected, d)
  | S fuel' =>
      match attempt d with
      | (Ret true, d') => (Connected O, d')
      | (Ret false, d') =>
          match reconnect_outcome attempt fuel' d' with
          | (Connected n, d'') => (Connected (S n), d'')
          | (ReconnectThrows n e, d'') => (ReconnectThrows (S n) e, d'')
          | (NeverConnected, d'') => (NeverConnected, d'')
          end
      | (Throw e, d') => (ReconnectThrows O e, d')
      | (Blocked, d') => (NeverConnected, d')
      end
  end.

(** How the wait ends, and after how many failed attempts. *)
Definition outcome_result (outcome : Reconnect) : Res unit :=
  match outcome with
  | Connected _ => Ret tt
  | ReconnectThrows _ e => Throw e
  | NeverConnected => Blocked
  end.

Definition failed_attempts (outcome : Reconnect) : nat :=
  match outcome with
  | Connected n | ReconnectThrows n _ => n
  | NeverConnected => O
  end.

(** ** Reading hexadecimal text back *)

Definition hex_value (c : ascii) : N :=
  let n := N_of_ascii c in
  if (n <? 58)%N then (n - 48)%N else (n - 55)%N.

Fixpoint bytes_of_hex (s : string) : list (option Byte.byte) :=
  match s with
  | String hi (String lo rest) =>
      Byte.of_N (16 * hex_value hi + hex_value lo) :: bytes_of_hex rest
  | _ => []
  end.

(** The value vectors handed to [execPrepared], in order. *)
Definition written_values (evs : list Event) : list (list string) :=
  omap (fun ev => match ev with
                  | EvDb (DbExecPrepared _ values) => Some values
                  | _ => None
                  end) evs.

(** The value vector of each feature of a stream, the first feature
    being number [numPulled]. *)
Fixpoint feature_values (tableFields : FieldMap) (ogrFields : gmap string OgrField.t)
    (insertColumns : list string) (features : list OGRFeature) (numPulled : Z)
    : list (Res (list string)) :=
  match features with
  | [] => []
  | ogrFeature :: rest =>
      strValues tableFields ogrFields ogrFeature numPulled insertColumns
      :: feature_values tableFields ogrFields insertColumns rest (numPulled + 1)
  end.

(** ** Further scenarios *)

Module Cases.

(** A target with two geometry columns. *)
Definition two_geometries_table : FieldMap :=
  [("geom", Field.mk "geom" "geometry" false);
   ("id", Field.mk "id" "integer" true);
   ("outline", Field.mk "outline" "geometry" false)].

(** A target without a primary key. *)
Definition keyless_table : FieldMap :=
  [("geom", Field.mk "geom" "geometry" false);
   ("name", Field.mk "name" "text" false)].

(** A target whose key column is spelled with a capital letter. *)
Definition capital_key_table : FieldMap :=
  [("Id", Field.mk "Id" "integer" true);
   ("geom", Field.mk "geom" "geometry" false)].

(** A target with a column [remarks] the source does not have. *)
Definition remarks_table : FieldMap :=
  [("geom", Field.mk "geom" "geometry" false);
   ("id", Field.mk "id" "integer" true);
   ("remarks", Field.mk "remarks" "text" false)].

(** A source with an attribute named like the geometry column, and
    the columns the introspection finds with it for the roads table. *)
Definition fields_with_geom : list OGRFieldDefn :=
  [mkFieldDefn "ID" OFTInteger; mkFieldDefn "GEOM" OFTString].

Definition doubled_columns : Columns :=
  mkColumns ["id"] "geom" ["geom"; "geom"; "id"] ["geom"; "length"; "name"].

(** The source of the roads layer with one feature, and a database
    that answers the three reconciliation statements. *)
Definition one_feature : OGRLayer :=
  Scenario.source_layer 1 [Scenario.feature Scenario.point_geometry].

Definition roads_database : Database nat :=
  Scenario.database Scenario.roads_table ["0"; "1"; "0"].

(** A source with a field of type date. *)
Definition dated_fields : gmap string OgrField.t :=
  collect_fields [mkFieldDefn "ID" OFTInteger; mkFieldDefn "BUILT" OFTDate] 0 ∅.

Definition dated_table : FieldMap :=
  [("built", Field.mk "built" "date" false);
   ("id", Field.mk "id" "integer" true)].

(** A database that hands out no transaction. *)
Definition no_transaction_database : Database nat :=
  mkDatabase
    (fun d => (Connected O, d))
    (fun d => (Ret false, S d))
    (fun _ _ _ d => (Ret tt, d))
    (fun _ _ d => (Ret Scenario.roads_table, d))
    (fun _ _ _ d => (Ret tt, d))
    (fun _ _ d => (Ret tt, d))
    (fun sql d => (Throw (DbError sql), d)).

(** A driver that opens nothing, and one whose dataset has no layer. *)
Definition no_dataset : OGRSFDriverRegistrar := mkRegistrar (fun _ => None).

Definition no_layer : OGRSFDriverRegistrar :=
  mkRegistrar (fun _ => Some (mkDataSource (fun _ => None))).

(** A database that accepts the UPDATE statement and rejects the
    statement after it. *)
Definition update_only_database : Database nat :=
  Scenario.database Scenario.roads_table ["0"].

(** A configuration that answers an unknown layer with a WorkerError. *)
Definition strict_configuration : Configuration :=
  mkConfiguration
    (fun layerName =>
       if String.eqb layerName "roads" then Ret Scenario.roads
       else Throw (WorkerError "unknown layer")).

(** A connection that comes back at the third attempt: the state
    counts the attempts. *)
Definition third_attempt (d : nat) : Res bool * nat :=
  (Ret (2 <=? d)%nat, S d).

End Cases.

(** * Properties *)

(** ** Strings *)

Lemma string_app_cons (ch : ascii) (a b : string) :
  String ch a +:+ b = String ch (a +:+ b).
Proof. reflexivity. Qed.

Lemma string_app_assoc (a b c : string) : (a +:+ b) +:+ c = a +:+ (b +:+ c).
Proof.
  induction a as [|ch a IH]; [reflexivity|].
  rewrite !string_app_cons. now rewrite IH.
Qed.

Lemma string_app_nil_r (s : string) : s +:+ EmptyString = s.
Proof.
  induction s as [|ch s IH]; [reflexivity|].
  rewrite string_app_cons. now rewrite IH.
Qed.

(** Both sides are brought into right-nested form; literal prefixes
    are then equal by computation. *)
Ltac string_norm :=
  repeat rewrite string_app_assoc; repeat rewrite string_app_nil_r.

(** ** The text of the update statement and its abstract syntax *)

Lemma set_clause_print (tmp : string) (cols : list string) (i : nat) :
  set_clause tmp cols i
  = Sql.print_sep ", "
      (List.map Sql.print_assignment
         (List.map (fun c => (c, Sql.ColRef tmp c)) cols)) i.
Proof.
  revert i; induction cols as [|c cols IH]; intros i; simpl; [reflexivity|].
  rewrite IH. unfold Sql.print_assignment, Sql.print_colref; simpl.
  destruct (i =? 0)%nat; string_norm; reflexivity.
Qed.

Lemma key_condition_print (tbl tmp : string) (cols : list string) (i : nat) :
  key_condition tbl tmp cols i
  = Sql.print_sep " and "
      (List.map Sql.print_expr
         (List.map (fun c => Sql.IsNotDistinctFrom (Sql.ColRef tbl c) (Sql.ColRef tmp c))
                   cols)) i.
Proof.
  revert i; induction cols as [|c cols IH]; intros i; simpl; [reflexivity|].
  rewrite IH. unfold Sql.print_colref.
  destruct (i =? 0)%nat; string_norm; reflexivity.
Qed.

Lemma difference_condition_print (tbl tmp : string) (cols : list string) (i : nat) :
  difference_condition tbl tmp cols i
  = Sql.print_sep " or "
      (List.map Sql.print_expr
         (List.map (fun c => Sql.Paren
                               (Sql.IsDistinctFrom (Sql.ColRef tbl c) (Sql.ColRef tmp c)))
                   cols)) i.
Proof.
  revert i; induction cols as [|c cols IH]; intros i; simpl; [reflexivity|].
  rewrite IH. unfold Sql.print_colref.
  destruct (i =? 0)%nat; string_norm; reflexivity.
Qed.

(** The text built by lines 268-296 is the concrete syntax of [update_ast]. *)
Lemma updateStmt_print (layer : Layer.t) (tmp : string) (cols : Columns) :
  updateStmt layer tmp cols = Sql.print (update_ast layer tmp cols).
Proof.
  unfold updateStmt, Sql.print, update_ast; simpl.
  rewrite set_clause_print, key_condition_print, difference_condition_print.
  string_norm. reflexivity.
Qed.

(** ** The columns found by the introspection *)

Lemma classify_field_columns ln ogrFields f acc cols :
  classify_field ln ogrFields f acc = Ret cols ->
  primaryKeyColumns cols
  = primaryKeyColumns acc ++ (if Field.isPrimaryKey f then [Field.name f] else [])
  /\ updateColumns cols
     = updateColumns acc ++ (if Field.isPrimaryKey f then [] else [Field.name f]).
Proof.
  unfold classify_field. intros H.
  destruct (String.eqb (Field.pgTypeName f) "geometry");
    [destruct (negb (empty (geometryColumn acc))); [discriminate|]|];
    simpl in H; inversion H; subst; clear H; simpl;
    destruct (Field.isPrimaryKey f); rewrite ?app_nil_r; auto.
Qed.

Lemma classify_fields_columns ln ogrFields tableFields :
  forall acc cols,
    classify_fields ln ogrFields tableFields acc = Ret cols ->
    primaryKeyColumns cols = primaryKeyColumns acc ++ pk_names tableFields
    /\ updateColumns cols = updateColumns acc ++ nonpk_names tableFields.
Proof.
  induction tableFields as [|[k f] rest IH]; intros acc cols H; simpl in H.
  - inversion H; subst. unfold pk_names, nonpk_names; simpl.
    now rewrite !app_nil_r.
  - destruct (classify_field ln ogrFields f acc) as [acc'| |] eqn:Hf;
      simpl in H; try discriminate.
    apply classify_field_columns in Hf as [Hpk Hup].
    apply IH in H as [Hpk' Hup']. rewrite Hpk', Hup', Hpk, Hup.
    unfold pk_names, nonpk_names; simpl.
    destruct (Field.isPrimaryKey f); simpl; rewrite <- ?app_assoc; simpl;
      rewrite ?app_nil_r; auto.
Qed.

(** The column lists the statements are built from are the target's
    primary-key and non-primary-key columns, in iteration order. *)
Lemma introspect_columns ln ogrFields tableFields cols :
  introspect ln ogrFields tableFields = Ret cols ->
  primaryKeyColumns cols = pk_names tableFields
  /\ updateColumns cols = nonpk_names tableFields.
Proof.
  unfold introspect. intros H.
  destruct (classify_fields ln ogrFields tableFields (mkColumns [] EmptyString [] []))
    as [c| |] eqn:Hc; simpl in H; try discriminate.
  destruct (check_primary_key ln ogrFields c); simpl in H; try discriminate.
  inversion H; subst. apply classify_fields_columns in Hc. exact Hc.
Qed.

Lemma introspect_key_not_empty ln ogrFields tableFields cols :
  introspect ln ogrFields tableFields = Ret cols -> primaryKeyColumns cols <> [].
Proof.
  unfold introspect. intros Hin.
  destruct (classify_fields ln ogrFields tableFields _) as [c0| |];
    simpl in Hin; try discriminate Hin.
  unfold check_primary_key in Hin.
  destruct (primaryKeyColumns c0) eqn:Hc0; [discriminate Hin|].
  destruct (missingPrimaryKeysSource ogrFields (s :: l)); [|discriminate Hin].
  simpl in Hin. inversion Hin; subst. congruence.
Qed.

Lemma names_partition (fields : list Field.t) :
  NoDup (List.map Field.name fields) ->
  NoDup (List.map Field.name (List.filter (fun f => negb (Field.isPrimaryKey f)) fields))
  /\ forall c,
       In c (List.map Field.name (List.filter Field.isPrimaryKey fields)) ->
       ~ In c (List.map Field.name
                 (List.filter (fun f => negb (Field.isPrimaryKey f)) fields)).
Proof.
  induction fields as [|f fields IH]; simpl; intros Hnd.
  - split; [constructor | intros c []].
  - apply NoDup_cons in Hnd as [Hnotin Hnd]. destruct (IH Hnd) as [IH1 IH2].
    assert (Hsub : forall (p : Field.t -> bool) c,
               In c (List.map Field.name (List.filter p fields)) ->
               In c (List.map Field.name fields)).
    { intros p c Hc. apply in_map_iff in Hc as [g [Hg Hin]].
      apply filter_In in Hin as [Hin _]. apply in_map_iff. eauto. }
    rewrite list_elem_of_In in Hnotin.
    destruct (Field.isPrimaryKey f); simpl.
    + split; [exact IH1|]. intros c [Hc|Hc].
      * subst c. intros Hin. apply Hnotin. eapply Hsub; eauto.
      * apply IH2; exact Hc.
    + split.
      * apply NoDup_cons. split; [|exact IH1].
        rewrite list_elem_of_In. intros Hin. apply Hnotin. eapply Hsub; eauto.
      * intros c Hc [Heq|Hin]; [|now apply (IH2 c)].
        subst c. apply Hnotin. eapply Hsub; eauto.
Qed.

(** ** Meaning of the update statement *)

Lemma find_ext {A} (f g : A -> bool) (l : list A) :
  (forall x, f x = g x) -> List.find f l = List.find g l.
Proof.
  intros Hfg. induction l as [|x l IH]; simpl; [reflexivity|].
  now rewrite Hfg, IH.
Qed.

Section UpdateStep.

Variable layer : Layer.t.
Variable tempTableName : string.
Variable cols : Columns.

Let u := update_ast layer tempTableName cols.
Let pk := primaryKeyColumns cols.
Let uc := updateColumns cols.

Hypothesis scratch_name_fresh : tempTableName <> Layer.target_table_name layer.

Lemma value_target (t s : Sql.Row) (c : string) :
  Sql.value u t s (Sql.ColRef (Layer.target_table_name layer) c) = t !! c.
Proof. unfold Sql.value; simpl. now rewrite String.eqb_refl. Qed.

Lemma value_scratch (t s : Sql.Row) (c : string) :
  Sql.value u t s (Sql.ColRef tempTableName c) = s !! c.
Proof.
  unfold Sql.value; simpl.
  now apply String.eqb_neq in scratch_name_fresh as ->.
Qed.

Lemma holds_key (t s : Sql.Row) (l : list string) :
  forallb (Sql.holds u t s)
    (List.map (fun c => Sql.IsNotDistinctFrom
                          (Sql.ColRef (Layer.target_table_name layer) c)
                          (Sql.ColRef tempTableName c)) l)
  = key_match l t s.
Proof.
  induction l as [|c l IH]; simpl; [reflexivity|].
  now rewrite value_target, value_scratch, IH.
Qed.

Lemma holds_difference (t s : Sql.Row) (l : list string) :
  existsb (Sql.holds u t s)
    (List.map (fun c => Sql.Paren
                          (Sql.IsDistinctFrom
                             (Sql.ColRef (Layer.target_table_name layer) c)
                             (Sql.ColRef tempTableName c))) l)
  = row_differs l t s.
Proof.
  induction l as [|c l IH]; simpl; [reflexivity|].
  now rewrite value_target, value_scratch, IH.
Qed.

(** The WHERE clause holds for a pair of rows exactly when they match
    on the key and differ on a non-key column. *)
Lemma holds_where (t s : Sql.Row) :
  Sql.holds u t s (Sql.where_clause u) = key_match pk t s && row_differs uc t s.
Proof.
  simpl. rewrite holds_key, holds_difference. now rewrite andb_true_r.
Qed.

Lemma set_row_copy (t s : Sql.Row) :
  Sql.set_row u t s = copy_columns uc s t.
Proof.
  unfold Sql.set_row, copy_columns; simpl. fold uc.
  induction uc as [|c l IH]; simpl; [reflexivity|].
  now rewrite value_scratch, IH.
Qed.

Lemma join_row_find (S : list Sql.Row) (t : Sql.Row) :
  Sql.join_row u S t
  = List.find (fun s => key_match pk t s && row_differs uc t s) S.
Proof.
  unfold Sql.join_row. apply find_ext. intros s. apply holds_where.
Qed.

Lemma join_row_to_update (S : list Sql.Row) (t : Sql.Row) :
  bool_decide (is_Some (Sql.join_row u S t)) = to_update pk uc S t.
Proof.
  rewrite join_row_find. unfold to_update.
  induction S as [|s S IH]; simpl; [reflexivity|].
  destruct (key_match pk t s && row_differs uc t s); simpl; [reflexivity | exact IH].
Qed.

Lemma affected_count (T S : list Sql.Row) :
  Sql.affected u T S = count_updates pk uc T S.
Proof.
  unfold Sql.affected, count_updates. f_equal.
  induction T as [|t T IH]; simpl; [reflexivity|].
  now rewrite join_row_to_update, IH.
Qed.

Lemma known_tables_key (l : list string) :
  forallb (Sql.known_table u)
    (List.concat
       (List.map Sql.expr_tables
          (List.map (fun c => Sql.IsNotDistinctFrom
                                (Sql.ColRef (Layer.target_table_name layer) c)
                                (Sql.ColRef tempTableName c)) l))) = true.
Proof.
  induction l as [|c l IH]; simpl; [reflexivity|].
  unfold Sql.known_table at 1 2; simpl.
  now rewrite !String.eqb_refl, orb_true_r, IH.
Qed.

Lemma known_tables_difference (l : list string) :
  forallb (Sql.known_table u)
    (List.concat
       (List.map Sql.expr_tables
          (List.map (fun c => Sql.Paren
                                (Sql.IsDistinctFrom
                                   (Sql.ColRef (Layer.target_table_name layer) c)
                                   (Sql.ColRef tempTableName c))) l))) = true.
Proof.
  induction l as [|c l IH]; simpl; [reflexivity|].
  unfold Sql.known_table at 1 2; simpl.
  now rewrite !String.eqb_refl, orb_true_r, IH.
Qed.

Lemma expr_ok_map (f : string -> Sql.expr) (l : list string) :
  (forall c, Sql.expr_ok (f c) = true) ->
  forallb Sql.expr_ok (List.map f l) = true.
Proof.
  intros Hf. induction l as [|c l IH]; simpl; [reflexivity|].
  now rewrite Hf, IH.
Qed.

(** A statement with a non-empty key, a non-empty SET list without
    repetition and a scratch table of its own name is accepted. *)
Lemma update_accepted :
  pk <> [] -> uc <> [] -> NoDup uc -> Sql.accepted u = true.
Proof.
  intros Hpk Huc Hnd. unfold Sql.accepted, Sql.well_formed, Sql.resolves; simpl.
  fold pk uc.
  rewrite !length_map.
  assert (Hlen : forall l : list string, l <> [] -> negb (length l =? 0)%nat = true)
    by (intros [|x l] H; [congruence | reflexivity]).
  rewrite (Hlen _ Hpk), (Hlen _ Huc); simpl.
  rewrite !expr_ok_map by reflexivity; simpl.
  rewrite List.map_map; simpl. rewrite List.map_id.
  rewrite (bool_decide_eq_true_2 _ Hnd); simpl.
  assert (Hne : String.eqb (Layer.target_table_name layer) tempTableName = false)
    by (apply String.eqb_neq; congruence).
  rewrite Hne; simpl.
  rewrite app_nil_r, forallb_app, known_tables_key, known_tables_difference; simpl.
  rewrite andb_true_r.
  clear. induction uc as [|c l IH]; simpl; [reflexivity|].
  unfold Sql.known_table at 1; simpl.
  now rewrite String.eqb_refl, orb_true_r, IH.
Qed.

(** With an empty SET list the statement is not well formed. *)
Lemma update_ill_formed_without_columns :
  uc = [] -> Sql.well_formed u = false.
Proof.
  intros Huc. unfold Sql.well_formed; simpl. fold uc. now rewrite Huc.
Qed.

Lemma update_rejected_without_columns :
  uc = [] -> Sql.accepted u = false.
Proof.
  intros Huc. unfold Sql.accepted. now rewrite update_ill_formed_without_columns.
Qed.

(** Nor is its row-difference condition an expression. *)
Lemma difference_condition_empty :
  uc = [] -> Sql.expr_ok (Sql.where_clause u) = false.
Proof.
  intros Huc. simpl. fold uc. rewrite Huc. simpl. now rewrite !andb_false_r.
Qed.

End UpdateStep.

Lemma lookup_map {A B} (f : A -> B) (l : list A) (i : nat) :
  List.map f l !! i = f <$> (l !! i).
Proof.
  revert i; induction l as [|x l IH]; intros [|i]; simpl; auto.
Qed.

Lemma key_match_spec (pk : list string) (t s : Sql.Row) :
  key_match pk t s = true <-> forall c, In c pk -> t !! c = s !! c.
Proof.
  unfold key_match. rewrite forallb_forall. split; intros H c Hc.
  - eapply bool_decide_eq_true_1. auto.
  - apply bool_decide_eq_true_2. auto.
Qed.

Lemma row_differs_spec (uc : list string) (t s : Sql.Row) :
  row_differs uc t s = true <-> exists c, In c uc /\ t !! c <> s !! c.
Proof.
  unfold row_differs. rewrite existsb_exists. split; intros [c [Hc H]]; exists c; split; auto.
  - apply negb_true_iff in H. eapply bool_decide_eq_false_1. exact H.
  - apply negb_true_iff. apply bool_decide_eq_false_2. exact H.
Qed.

Lemma to_update_spec (pk uc : list string) (S : list Sql.Row) (t : Sql.Row) :
  to_update pk uc S t = true
  <-> exists s, In s S /\ key_match pk t s = true /\ row_differs uc t s = true.
Proof.
  unfold to_update. rewrite existsb_exists.
  split; intros [s [Hs H]]; exists s; split; auto.
  - now apply andb_true_iff in H.
  - now apply andb_true_iff.
Qed.

(** Copying touches the copied columns only. *)
Lemma copy_columns_lookup (uc : list string) (s t : Sql.Row) (c : string) :
  (In c uc -> copy_columns uc s t !! c = s !! c)
  /\ (~ In c uc -> copy_columns uc s t !! c = t !! c).
Proof.
  unfold copy_columns. induction uc as [|x l [IH1 IH2]]; simpl.
  - split; [intros [] | reflexivity].
  - unfold Sql.assign. destruct (decide (x = c)) as [->|Hne].
    + split; [intros _ | tauto].
      destruct (s !! c) eqn:Hs; [now rewrite lookup_insert_eq | now rewrite lookup_delete_eq].
    + split.
      * intros [Heq|Hin]; [congruence|].
        destruct (s !! x); [rewrite lookup_insert_ne by exact Hne
                           | rewrite lookup_delete_ne by exact Hne]; auto.
      * intros Hnot.
        destruct (s !! x); [rewrite lookup_insert_ne by exact Hne
                           | rewrite lookup_delete_ne by exact Hne]; apply IH2; tauto.
Qed.

Section UpdateStepMeaning.

Variable layer : Layer.t.
Variable tempTableName : string.
Variable cols : Columns.

Let u := update_ast layer tempTableName cols.
Let pk := primaryKeyColumns cols.
Let uc := updateColumns cols.

Hypothesis scratch_name_fresh : tempTableName <> Layer.target_table_name layer.
Hypothesis key_not_empty : pk <> [].
Hypothesis columns_not_empty : uc <> [].
Hypothesis columns_distinct : NoDup uc.

(** Executing the statement the worker emits gives the table the
    specification describes, and reports the number of rows it
    describes as updated. *)
Lemma execute_update (T S : list Sql.Row) :
  Sql.execute u T S
  = Ret (List.map
           (fun t =>
              match List.find (fun s => key_match pk t s && row_differs uc t s) S with
              | Some s => copy_columns uc s t
              | None => t
              end) T,
         mkPGresult (to_string_int (Z.of_nat (count_updates pk uc T S)))).
Proof.
  unfold Sql.execute, u.
  rewrite (update_accepted layer tempTableName cols scratch_name_fresh
             key_not_empty columns_not_empty columns_distinct).
  rewrite (affected_count layer tempTableName cols scratch_name_fresh).
  f_equal. f_equal. apply map_ext. intros t. unfold Sql.update_row.
  rewrite (join_row_find layer tempTableName cols scratch_name_fresh).
  fold pk uc.
  destruct (List.find (fun s => key_match pk t s && row_differs uc t s) S); [|reflexivity].
  apply (set_row_copy layer tempTableName cols scratch_name_fresh).
Qed.

Lemma execute_update_row (T S T' : list Sql.Row) (res : PGresult) (i : nat) (t : Sql.Row) :
  Sql.execute u T S = Ret (T', res) ->
  T !! i = Some t ->
  if to_update pk uc S t
  then exists s, In s S /\ key_match pk t s = true /\ row_differs uc t s = true
                 /\ T' !! i = Some (copy_columns uc s t)
  else T' !! i = Some t.
Proof.
  rewrite execute_update. intros H Ht. inversion H; subst T' res; clear H.
  rewrite lookup_map, Ht; simpl.
  destruct (to_update pk uc S t) eqn:Hu.
  - destruct (List.find (fun s => key_match pk t s && row_differs uc t s) S)
      as [s|] eqn:Hf.
    + apply find_some in Hf as [Hin Hs]. apply andb_true_iff in Hs as [Hk Hd].
      exists s. auto.
    + apply to_update_spec in Hu as [s [Hin [Hk Hd]]].
      apply (find_none _ _ Hf) in Hin. rewrite Hk, Hd in Hin. discriminate.
  - destruct (List.find (fun s => key_match pk t s && row_differs uc t s) S)
      as [s|] eqn:Hf; [|reflexivity].
    apply find_some in Hf as [Hin Hs]. apply andb_true_iff in Hs as [Hk Hd].
    assert (to_update pk uc S t = true) by (apply to_update_spec; eauto).
    congruence.
Qed.

End UpdateStepMeaning.

(** ** Decimal renderings read back *)

Lemma atoi_digits_uint (d : Decimal.uint) :
  forall acc, atoi_digits acc (NilEmpty.string_of_uint d) = uint_value acc d.
Proof.
  induction d; intros acc; simpl; try reflexivity; apply IHd.
Qed.

Lemma of_uint_acc_value (d : Decimal.uint) :
  forall acc, Z.pos (Pos.of_uint_acc d acc) = uint_value (Z.pos acc) d.
Proof.
  induction d; intros acc; simpl; try reflexivity; rewrite IHd; f_equal; lia.
Qed.

Lemma of_uint_value (d : Decimal.uint) : Z.of_uint d = uint_value 0 d.
Proof.
  unfold Z.of_uint.
  induction d; simpl; try reflexivity; try exact IHd;
    rewrite of_uint_acc_value; reflexivity.
Qed.

Lemma atoi_uint (d : Decimal.uint) :
  atoi (NilEmpty.string_of_uint d) = Z.of_uint d.
Proof.
  rewrite of_uint_value, <- atoi_digits_uint. destruct d; reflexivity.
Qed.

(** [atoi] reads back what [to_string] printed, for the counts a
    command status can carry. *)
Lemma atoi_to_string_int (z : Z) : 0 <= z -> atoi (to_string_int z) = z.
Proof.
  intros Hz. unfold to_string_int.
  rewrite <- (DecimalZ.of_to z) at 2.
  destruct z as [|p|p]; try lia.
  - exact (atoi_uint (Decimal.D0 Decimal.Nil)).
  - exact (atoi_uint (Pos.to_uint p)).
Qed.

(** ** The worker monad *)

Section Monad.

Context {D : Type}.

Lemma bind_Ret {A B} (m : M D A) (k : A -> M D B) w a w1 :
  m w = (Ret a, w1) -> bind m k w = k a w1.
Proof. intros H. unfold bind. now rewrite H. Qed.

Lemma bind_Throw {A B} (m : M D A) (k : A -> M D B) w e w1 :
  m w = (Throw e, w1) -> bind m k w = (Throw e, w1).
Proof. intros H. unfold bind. now rewrite H. Qed.

Lemma bind_Blocked {A B} (m : M D A) (k : A -> M D B) w w1 :
  m w = (Blocked, w1) -> bind m k w = (Blocked, w1).
Proof. intros H. unfold bind. now rewrite H. Qed.

(** *** Frames: what a computation may do to the job and the trace *)

Section Frame.

Variable R : Job.t -> Job.t -> Prop.
Variable P : Event -> Prop.
Hypothesis R_refl : forall j, R j j.
Hypothesis R_trans : forall j1 j2 j3, R j1 j2 -> R j2 j3 -> R j1 j3.

Local Abbreviation frame_at := (@frame_at D _ R P).
Local Abbreviation frame := (@frame D _ R P).

Lemma frame_ret {A} (a : A) : frame (ret a).
Proof.
  intros w r w' H. inversion H; subst. split; [apply R_refl|].
  exists []. now rewrite app_nil_r.
Qed.

Lemma frame_throw {A} (e : exn) : frame (@throw D A e).
Proof.
  intros w r w' H. inversion H; subst. split; [apply R_refl|].
  exists []. now rewrite app_nil_r.
Qed.

Lemma frame_lift {A} (x : Res A) : frame (@lift D A x).
Proof.
  intros w r w' H. inversion H; subst. split; [apply R_refl|].
  exists []. now rewrite app_nil_r.
Qed.

Lemma frame_getJob : frame (@getJob D).
Proof.
  intros w r w' H. inversion H; subst. split; [apply R_refl|].
  exists []. now rewrite app_nil_r.
Qed.

Lemma frame_emit (ev : Event) : P ev -> frame (@emit D ev).
Proof.
  intros Hev w r w' H. inversion H; subst; simpl. split; [apply R_refl|].
  exists [ev]. split; [reflexivity | now constructor].
Qed.

Lemma frame_dbCall {A} (c : DbCall) (op : D -> Res A * D) :
  P (EvDb c) -> frame (dbCall c op).
Proof.
  intros Hev w r w' H. unfold dbCall in H.
  destruct (op (w_db w)) as [r0 d]. inversion H; subst; simpl.
  split; [apply R_refl|].
  exists [EvDb c]. split; [reflexivity | now constructor].
Qed.

Lemma frame_modifyJob (f : Job.t -> Job.t) :
  (forall j, R j (f j)) -> (forall j, P (EvJob j)) -> frame (@modifyJob D f).
Proof.
  intros Hf Hev w r w' H. inversion H; subst; simpl. split; [apply Hf|].
  exists [EvJob (f (w_job w))]. split; [reflexivity | now constructor].
Qed.

Lemma frame_at_bind {A B} (m : M D A) (k : A -> M D B) (w : World D) :
  frame_at m w ->
  (forall a w1, m w = (Ret a, w1) -> frame_at (k a) w1) ->
  frame_at (bind m k) w.
Proof.
  intros Hm Hk r w' H. unfold bind in H.
  destruct (m w) as [[a|e|] w1] eqn:Hmw.
  - destruct (Hm _ _ Hmw) as [HR [evs [Htr Hevs]]].
    destruct (Hk a w1 eq_refl _ _ H) as [HR' [evs' [Htr' Hevs']]].
    split; [eapply R_trans; eauto|].
    exists (evs ++ evs'). rewrite Htr', Htr, app_assoc. split; [reflexivity|].
    apply Forall_app; auto.
  - inversion H; subst. exact (Hm _ _ Hmw).
  - inversion H; subst. exact (Hm _ _ Hmw).
Qed.

Lemma frame_bind {A B} (m : M D A) (k : A -> M D B) :
  frame m -> (forall a, frame (k a)) -> frame (bind m k).
Proof.
  intros Hm Hk w. apply frame_at_bind; [apply Hm | intros a w1 _; apply Hk].
Qed.

Lemma frame_emit_all (evs : list Event) :
  Forall P evs -> frame (@emit_all D evs).
Proof.
  induction evs as [|ev evs IH]; intros H; simpl.
  - apply frame_ret.
  - inversion H; subst. apply frame_bind; [now apply frame_emit | intros _; auto].
Qed.

End Frame.

End Monad.

(** ** The reconciliation and the end of the job *)

Section Reconcile.

Context {D : Type}.
Variable db : Database D.
Variable layer : Layer.t.
Variable tempTableName : string.
Variable cols : Columns.
Variable numPulled : Z.

(** When the three statements succeed, the job record goes through
    exactly three states: the pulled count alone, then FINISHED with
    the pulled count alone, then FINISHED with the final statistics. *)
Lemma reconcile_finishes (w : World D) r1 d1 r2 d2 r3 d3 :
  exec db (updateStmt layer tempTableName cols) (w_db w) = (Ret r1, d1) ->
  exec db (insertMissingStmt layer tempTableName cols) d1 = (Ret r2, d2) ->
  exec db (deleteRemovedStmt layer tempTableName cols) d2 = (Ret r3, d3) ->
  reconcile db layer tempTableName cols numPulled w
  = (Ret tt,
     mkWorld
       (Job.setStatistics numPulled (atoi (PQcmdTuples r2)) (atoi (PQcmdTuples r1))
          (atoi (PQcmdTuples r3))
          (Job.setStatus Job.FINISHED (Job.setStatistics numPulled 0 0 0 (w_job w))))
       d3
       (w_trace w
        ++ [EvJob (Job.setStatistics numPulled 0 0 0 (w_job w));
            EvDb (DbExec (updateStmt layer tempTableName cols));
            EvDb (DbExec (insertMissingStmt layer tempTableName cols));
            EvDb (DbExec (deleteRemovedStmt layer tempTableName cols));
            EvJob (Job.setStatus Job.FINISHED
                     (Job.setStatistics numPulled 0 0 0 (w_job w)));
            EvJob (Job.setStatistics numPulled (atoi (PQcmdTuples r2))
                     (atoi (PQcmdTuples r1)) (atoi (PQcmdTuples r3))
                     (Job.setStatus Job.FINISHED
                        (Job.setStatistics numPulled 0 0 0 (w_job w))))])).
Proof.
  intros H1 H2 H3.
  unfold reconcile, bind, setStatistics, setStatus, modifyJob, dbCall; simpl.
  rewrite H1; simpl. rewrite H2; simpl. rewrite H3; simpl.
  rewrite <- !app_assoc. reflexivity.
Qed.

(** The update statement is executed whatever the columns are, and when
    it is rejected the job stops there with its status untouched. *)
Lemma reconcile_update_rejected (w : World D) e d1 :
  exec db (updateStmt layer tempTableName cols) (w_db w) = (Throw e, d1) ->
  reconcile db layer tempTableName cols numPulled w
  = (Throw e,
     mkWorld (Job.setStatistics numPulled 0 0 0 (w_job w)) d1
       (w_trace w
        ++ [EvJob (Job.setStatistics numPulled 0 0 0 (w_job w));
            EvDb (DbExec (updateStmt layer tempTableName cols))])).
Proof.
  intros H1.
  unfold reconcile, bind, setStatistics, setStatus, modifyJob, dbCall; simpl.
  rewrite H1; simpl. rewrite <- !app_assoc. reflexivity.
Qed.

Lemma reconcile_executes_update (w : World D) :
  exists evs,
    w_trace (snd (reconcile db layer tempTableName cols numPulled w))
    = w_trace w
      ++ EvJob (Job.setStatistics numPulled 0 0 0 (w_job w))
      :: EvDb (DbExec (updateStmt layer tempTableName cols)) :: evs.
Proof.
  unfold reconcile, bind, setStatistics, setStatus, modifyJob, dbCall; simpl.
  destruct (exec db (updateStmt layer tempTableName cols) (w_db w)) as [[r1| |] d1];
    simpl; try (eexists; rewrite <- !app_assoc; reflexivity).
  destruct (exec db (insertMissingStmt layer tempTableName cols) d1) as [[r2| |] d2];
    simpl; try (eexists; rewrite <- !app_assoc; reflexivity).
  destruct (exec db (deleteRemovedStmt layer tempTableName cols) d2) as [[r3| |] d3];
    simpl; eexists; rewrite <- !app_assoc; reflexivity.
Qed.

(** How a reconciliation can end: it finishes the job, which takes an
    accepted update statement, or it stops with the status and the
    message of the job untouched. *)
Lemma reconcile_cases (w : World D) r w' :
  reconcile db layer tempTableName cols numPulled w = (r, w') ->
  (r = Ret tt
   /\ Job.getStatus (w_job w') = Job.FINISHED
   /\ exists r1 d1, exec db (updateStmt layer tempTableName cols) (w_db w) = (Ret r1, d1))
  \/ ((forall a, r <> Ret a)
      /\ Job.getStatus (w_job w') = Job.getStatus (w_job w)
      /\ Job.getMessage (w_job w') = Job.getMessage (w_job w)).
Proof.
  unfold reconcile, bind, setStatistics, setStatus, modifyJob, dbCall; simpl.
  destruct (exec db (updateStmt layer tempTableName cols) (w_db w)) as [[r1| |] d1];
    simpl; try (intros H; inversion H; subst; simpl; right; repeat split; congruence).
  destruct (exec db (insertMissingStmt layer tempTableName cols) d1) as [[r2| |] d2];
    simpl; try (intros H; inversion H; subst; simpl; right; repeat split; congruence).
  destruct (exec db (deleteRemovedStmt layer tempTableName cols) d2) as [[r3| |] d3];
    simpl; try (intros H; inversion H; subst; simpl; right; repeat split; congruence).
  intros H; inversion H; subst; simpl. left. repeat split; eauto.
Qed.

End Reconcile.

(** ** The update step (lines 268-298) *)

Lemma set_row_other (u : Sql.update) (t s : Sql.Row) (c : string) :
  ~ In c (List.map fst (Sql.assignments u)) -> Sql.set_row u t s !! c = t !! c.
Proof.
  unfold Sql.set_row. induction (Sql.assignments u) as [|[x r] l IH]; simpl; intros H.
  - reflexivity.
  - assert (Hne : x <> c) by tauto.
    unfold Sql.assign.
    destruct (Sql.value u t s r);
      [rewrite lookup_insert_ne by exact Hne | rewrite lookup_delete_ne by exact Hne];
      apply IH; tauto.
Qed.

Lemma rows_after_lookup (u : Sql.update) (T S : list Sql.Row) (i : nat) (t t' : Sql.Row) :
  T !! i = Some t ->
  Sql.rows_after (Sql.execute u T S) T !! i = Some t' ->
  t' = t \/ exists s, t' = Sql.set_row u t s.
Proof.
  intros Ht. unfold Sql.execute. destruct (Sql.accepted u); simpl.
  - rewrite lookup_map, Ht; simpl. intros H; inversion H; subst.
    unfold Sql.update_row. destruct (Sql.join_row u S t); eauto.
  - rewrite Ht. intros H; inversion H; auto.
Qed.

Lemma assigned_columns (layer : Layer.t) (tmp : string) (cols : Columns) :
  List.map fst (Sql.assignments (update_ast layer tmp cols)) = updateColumns cols.
Proof.
  simpl. rewrite List.map_map; simpl. apply List.map_id.
Qed.

Lemma count_updates_single (pk uc : list string) (t s : Sql.Row) :
  count_updates pk uc [t] [s]
  = if key_match pk t s && row_differs uc t s then 1%nat else 0%nat.
Proof.
  unfold count_updates, to_update; simpl. rewrite orb_false_r.
  destruct (key_match pk t s && row_differs uc t s); reflexivity.
Qed.



(** ** Frames of the phases of [Worker::pull] *)

Lemma same_request_refl (j : Job.t) : same_request j j.
Proof. unfold same_request; auto. Qed.

Lemma same_request_trans (j1 j2 j3 : Job.t) :
  same_request j1 j2 -> same_request j2 j3 -> same_request j1 j3.
Proof. unfold same_request; intros [? [? ?]] [? [? ?]]; repeat split; congruence. Qed.

Lemma frame_weaken {D A} (R R' : Job.t -> Job.t -> Prop) (P P' : Event -> Prop)
    (m : M D A) :
  (forall j j', R j j' -> R' j j') -> (forall ev, P ev -> P' ev) ->
  frame R P m -> frame R' P' m.
Proof.
  intros HR HP Hm w r w' H. destruct (Hm w r w' H) as [Hj [evs [Htr Hevs]]].
  split; [auto|]. exists evs. split; [exact Htr|].
  eapply Forall_impl; eauto.
Qed.

Ltac frame_side :=
  unfold no_filter_event, opening_event, same_status,
         same_request; simpl;
  first [ solve [auto]
        | solve [intros; congruence]
        | solve [intros; discriminate]
        | solve [intros; repeat split; reflexivity]
        | solve [intros; repeat split; congruence] ].

Ltac frame_tac :=
  repeat first
    [ apply frame_ret; frame_side
    | apply frame_throw; frame_side
    | apply frame_lift; frame_side
    | apply frame_getJob; frame_side
    | apply frame_emit; [frame_side | frame_side]
    | apply frame_dbCall; [frame_side | frame_side]
    | apply frame_modifyJob; [frame_side | frame_side]
    | apply frame_bind; [frame_side | | intros ? ] ].

Section PhaseFrames.

Context {D : Type}.
Variable GDAL_VERSION_MAJOR : Z.
Variable configuration : Configuration.
Variable ogr : OGRSFDriverRegistrar.
Variable db : Database D.

Lemma stream_features_frame insertStmtName tableFields ogrFields insertColumns features :
  forall numPulled,
    frame eq no_filter_event
      (stream_features db insertStmtName tableFields ogrFields insertColumns
         features numPulled).
Proof.
  induction features as [|f rest IH]; intros numPulled; simpl.
  - frame_tac.
  - frame_tac. apply IH.
Qed.

Lemma reconcile_frame layer tempTableName cols numPulled :
  frame same_request no_filter_event
    (reconcile db layer tempTableName cols numPulled).
Proof.
  unfold reconcile, setStatistics, setStatus.
  pose proof same_request_refl. pose proof same_request_trans.
  frame_tac.
Qed.

Lemma pull_transaction_frame job layer ogrLayer ogrFields :
  frame same_request no_filter_event
    (pull_transaction db job layer ogrLayer ogrFields).
Proof.
  unfold pull_transaction.
  pose proof same_request_refl. pose proof same_request_trans.
  frame_tac.
  eapply frame_weaken; [| |apply stream_features_frame]; [intros; subst|]; auto.
Qed.

End PhaseFrames.

(** ** How a pull can end *)

Section PullFacts.

Context {D : Type}.
Variable GDAL_VERSION_MAJOR : Z.
Variable configuration : Configuration.
Variable ogr : OGRSFDriverRegistrar.
Variable db : Database D.

Local Abbreviation the_open_source :=
  (@open_source D GDAL_VERSION_MAJOR configuration ogr).
Local Abbreviation the_pull := (pull GDAL_VERSION_MAJOR configuration ogr db).

(** Opening the source touches neither the job record nor the
    database, and reads no feature. *)
Lemma open_source_frame (job : Job.t) : frame eq opening_event (the_open_source job).
Proof.
  unfold open_source, apply_filter, check_geometry_count.
  frame_tac.
  destruct (Open ogr (Layer.source a)) as [ds|]; frame_tac.
  destruct (GetLayerByName ds (Layer.source_layer a)) as [ogrLayer|]; frame_tac.
  - destruct (empty (Job.getFilter job)); frame_tac.
    destruct (SetAttributeFilter ogrLayer (Job.getFilter job)); frame_tac.
  - destruct ((1 <? GDAL_VERSION_MAJOR)
              && negb (GetGeomFieldCount (GetLayerDefn ogrLayer) =? 1)); frame_tac.
Qed.

(** Without a filter on the job, no filter is applied. *)
Lemma open_source_quiet (job : Job.t) :
  Job.getFilter job = EmptyString -> frame eq no_filter_event (the_open_source job).
Proof.
  intros Hf.
  unfold open_source, apply_filter, check_geometry_count. rewrite Hf; simpl.
  frame_tac.
  destruct (Open ogr (Layer.source a)) as [ds|]; frame_tac.
  destruct (GetLayerByName ds (Layer.source_layer a)) as [ogrLayer|]; frame_tac.
  destruct ((1 <? GDAL_VERSION_MAJOR)
            && negb (GetGeomFieldCount (GetLayerDefn ogrLayer) =? 1)); frame_tac.
Qed.

Lemma open_source_layer (job : Job.t) (w : World D) layer ogrLayer w' :
  the_open_source job w = (Ret (layer, ogrLayer), w') ->
  getLayer configuration (Job.getLayerName job) = Ret layer.
Proof.
  unfold open_source, bind, lift; simpl.
  destruct (getLayer configuration (Job.getLayerName job)) as [l| |];
    try (intros H; discriminate H).
  unfold emit, throw; simpl.
  destruct (Open ogr (Layer.source l)) as [ds|]; try (intros H; discriminate H).
  destruct (GetLayerByName ds (Layer.source_layer l)) as [ol|];
    try (intros H; discriminate H).
  destruct (apply_filter l ol (Job.getFilter job) _) as [[?| |] ?];
    try (intros H; discriminate H).
  destruct (check_geometry_count GDAL_VERSION_MAJOR (GetLayerDefn ol) _) as [[?| |] ?];
    try (intros H; discriminate H).
  unfold ret. intros H; inversion H; reflexivity.
Qed.

(** The work inside the transaction ends in one of two ways: the job
    is FINISHED, which takes an update statement the database has
    accepted, for columns found by the introspection of what the
    database reported; or the work stops with the status and the
    message of the job untouched. *)
Lemma pull_transaction_cases job layer ogrLayer ogrFields (w : World D) r w' :
  pull_transaction db job layer ogrLayer ogrFields w = (r, w') ->
  (r = Ret tt
   /\ Job.getStatus (w_job w') = Job.FINISHED
   /\ exists tableFields cols d0 d0' d r1 d1,
        getTableFields db (Layer.target_table_schema layer)
          (Layer.target_table_name layer) d0 = (Ret tableFields, d0')
        /\ introspect (Job.getLayerName job) ogrFields tableFields = Ret cols
        /\ exec db (updateStmt layer ("batyr_" +:+ Job.getId job) cols) d = (Ret r1, d1))
  \/ ((forall a, r <> Ret a)
      /\ Job.getStatus (w_job w') = Job.getStatus (w_job w)
      /\ Job.getMessage (w_job w') = Job.getMessage (w_job w)).
Proof.
  unfold pull_transaction, bind at 1 2 3 4, dbCall, lift; simpl.
  destruct (createTempTable db _ _ _ (w_db w)) as [[[]| |] d1]; simpl;
    try (intros H; inversion H; subst; simpl; right; repeat split; congruence).
  destruct (getTableFields db _ _ d1) as [[tableFields| |] d2] eqn:Htf; simpl;
    try (intros H; inversion H; subst; simpl; right; repeat split; congruence).
  destruct (introspect (Job.getLayerName job) ogrFields tableFields)
    as [cols| |] eqn:Hin; simpl;
    try (intros H; inversion H; subst; simpl; right; repeat split; congruence).
  destruct (prepare db _ _ _ d2) as [[[]| |] d3]; simpl;
    try (intros H; inversion H; subst; simpl; right; repeat split; congruence).
  unfold bind.
  match goal with
  | |- context [stream_features ?a ?b ?c ?d ?e ?f ?g ?w0] =>
      destruct (stream_features a b c d e f g w0) as [[n| |] w4] eqn:Hs;
      destruct (stream_features_frame a b c d e f g w0 _ _ Hs) as [Hj _];
      simpl in Hj
  end;
    try (intros H; inversion H; subst; simpl; right; repeat split; congruence).
  intros H. apply reconcile_cases in H as [[Hr [Hst [r1 [d1' He]]]]|[Hr [Hst Hm]]].
  - left. repeat split; auto. exists tableFields, cols. eauto 10.
  - right. rewrite Hst, Hm, <- Hj. auto.
Qed.

(** How [Worker::pull] can end. *)
Lemma pull_cases (job : Job.t) (w : World D) r w' :
  the_pull job w = (r, w') ->
  (r = Ret tt
   /\ Job.getStatus (w_job w') = Job.FINISHED
   /\ exists layer ogrFields tableFields cols d0 d0' d r1 d1,
        getLayer configuration (Job.getLayerName job) = Ret layer
        /\ getTableFields db (Layer.target_table_schema layer)
             (Layer.target_table_name layer) d0 = (Ret tableFields, d0')
        /\ introspect (Job.getLayerName job) ogrFields tableFields = Ret cols
        /\ exec db (updateStmt layer ("batyr_" +:+ Job.getId job) cols) d = (Ret r1, d1))
  \/ (r = Ret tt
      /\ Job.getStatus (w_job w') = Job.FAILED
      /\ Job.getMessage (w_job w') = "Could not start a database transaction")
  \/ ((forall a, r <> Ret a)
      /\ Job.getStatus (w_job w') = Job.getStatus (w_job w)
      /\ Job.getMessage (w_job w') = Job.getMessage (w_job w)).
Proof.
  unfold pull, bind at 1.
  destruct (the_open_source job w) as [[[layer ogrLayer]| |] w1] eqn:Hos;
    destruct (open_source_frame job w _ _ Hos) as [Hj _];
    try (intros H; inversion H; subst; right; right; repeat split; congruence).
  apply open_source_layer in Hos.
  unfold bind at 1, dbCall.
  destruct (getTransaction db (w_db w1)) as [[[|]| |] d2]; simpl;
    try (intros H; inversion H; subst; simpl; right; right;
         repeat split; congruence).
  - intros H. apply pull_transaction_cases in H; simpl in H.
    destruct H as [[Hr [Hst [tf [cols [d0 [d0' [d [r1 [d1 [H1 [H2 H3]]]]]]]]]]]
                  |[Hr [Hst Hm]]].
    + left. repeat split; auto. exists layer. eauto 12.
    + right; right. rewrite Hst, Hm, <- Hj. auto.
  - unfold bind, setStatus, setMessage, modifyJob; simpl.
    intros H; inversion H; subst; simpl. right; left. auto.
Qed.

(** Without a filter on the job, the whole pull applies none. *)
Lemma pull_quiet (job : Job.t) :
  Job.getFilter job = EmptyString -> frame same_request no_filter_event (the_pull job).
Proof.
  intros Hf. unfold pull.
  pose proof same_request_refl. pose proof same_request_trans.
  apply frame_bind; [frame_side | | intros [layer ogrLayer]].
  - eapply frame_weaken; [| |apply (open_source_quiet job Hf)];
      [intros; subst|]; auto.
  - apply frame_bind; [frame_side | frame_tac | intros [|]].
    + apply pull_transaction_frame.
    + unfold setStatus, setMessage. frame_tac.
Qed.

End PullFacts.

(** ** The worker loop *)

Lemma same_status_refl (j : Job.t) : same_status j j.
Proof. unfold same_status, same_request; auto. Qed.

Lemma same_status_trans (j1 j2 j3 : Job.t) :
  same_status j1 j2 -> same_status j2 j3 -> same_status j1 j3.
Proof.
  unfold same_status, same_request.
  intros [[? [? ?]] ?] [[? [? ?]] ?]; repeat split; congruence.
Qed.

Section LoopFacts.

Context {D : Type}.
Variable GDAL_VERSION_MAJOR : Z.
Variable configuration : Configuration.
Variable ogr : OGRSFDriverRegistrar.
Variable db : Database D.

Local Abbreviation the_pull := (pull GDAL_VERSION_MAJOR configuration ogr db).
Local Abbreviation the_process_job :=
  (process_job GDAL_VERSION_MAJOR configuration ogr db).
Local Abbreviation the_run_job := (run_job GDAL_VERSION_MAJOR configuration ogr db).

Lemma reconnect_loop_frame : frame same_status no_filter_event (reconnect_loop db).
Proof.
  unfold reconnect_loop, setMessage.
  pose proof same_status_refl. pose proof same_status_trans.
  frame_tac.
  destruct a as [[|n]|[|n] e|]; frame_tac;
    apply frame_emit_all; auto; apply Forall_replicate; frame_side.
Qed.

(** The body of the [try] block either reaches [pull], with the job
    IN_PROCESS and its message cleared, or stops while waiting for the
    database, with the job IN_PROCESS. *)
Lemma process_job_cases (w : World D) r w1 :
  the_process_job w = (r, w1) ->
  (exists w0,
      same_request (w_job w) (w_job w0)
      /\ Job.getStatus (w_job w0) = Job.IN_PROCESS
      /\ Job.getMessage (w_job w0) = EmptyString
      /\ (exists evs, w_trace w0 = w_trace w ++ evs /\ Forall no_filter_event evs)
      /\ the_pull (w_job w0) w0 = (r, w1))
  \/ ((forall a, r <> Ret a)
      /\ same_request (w_job w) (w_job w1)
      /\ Job.getStatus (w_job w1) = Job.IN_PROCESS
      /\ exists evs, w_trace w1 = w_trace w ++ evs /\ Forall no_filter_event evs).
Proof.
  unfold process_job, bind at 1, setStatus at 1, modifyJob; simpl.
  unfold bind at 1.
  match goal with
  | |- context [reconnect_loop db ?w0] =>
      destruct (reconnect_loop db w0) as [[[]| |] w2] eqn:Hr;
      destruct (reconnect_loop_frame w0 _ _ Hr) as [[Hreq Hst] [evs [Htr Hevs]]];
      simpl in Hreq, Hst, Htr
  end.
  - unfold bind at 1, setMessage, modifyJob; simpl. unfold bind, getJob; simpl.
    intros H. left.
    exists (mkWorld (Job.setMessage EmptyString (w_job w2)) (w_db w2)
              (w_trace w2 ++ [EvJob (Job.setMessage EmptyString (w_job w2))])).
    simpl. split; [exact Hreq|]. split; [exact Hst|]. split; [reflexivity|].
    split; [|exact H].
    exists ((EvJob (Job.setStatus Job.IN_PROCESS (w_job w)) :: evs)
            ++ [EvJob (Job.setMessage EmptyString (w_job w2))]).
    rewrite Htr, <- !app_assoc. split; [reflexivity|].
    apply Forall_app. split; [constructor; [frame_side | exact Hevs]|].
    constructor; [frame_side | constructor].
  - intros H; inversion H; subst. right.
    split; [congruence|]. split; [exact Hreq|]. split; [exact Hst|].
    exists (EvJob (Job.setStatus Job.IN_PROCESS (w_job w)) :: evs).
    rewrite Htr, <- app_assoc. split; [reflexivity|].
    constructor; [frame_side | exact Hevs].
  - intros H; inversion H; subst. right.
    split; [congruence|]. split; [exact Hreq|]. split; [exact Hst|].
    exists (EvJob (Job.setStatus Job.IN_PROCESS (w_job w)) :: evs).
    rewrite Htr, <- app_assoc. split; [reflexivity|].
    constructor; [frame_side | exact Hevs].
Qed.

(** When the body of the [try] block does not return, the job is
    still IN_PROCESS. *)
Lemma process_job_stopped (w : World D) r w1 :
  the_process_job w = (r, w1) ->
  (forall a, r <> Ret a) ->
  Job.getStatus (w_job w1) = Job.IN_PROCESS.
Proof.
  intros H Hr. apply process_job_cases in H as [[w0 [_ [Hst [_ [_ Hp]]]]]|[_ [_ [Hst _]]]];
    [|exact Hst].
  apply pull_cases in Hp as [[Hret _]|[[Hret _]|[_ [Hs _]]]];
    [destruct (Hr tt Hret) | destruct (Hr tt Hret) | congruence].
Qed.

(** A job without a filter never has one applied. *)
Lemma run_job_quiet (w : World D) r w' :
  Job.getFilter (w_job w) = EmptyString ->
  the_run_job w = (r, w') ->
  exists evs, w_trace w' = w_trace w ++ evs /\ Forall no_filter_event evs.
Proof.
  intros Hf. unfold run_job.
  destruct (the_process_job w) as [r1 w1] eqn:Hp.
  assert (Hw1 : exists evs, w_trace w1 = w_trace w ++ evs /\ Forall no_filter_event evs).
  { apply process_job_cases in Hp
      as [[w0 [[_ [_ Hreq]] [_ [_ [[evs [Htr Hevs]] Hp]]]]]|[_ [_ [_ Hevs]]]];
      [|exact Hevs].
    assert (Hf0 : Job.getFilter (w_job w0) = EmptyString) by congruence.
    destruct (pull_quiet GDAL_VERSION_MAJOR configuration ogr db _ Hf0 _ _ _ Hp)
      as [_ [evs' [Htr' Hevs']]].
    exists (evs ++ evs'). rewrite Htr', Htr, app_assoc. split; [reflexivity|].
    apply Forall_app; auto. }
  destruct Hw1 as [evs [Htr Hevs]].
  assert (Hhandler : forall what (k : M D unit) r w',
             (setStatus Job.FAILED ;;; setMessage what ;;; k) w1 = (r, w') ->
             frame same_request no_filter_event k ->
             exists evs, w_trace w' = w_trace w ++ evs /\ Forall no_filter_event evs).
  { intros what k r0 w0 H Hk.
    assert (Hfr : frame same_request no_filter_event
                    (setStatus Job.FAILED ;;; setMessage what ;;; k)).
    { pose proof same_request_refl. pose proof same_request_trans.
      unfold setStatus, setMessage. frame_tac. exact Hk. }
    destruct (Hfr _ _ _ H) as [_ [evs' [Htr' Hevs']]].
    exists (evs ++ evs'). rewrite Htr', Htr, app_assoc. split; [reflexivity|].
    apply Forall_app; auto. }
  destruct r1 as [[]|[what|what|what|]|].
  - intros H; inversion H; subst. eauto.
  - intros H. apply (Hhandler what (ret tt) r w').
    + rewrite <- H. unfold bind, setStatus, setMessage, modifyJob, ret; simpl.
      reflexivity.
    + apply frame_ret. apply same_request_refl.
  - intros H. apply (Hhandler what (ret tt) r w').
    + rewrite <- H. unfold bind, setStatus, setMessage, modifyJob, ret; simpl.
      reflexivity.
    + apply frame_ret. apply same_request_refl.
  - intros H. apply (Hhandler what (throw (runtime_error what)) r w').
    + exact H.
    + apply frame_throw. apply same_request_refl.
  - intros H; inversion H; subst. eauto.
  - intros H; inversion H; subst. eauto.
Qed.

End LoopFacts.

(** ** Statistics and the FINISHED status (lines 264 and 327-328) *)

Lemma observed_app {D} (j0 : Job.t) (w w' : World D) (evs : list Event) :
  w_trace w' = w_trace w ++ evs ->
  observed j0 w'
  = observed j0 w
    ++ omap (fun ev => match ev with EvJob j => Some j | _ => None end) evs.
Proof.
  intros H. unfold observed. rewrite H, omap_app. reflexivity.
Qed.




(** ** The key columns under the update step *)



(** ** A target whose columns all belong to the primary key *)

Section KeyOnly.

Context {D : Type}.
Variable GDAL_VERSION_MAJOR : Z.
Variable configuration : Configuration.
Variable ogr : OGRSFDriverRegistrar.
Variable db : Database D.

(** The database rejects the update statements that are not well formed. *)
Hypothesis rejects :
  forall (u : Sql.update) (d : D),
    Sql.well_formed u = false -> exists e d', exec db (Sql.print u) d = (Throw e, d').

(** Every table the database reports has key columns only. *)
Hypothesis key_only :
  forall schema table d tableFields d',
    getTableFields db schema table d = (Ret tableFields, d') ->
    nonpk_names tableFields = [].

Lemma key_only_pull_never_finishes (job : Job.t) (w : World D) r w' :
  Job.getStatus (w_job w) <> Job.FINISHED ->
  pull GDAL_VERSION_MAJOR configuration ogr db job w = (r, w') ->
  Job.getStatus (w_job w') <> Job.FINISHED.
Proof.
  intros Hst H.
  apply pull_cases in H
    as [[_ [_ [layer [ogrFields [tf [cols [d0 [d0' [d [r1 [d1 [_ [Htf [Hin Hex]]]]]]]]]]]]]]
       |[[_ [Hf _]]|[_ [Hs _]]]]; [|congruence|congruence].
  exfalso.
  apply key_only in Htf. apply introspect_columns in Hin as [_ Huc].
  rewrite Htf in Huc.
  destruct (rejects (update_ast layer ("batyr_" +:+ Job.getId job) cols) d
              (update_ill_formed_without_columns _ _ _ Huc)) as [e [d' He]].
  rewrite <- updateStmt_print in He. congruence.
Qed.

Lemma key_only_job_never_finishes (w : World D) r w' :
  run_job GDAL_VERSION_MAJOR configuration ogr db w = (r, w') ->
  Job.getStatus (w_job w') <> Job.FINISHED.
Proof.
  unfold run_job.
  destruct (process_job GDAL_VERSION_MAJOR configuration ogr db w) as [r1 w1] eqn:Hp.
  assert (Hw1 : Job.getStatus (w_job w1) <> Job.FINISHED).
  { apply process_job_cases in Hp as [[w0 [_ [Hst [_ [_ Hp]]]]]|[_ [_ [Hst _]]]];
      [|congruence].
    eapply key_only_pull_never_finishes; [|exact Hp]. congruence. }
  destruct r1 as [[]|[what|what|what|]|];
    unfold bind, setStatus, setMessage, modifyJob, throw; simpl;
    intros H; inversion H; subst; simpl; try exact Hw1; discriminate.
Qed.

End KeyOnly.

(** C9.  When every column of the target belongs to the primary key,
    the update statement is still built and executed; its SET clause
    and its row-difference condition are empty, which makes it a
    statement the database rejects, so the job cannot finish. *)
Theorem key_only_table_cannot_be_pulled (layer : Layer.t) (jobId layerName : string)
    (ogrFields : gmap string OgrField.t) (tableFields : FieldMap) (cols : Columns) :
  introspect layerName ogrFields tableFields = Ret cols ->
  nonpk_names tableFields = [] ->
  let tempTableName := "batyr_" +:+ jobId in
  let sql := updateStmt layer tempTableName cols in
  set_clause tempTableName (updateColumns cols) 0 = EmptyString
  /\ difference_condition (Layer.target_table_name layer) tempTableName
       (updateColumns cols) 0 = EmptyString
  /\ sql = "update " +:+ dq +:+ Layer.target_table_schema layer +:+ dq +:+ "." +:+ dq
           +:+ Layer.target_table_name layer +:+ dq +:+ "  set  from " +:+ dq
           +:+ tempTableName +:+ dq +:+ " where ("
           +:+ key_condition (Layer.target_table_name layer) tempTableName
                 (pk_names tableFields) 0
           +:+ ") and ()"
  /\ sql = Sql.print (update_ast layer tempTableName cols)
  /\ Sql.assignments (update_ast layer tempTableName cols) = []
  /\ Sql.expr_ok (Sql.where_clause (update_ast layer tempTableName cols)) = false
  /\ Sql.well_formed (update_ast layer tempTableName cols) = false
  /\ (forall T S : list Sql.Row,
        Sql.execute (update_ast layer tempTableName cols) T S
        = Throw (DbError ("syntax error in: " +:+ sql)))
  /\ (forall (D : Type) (db : Database D) (numPulled : Z) (w : World D),
        exists evs,
          w_trace (snd (reconcile db layer tempTableName cols numPulled w))
          = w_trace w
            ++ EvJob (Job.setStatistics numPulled 0 0 0 (w_job w))
            :: EvDb (DbExec sql) :: evs)
  /\ (forall (D : Type) (db : Database D) (numPulled : Z) (w : World D) e d1,
        exec db sql (w_db w) = (Throw e, d1) ->
        exists w',
          reconcile db layer tempTableName cols numPulled w = (Throw e, w')
          /\ Job.getStatus (w_job w') = Job.getStatus (w_job w))
  /\ (forall (D : Type) (GDAL_VERSION_MAJOR : Z) (configuration : Configuration)
             (ogr : OGRSFDriverRegistrar) (db : Database D),
        (forall (u : Sql.update) (d : D),
            Sql.well_formed u = false ->
            exists e d', exec db (Sql.print u) d = (Throw e, d')) ->
        (forall schema table d tf d',
            getTableFields db schema table d = (Ret tf, d') -> nonpk_names tf = []) ->
        forall (w : World D) r w',
          run_job GDAL_VERSION_MAJOR configuration ogr db w = (r, w') ->
          Job.getStatus (w_job w') <> Job.FINISHED).
Proof.
  intros Hin Hkey tempTableName sql.
  destruct (introspect_columns _ _ _ _ Hin) as [Hpk Huc].
  rewrite Hkey in Huc.
  assert (Hrej : Sql.accepted (update_ast layer tempTableName cols) = false)
    by (apply update_rejected_without_columns; exact Huc).
  split; [rewrite Huc; reflexivity|].
  split; [rewrite Huc; reflexivity|].
  split.
  { unfold sql, updateStmt. rewrite Huc, Hpk. simpl. string_norm. reflexivity. }
  split; [apply updateStmt_print|].
  split; [simpl; now rewrite Huc|].
  split; [apply difference_condition_empty; exact Huc|].
  split; [apply update_ill_formed_without_columns; exact Huc|].
  split.
  { intros T S. unfold Sql.execute. rewrite Hrej.
    unfold sql. now rewrite updateStmt_print. }
  split; [intros; apply reconcile_executes_update|].
  split.
  { intros D db numPulled w e d1 He. eexists.
    split; [apply (reconcile_update_rejected db _ _ _ _ _ _ _ He) | reflexivity]. }
  intros D G configuration ogr db Hrejects Hkeyonly w r w' Hrun.
  exact (key_only_job_never_finishes G configuration ogr db Hrejects Hkeyonly w r w' Hrun).
Qed.

Lemma key_only_table_cannot_be_pulled_witness :
  introspect "roads" Scenario.ogrFields Scenario.key_only_table
  = Ret Scenario.key_only_columns
  /\ nonpk_names Scenario.key_only_table = []
  /\ Sql.well_formed
       (update_ast Scenario.roads ("batyr_" +:+ "42") Scenario.key_only_columns)
     = false
  /\ Job.getStatus
       (w_job (snd (run_job 2 Scenario.configuration
                      (Scenario.registrar
                         (Scenario.source_layer 1
                            [Scenario.feature Scenario.point_geometry]))
                      (Scenario.database Scenario.key_only_table [])
                      (Scenario.world EmptyString))))
     <> Job.FINISHED.
Proof.
  assert (H1 : introspect "roads" Scenario.ogrFields Scenario.key_only_table
               = Ret Scenario.key_only_columns) by (vm_compute; reflexivity).
  assert (H2 : nonpk_names Scenario.key_only_table = []) by reflexivity.
  destruct (key_only_table_cannot_be_pulled Scenario.roads "42" "roads" Scenario.ogrFields
              Scenario.key_only_table Scenario.key_only_columns H1 H2)
    as [_ [_ [_ [_ [_ [_ [Hrej [_ [_ [_ Hjob]]]]]]]]]].
  split; [exact H1|]. split; [exact H2|]. split; [exact Hrej|].
  eapply (Hjob nat 2 Scenario.configuration _
            (Scenario.database Scenario.key_only_table [])).
  - intros u d _. simpl. eauto.
  - intros schema table d tf d' H. simpl in H. inversion H; subst. reflexivity.
  - apply surjective_pairing.
Defined.

(** ** Exceptions in the worker loop (lines 343-389) *)

(** C10.  An exception leaving the body of the [try] block is handled
    by its class: for [DbError] and [WorkerError] the job becomes
    FAILED with the exception text and the loop goes on with the next
    job; any other [std::runtime_error] is recorded in the same way and
    thrown again, which ends the loop; an exception of any other class
    leaves the loop with the job record untouched, still IN_PROCESS. *)
Theorem worker_loop_handles_exceptions {D : Type} (GDAL_VERSION_MAJOR : Z)
    (configuration : Configuration) (ogr : OGRSFDriverRegistrar) (db : Database D)
    (job : Job.t) (rest : list Job.t) (d : D) (e : exn) (w1 : World D) :
  process_job GDAL_VERSION_MAJOR configuration ogr db (mkWorld job d []) = (Throw e, w1) ->
  let failed what :=
    mkWorld (Job.setMessage what (Job.setStatus Job.FAILED (w_job w1))) (w_db w1)
      (w_trace w1
       ++ [EvJob (Job.setStatus Job.FAILED (w_job w1));
           EvJob (Job.setMessage what (Job.setStatus Job.FAILED (w_job w1)))]) in
  let the_run := run GDAL_VERSION_MAJOR configuration ogr db in
  let the_run_job := run_job GDAL_VERSION_MAJOR configuration ogr db in
  match e with
  | DbError what | WorkerError what =>
      the_run_job (mkWorld job d []) = (Ret tt, failed what)
      /\ Job.getStatus (w_job (failed what)) = Job.FAILED
      /\ Job.getMessage (w_job (failed what)) = what
      /\ the_run (job :: rest) d
         = (fst (the_run rest (w_db w1)), failed what :: snd (the_run rest (w_db w1)))
  | runtime_error what =>
      the_run_job (mkWorld job d []) = (Throw (runtime_error what), failed what)
      /\ Job.getStatus (w_job (failed what)) = Job.FAILED
      /\ Job.getMessage (w_job (failed what)) = what
      /\ the_run (job :: rest) d = (Throw (runtime_error what), [failed what])
  | other_exception =>
      the_run_job (mkWorld job d []) = (Throw other_exception, w1)
      /\ Job.getStatus (w_job w1) = Job.IN_PROCESS
      /\ the_run (job :: rest) d = (Throw other_exception, [w1])
  end.
Proof.
  intros Hp failed the_run the_run_job.
  assert (Hrj : forall what,
             (setStatus Job.FAILED ;;; setMessage what) w1 = (Ret tt, failed what)).
  { intros what. unfold bind, setStatus, setMessage, modifyJob, failed; simpl.
    now rewrite <- app_assoc. }
  assert (Hrt : forall what,
             (setStatus Job.FAILED ;;; setMessage what ;;;
              @throw D unit (runtime_error what)) w1
             = (Throw (runtime_error what), failed what)).
  { intros what. unfold bind, setStatus, setMessage, modifyJob, throw, failed; simpl.
    now rewrite <- app_assoc. }
  destruct e as [what|what|what|].
  - assert (Hjob : the_run_job (mkWorld job d []) = (Ret tt, failed what))
      by (unfold the_run_job, run_job; rewrite Hp; apply Hrj).
    split; [exact Hjob|]. split; [reflexivity|]. split; [reflexivity|].
    unfold the_run; simpl. fold the_run_job. rewrite Hjob; simpl.
    destruct (run GDAL_VERSION_MAJOR configuration ogr db rest (w_db w1)); reflexivity.
  - assert (Hjob : the_run_job (mkWorld job d []) = (Ret tt, failed what))
      by (unfold the_run_job, run_job; rewrite Hp; apply Hrj).
    split; [exact Hjob|]. split; [reflexivity|]. split; [reflexivity|].
    unfold the_run; simpl. fold the_run_job. rewrite Hjob; simpl.
    destruct (run GDAL_VERSION_MAJOR configuration ogr db rest (w_db w1)); reflexivity.
  - assert (Hjob : the_run_job (mkWorld job d [])
                   = (Throw (runtime_error what), failed what))
      by (unfold the_run_job, run_job; rewrite Hp; apply Hrt).
    split; [exact Hjob|]. split; [reflexivity|]. split; [reflexivity|].
    unfold the_run; simpl. fold the_run_job. rewrite Hjob; reflexivity.
  - assert (Hjob : the_run_job (mkWorld job d []) = (Throw other_exception, w1))
      by (unfold the_run_job, run_job; rewrite Hp; reflexivity).
    split; [exact Hjob|].
    split; [apply (process_job_stopped _ _ _ _ _ _ _ Hp); congruence|].
    unfold the_run; simpl; fold the_run_job; rewrite Hjob; reflexivity.
Qed.

Lemma worker_loop_handles_exceptions_witness :
  exists what w1,
    process_job 2 Scenario.configuration
      (Scenario.registrar
         (Scenario.source_layer 1 [Scenario.feature Scenario.point_geometry]))
      (Scenario.database Scenario.gid_table [])
      (mkWorld (Scenario.job EmptyString) 0%nat [])
    = (Throw (WorkerError what), w1)
    /\ Job.getStatus
         (w_job (snd (run_job 2 Scenario.configuration
                        (Scenario.registrar
                           (Scenario.source_layer 1
                              [Scenario.feature Scenario.point_geometry]))
                        (Scenario.database Scenario.gid_table [])
                        (mkWorld (Scenario.job EmptyString) 0%nat []))))
       = Job.FAILED
    /\ Job.getMessage
         (w_job (snd (run_job 2 Scenario.configuration
                        (Scenario.registrar
                           (Scenario.source_layer 1
                              [Scenario.feature Scenario.point_geometry]))
                        (Scenario.database Scenario.gid_table [])
                        (mkWorld (Scenario.job EmptyString) 0%nat []))))
       = what.
Proof.
  pose (v := ltac:(let v := eval vm_compute in
                     (process_job 2 Scenario.configuration
                        (Scenario.registrar
                           (Scenario.source_layer 1
                              [Scenario.feature Scenario.point_geometry]))
                        (Scenario.database Scenario.gid_table [])
                        (mkWorld (Scenario.job EmptyString) 0%nat [])) in
                   exact v)).
  assert (Hp : process_job 2 Scenario.configuration
                 (Scenario.registrar
                    (Scenario.source_layer 1 [Scenario.feature Scenario.point_geometry]))
                 (Scenario.database Scenario.gid_table [])
                 (mkWorld (Scenario.job EmptyString) 0%nat []) = v)
    by (vm_compute; reflexivity).
  unfold v in Hp. clear v.
  destruct (worker_loop_handles_exceptions 2 Scenario.configuration _ _
              (Scenario.job EmptyString) [] 0%nat _ _ Hp) as [Hrun [Hst [Hmsg _]]].
  eexists. eexists. split; [exact Hp|].
  rewrite Hrun. split; [exact Hst | exact Hmsg].
Defined.

(** ** The attribute filter (lines 71-91) *)

Lemma emit_all_run {D} (evs : list Event) (w : World D) :
  emit_all evs w = (Ret tt, mkWorld (w_job w) (w_db w) (w_trace w ++ evs)).
Proof.
  revert w; induction evs as [|ev evs IH]; intros w; simpl.
  - unfold ret. rewrite app_nil_r. now destruct w.
  - unfold bind, emit; simpl. rewrite IH; simpl. now rewrite <- app_assoc.
Qed.

Lemma empty_false (s : string) : s <> EmptyString -> empty s = false.
Proof. destruct s; [congruence | reflexivity]. Qed.

Section FilterFacts.

Context {D : Type}.
Variable GDAL_VERSION_MAJOR : Z.
Variable configuration : Configuration.
Variable ogr : OGRSFDriverRegistrar.
Variable db : Database D.

(** Once the database is reachable, the body of the [try] block is the
    pull, run on a record that is IN_PROCESS with an empty message. *)
Lemma process_job_connected (w : World D) n d1 :
  reconnect db (w_db w) = (Connected n, d1) ->
  exists w3,
    same_request (w_job w) (w_job w3)
    /\ Job.getStatus (w_job w3) = Job.IN_PROCESS
    /\ process_job GDAL_VERSION_MAJOR configuration ogr db w
       = pull GDAL_VERSION_MAJOR configuration ogr db (w_job w3) w3.
Proof.
  intros Hc. unfold process_job, bind at 1, setStatus at 1, modifyJob; simpl.
  unfold bind at 1, reconnect_loop at 1, bind at 1, dbCall; simpl. rewrite Hc.
  destruct n as [|n]; simpl.
  - unfold bind at 1, setMessage, modifyJob; simpl. unfold bind at 1, getJob; simpl.
    match goal with
    | |- context [pull _ _ _ _ _ ?w0] => exists w0
    end.
    simpl. split; [unfold same_request; auto | split; reflexivity].
  - unfold bind at 1, setMessage at 1, modifyJob; simpl.
    unfold bind at 1, emit; simpl. rewrite emit_all_run; simpl.
    unfold bind at 1, setMessage, modifyJob; simpl. unfold bind at 1, getJob; simpl.
    match goal with
    | |- context [pull _ _ _ _ _ ?w0] => exists w0
    end.
    simpl. split; [unfold same_request; auto | split; reflexivity].
Qed.

Lemma open_source_filter_rejected (job : Job.t) (w : World D) layer ds ogrLayer :
  getLayer configuration (Job.getLayerName job) = Ret layer ->
  Open ogr (Layer.source layer) = Some ds ->
  GetLayerByName ds (Layer.source_layer layer) = Some ogrLayer ->
  Job.getFilter job <> EmptyString ->
  SetAttributeFilter ogrLayer (Job.getFilter job) = false ->
  open_source GDAL_VERSION_MAJOR configuration ogr job w
  = (Throw (WorkerError
              (invalid_filter_message layer
                 (CPLGetLastErrorMsg ogrLayer (Job.getFilter job)) (Job.getFilter job))),
     mkWorld (w_job w) (w_db w)
       (w_trace w
        ++ [EvOgr (OgrOpen (Layer.source layer));
            EvOgr (OgrGetLayerByName (Layer.source_layer layer));
            EvOgr OgrResetReading;
            EvOgr (OgrSetAttributeFilter (Job.getFilter job))])).
Proof.
  intros Hl Ho Hg Hne Hrej.
  unfold open_source, apply_filter, bind, lift, emit, throw; simpl.
  rewrite Hl; simpl. rewrite Ho; simpl. rewrite Hg; simpl.
  rewrite (empty_false _ Hne); simpl. rewrite Hrej; simpl.
  rewrite <- !app_assoc. reflexivity.
Qed.

End FilterFacts.

(** C7.  A job whose non-empty filter the driver rejects ends FAILED
    with a message that contains the filter and, when the driver left
    one, the driver's error text; a job with an empty filter never has
    a filter applied. *)
Theorem rejected_filter_fails_job {D : Type} (GDAL_VERSION_MAJOR : Z)
    (configuration : Configuration) (ogr : OGRSFDriverRegistrar) (db : Database D)
    (w : World D) :
  let filterString := Job.getFilter (w_job w) in
  (forall n d1 layer ds ogrLayer,
      reconnect db (w_db w) = (Connected n, d1) ->
      getLayer configuration (Job.getLayerName (w_job w)) = Ret layer ->
      Open ogr (Layer.source layer) = Some ds ->
      GetLayerByName ds (Layer.source_layer layer) = Some ogrLayer ->
      filterString <> EmptyString ->
      SetAttributeFilter ogrLayer filterString = false ->
      let msg :=
        invalid_filter_message layer (CPLGetLastErrorMsg ogrLayer filterString)
          filterString in
      (exists w',
          run_job GDAL_VERSION_MAJOR configuration ogr db w = (Ret tt, w')
          /\ Job.getStatus (w_job w') = Job.FAILED
          /\ Job.getMessage (w_job w') = msg
          /\ In (EvOgr (OgrSetAttributeFilter filterString)) (w_trace w'))
      /\ (exists before after, msg = before +:+ filterString +:+ after)
      /\ (forall lastError,
             CPLGetLastErrorMsg ogrLayer filterString = Some lastError ->
             exists before after, msg = before +:+ lastError +:+ after))
  /\ (filterString = EmptyString ->
      forall r w',
        run_job GDAL_VERSION_MAJOR configuration ogr db w = (r, w') ->
        exists evs,
          w_trace w' = w_trace w ++ evs
          /\ forall f, ~ In (EvOgr (OgrSetAttributeFilter f)) evs).
Proof.
  intros filterString. split.
  - intros n d1 layer ds ogrLayer Hc Hl Ho Hg Hne Hrej msg.
    split; [|split].
    + destruct (process_job_connected GDAL_VERSION_MAJOR configuration ogr db w n d1 Hc)
        as [w3 [[Hid [Hln Hfl]] [Hst Hp]]].
      rewrite <- Hln in Hl. fold filterString in Hfl.
      assert (Hos := open_source_filter_rejected GDAL_VERSION_MAJOR configuration ogr
                       (w_job w3) w3 layer ds ogrLayer Hl Ho Hg
                       ltac:(rewrite Hfl; exact Hne) ltac:(rewrite Hfl; exact Hrej)).
      rewrite Hfl in Hos. fold msg in Hos.
      unfold run_job. rewrite Hp. unfold pull.
      rewrite (bind_Throw _ _ _ _ _ Hos).
      unfold bind, setStatus, setMessage, modifyJob; simpl.
      eexists. split; [reflexivity|]. simpl. split; [reflexivity|].
      split; [reflexivity|].
      rewrite <- !app_assoc. apply in_or_app. right. simpl. auto 10.
    + exists ("The given filter for layer " +:+ dq +:+ Layer.name layer +:+ dq
              +:+ " is invalid"
              +:+ match CPLGetLastErrorMsg ogrLayer filterString with
                  | Some m => ": " +:+ m
                  | None => "."
                  end
              +:+ " The applied filter was [ "), " ]".
      unfold msg, invalid_filter_message. string_norm. reflexivity.
    + intros lastError Herr.
      exists ("The given filter for layer " +:+ dq +:+ Layer.name layer +:+ dq
              +:+ " is invalid" +:+ ": "),
             (" The applied filter was [ " +:+ filterString +:+ " ]").
      unfold msg, invalid_filter_message. rewrite Herr. string_norm. reflexivity.
  - intros Hf r w' Hrun.
    destruct (run_job_quiet GDAL_VERSION_MAJOR configuration ogr db w r w' Hf Hrun)
      as [evs [Htr Hevs]].
    exists evs. split; [exact Htr|].
    intros f Hin. rewrite Forall_forall in Hevs.
    apply list_elem_of_In in Hin. exact (Hevs _ Hin f eq_refl).
Qed.

Lemma rejected_filter_fails_job_witness :
  exists w',
    run_job 2 Scenario.configuration
      (Scenario.registrar
         (Scenario.source_layer 1 [Scenario.feature Scenario.point_geometry]))
      (Scenario.database Scenario.roads_table ["0"; "1"; "0"])
      (Scenario.world "nope =") = (Ret tt, w')
    /\ Job.getStatus (w_job w') = Job.FAILED
    /\ Job.getMessage (w_job w')
       = invalid_filter_message Scenario.roads
           (Some "syntax error, unexpected end of string") "nope =".
Proof.
  destruct (rejected_filter_fails_job 2 Scenario.configuration
              (Scenario.registrar
                 (Scenario.source_layer 1 [Scenario.feature Scenario.point_geometry]))
              (Scenario.database Scenario.roads_table ["0"; "1"; "0"])
              (Scenario.world "nope =")) as [Hrej _].
  destruct (Hrej 0%nat 0%nat Scenario.roads
              (mkDataSource
                 (fun layerName =>
                    if String.eqb layerName "roads"
                    then Some (Scenario.source_layer 1
                                 [Scenario.feature Scenario.point_geometry])
                    else None))
              (Scenario.source_layer 1 [Scenario.feature Scenario.point_geometry])
              eq_refl eq_refl eq_refl eq_refl ltac:(discriminate) eq_refl)
    as [[w' [Hrun [Hst [Hmsg _]]]] _].
  exists w'. split; [exact Hrun|]. split; [exact Hst | exact Hmsg].
Defined.

(** ** The geometry field count (lines 95-101) *)

Section GeometryCount.

Context {D : Type}.
Variable GDAL_VERSION_MAJOR : Z.
Variable configuration : Configuration.
Variable ogr : OGRSFDriverRegistrar.
Variable db : Database D.

Lemma apply_filter_accepted layer ogrLayer filterString (w : World D) :
  filterString = EmptyString \/ SetAttributeFilter ogrLayer filterString = true ->
  exists evs,
    apply_filter layer ogrLayer filterString w
    = (Ret tt, mkWorld (w_job w) (w_db w) (w_trace w ++ evs))
    /\ Forall opening_event evs.
Proof.
  intros H. unfold apply_filter.
  destruct (empty filterString) eqn:He.
  - exists []. unfold ret. rewrite app_nil_r. split; [now destruct w | constructor].
  - destruct H as [H|H]; [subst; discriminate He|].
    unfold bind, emit; simpl. rewrite H. unfold ret.
    eexists. split; [reflexivity|]. repeat constructor.
Qed.

Lemma open_source_geometry_count (job : Job.t) (w : World D) layer ds ogrLayer :
  1 < GDAL_VERSION_MAJOR ->
  getLayer configuration (Job.getLayerName job) = Ret layer ->
  Open ogr (Layer.source layer) = Some ds ->
  GetLayerByName ds (Layer.source_layer layer) = Some ogrLayer ->
  Job.getFilter job = EmptyString
  \/ SetAttributeFilter ogrLayer (Job.getFilter job) = true ->
  GetGeomFieldCount (GetLayerDefn ogrLayer) <> 1 ->
  exists evs,
    open_source GDAL_VERSION_MAJOR configuration ogr job w
    = (Throw (WorkerError
                (geometry_count_message (GetGeomFieldCount (GetLayerDefn ogrLayer)))),
       mkWorld (w_job w) (w_db w) (w_trace w ++ evs))
    /\ Forall opening_event evs.
Proof.
  intros Hv Hl Ho Hg Hf Hn.
  unfold open_source.
  unfold bind at 1, lift. rewrite Hl.
  unfold bind at 1, emit; simpl. rewrite Ho.
  unfold bind at 1; simpl. rewrite Hg.
  unfold bind at 1; simpl.
  unfold bind at 1.
  match goal with
  | |- context [apply_filter layer ogrLayer (Job.getFilter job) ?w0] =>
      destruct (apply_filter_accepted layer ogrLayer (Job.getFilter job) w0 Hf)
        as [evs [Ha Hevs]]; rewrite Ha
  end.
  unfold bind at 1, check_geometry_count.
  assert (Hc : (1 <? GDAL_VERSION_MAJOR)
               && negb (GetGeomFieldCount (GetLayerDefn ogrLayer) =? 1) = true).
  { apply andb_true_iff. split; [now apply Z.ltb_lt|].
    apply negb_true_iff. now apply Z.eqb_neq. }
  rewrite Hc. unfold throw; simpl.
  eexists. rewrite <- !app_assoc. split; [reflexivity|].
  simpl. repeat constructor. exact Hevs.
Qed.

End GeometryCount.

(** C5 (amended).  In a build against GDAL 2 or later, a job whose
    source opens, whose layer is found and whose filter, if any, is
    accepted fails with the geometry-count message as soon as the
    schema declares a number of geometry fields other than one: before
    any feature is read, before any call reaches the database, and
    without a change to the job record. *)
Theorem geometry_count_fails_fast {D : Type} (GDAL_VERSION_MAJOR : Z)
    (configuration : Configuration) (ogr : OGRSFDriverRegistrar) (db : Database D)
    (job : Job.t) (w : World D) layer ds ogrLayer :
  1 < GDAL_VERSION_MAJOR ->
  getLayer configuration (Job.getLayerName job) = Ret layer ->
  Open ogr (Layer.source layer) = Some ds ->
  GetLayerByName ds (Layer.source_layer layer) = Some ogrLayer ->
  Job.getFilter job = EmptyString
  \/ SetAttributeFilter ogrLayer (Job.getFilter job) = true ->
  GetGeomFieldCount (GetLayerDefn ogrLayer) <> 1 ->
  exists evs,
    pull GDAL_VERSION_MAJOR configuration ogr db job w
    = (Throw (WorkerError
                ("The source provides "
                 +:+ to_string_int (GetGeomFieldCount (GetLayerDefn ogrLayer))
                 +:+ "geometry fields. Currently only sources with on geoemtry field are supported")),
       mkWorld (w_job w) (w_db w) (w_trace w ++ evs))
    /\ Forall opening_event evs
    /\ (forall c, ~ In (EvDb c) evs)
    /\ ~ In (EvOgr OgrGetNextFeature) evs.
Proof.
  intros Hv Hl Ho Hg Hf Hn.
  destruct (open_source_geometry_count GDAL_VERSION_MAJOR configuration ogr job w
              layer ds ogrLayer Hv Hl Ho Hg Hf Hn) as [evs [Hos Hevs]].
  exists evs. unfold pull. rewrite (bind_Throw _ _ _ _ _ Hos).
  split; [reflexivity|]. split; [exact Hevs|].
  rewrite Forall_forall in Hevs.
  split.
  - intros c Hin. apply list_elem_of_In in Hin. exact (Hevs _ Hin).
  - intros Hin. apply list_elem_of_In in Hin. exact (Hevs _ Hin).
Qed.

Lemma geometry_count_fails_fast_witness :
  exists evs,
    pull 2 Scenario.configuration
      (Scenario.registrar
         (Scenario.source_layer 2 [Scenario.feature Scenario.point_geometry]))
      (Scenario.database Scenario.roads_table ["0"; "1"; "0"])
      (Scenario.job EmptyString) (Scenario.world EmptyString)
    = (Throw (WorkerError
                ("The source provides " +:+ to_string_int 2
                 +:+ "geometry fields. Currently only sources with on geoemtry field are supported")),
       mkWorld (Scenario.job EmptyString) 0%nat evs)
    /\ forall c, ~ In (EvDb c) evs.
Proof.
  destruct (geometry_count_fails_fast 2 Scenario.configuration
              (Scenario.registrar
                 (Scenario.source_layer 2 [Scenario.feature Scenario.point_geometry]))
              (Scenario.database Scenario.roads_table ["0"; "1"; "0"])
              (Scenario.job EmptyString) (Scenario.world EmptyString)
              Scenario.roads
              (mkDataSource
                 (fun layerName =>
                    if String.eqb layerName "roads"
                    then Some (Scenario.source_layer 2
                                 [Scenario.feature Scenario.point_geometry])
                    else None))
              (Scenario.source_layer 2 [Scenario.feature Scenario.point_geometry])
              ltac:(lia) eq_refl eq_refl eq_refl (or_introl eq_refl) ltac:(discriminate))
    as [evs [Hp [_ [Hdb _]]]].
  exists evs. split; [exact Hp | exact Hdb].
Defined.

(** C5, as stated, fails: a worker built against GDAL 1 has no such
    check, and pulls a layer declaring two geometry fields to the end;
    and in any build a rejected filter is reported first. *)
Lemma geometry_count_not_checked_by_gdal_1 :
  let two_fields :=
    Scenario.source_layer 2 [Scenario.feature Scenario.point_geometry] in
  let w' :=
    snd (pull 1 Scenario.configuration (Scenario.registrar two_fields)
           (Scenario.database Scenario.roads_table ["0"; "1"; "0"])
           (Scenario.job EmptyString) (Scenario.world EmptyString)) in
  GetGeomFieldCount (GetLayerDefn two_fields) = 2
  /\ fst (pull 1 Scenario.configuration (Scenario.registrar two_fields)
            (Scenario.database Scenario.roads_table ["0"; "1"; "0"])
            (Scenario.job EmptyString) (Scenario.world EmptyString)) = Ret tt
  /\ Job.getStatus (w_job w') = Job.FINISHED
  /\ In (EvOgr OgrGetNextFeature) (w_trace w')
  /\ In (EvDb DbGetTransaction) (w_trace w')
  /\ fst (pull 2 Scenario.configuration (Scenario.registrar two_fields)
            (Scenario.database Scenario.roads_table ["0"; "1"; "0"])
            (Scenario.job "nope =") (Scenario.world "nope ="))
     = Throw (WorkerError
                (invalid_filter_message Scenario.roads
                   (Some "syntax error, unexpected end of string") "nope =")).
Proof.
  vm_compute.
  repeat split; repeat (first [left; reflexivity | right]).
Qed.

(** ** Primary-key columns missing in the source (lines 133-178) *)

Lemma tolower_idempotent (c : ascii) : tolower (tolower c) = tolower c.
Proof. destruct c as [[] [] [] [] [] [] [] []]; reflexivity. Qed.

Lemma lowercase_idempotent (s : string) : lowercase (lowercase s) = lowercase s.
Proof.
  induction s as [|c s IH]; simpl; [reflexivity|].
  now rewrite tolower_idempotent, IH.
Qed.

Lemma ogrFields_has_insert (m : gmap string OgrField.t) (k c : string) (e : OgrField.t) :
  ogrFields_has (<[k := e]> m) c = true <-> k = c \/ ogrFields_has m c = true.
Proof.
  unfold ogrFields_has. destruct (decide (k = c)) as [->|Hne].
  - rewrite lookup_insert_eq. tauto.
  - rewrite lookup_insert_ne by exact Hne. tauto.
Qed.

(** The source has a field for a column name exactly when one of its
    field names, lower-cased, is that name. *)
Lemma collect_fields_has (defns : list OGRFieldDefn) :
  forall (i : nat) (m : gmap string OgrField.t) (c : string),
    ogrFields_has (collect_fields defns i m) c = true
    <-> ogrFields_has m c = true
        \/ exists d, In d defns /\ lowercase (GetNameRef d) = c.
Proof.
  induction defns as [|d rest IH]; intros i m c; simpl.
  - split; [auto | intros [H|[d [[] _]]]; exact H].
  - rewrite IH, ogrFields_has_insert. split.
    + intros [[H|H]|[d' [Hin Hd']]]; eauto.
    + intros [H|[d' [[->|Hin] Hd']]]; eauto.
Qed.

Lemma source_lacks_column (defns : list OGRFieldDefn) (c : string) :
  (forall d, In d defns -> lowercase (GetNameRef d) <> lowercase c) ->
  ogrFields_has (collect_fields defns 0 ∅) c = false.
Proof.
  intros H. apply not_true_is_false. intros Hhas.
  apply collect_fields_has in Hhas as [Hhas|[d [Hin Hd]]].
  - unfold ogrFields_has in Hhas. rewrite lookup_empty in Hhas. discriminate.
  - apply (H d Hin). rewrite <- Hd. now rewrite lowercase_idempotent.
Qed.

Lemma introspect_missing ln ogrFields tableFields cols :
  classify_fields ln ogrFields tableFields (mkColumns [] EmptyString [] []) = Ret cols ->
  missingPrimaryKeysSource ogrFields (pk_names tableFields) <> [] ->
  introspect ln ogrFields tableFields
  = Throw (WorkerError
             (missing_message ln
                (missingPrimaryKeysSource ogrFields (pk_names tableFields)))).
Proof.
  intros Hc Hm. unfold introspect. rewrite Hc; simpl.
  apply classify_fields_columns in Hc as [Hpk _]. simpl in Hpk.
  unfold check_primary_key. rewrite Hpk.
  destruct (pk_names tableFields) as [|c l] eqn:Hn; [now destruct Hm|].
  destruct (missingPrimaryKeysSource ogrFields (c :: l)); [now destruct Hm|].
  reflexivity.
Qed.




(** ** Failures while a geometry is encoded (lines 207-230) *)

Lemma to_string_int_inj (a b : Z) : to_string_int a = to_string_int b -> a = b.
Proof.
  unfold to_string_int. intros H. apply DecimalZ.to_int_inj.
  assert (Hs : Some (Z.to_int a) = Some (Z.to_int b))
    by (rewrite <- !NilEmpty.isi; now rewrite H).
  now inversion Hs.
Qed.

Lemma string_app_inj (p a b : string) : p +:+ a = p +:+ b -> a = b.
Proof.
  induction p as [|c p IH]; [auto|].
  rewrite !string_app_cons. intros H. inversion H. auto.
Qed.

Lemma strValues_throws tableFields ogrFields ogrFeature numPulled e before column after :
  forall values,
    strValues tableFields ogrFields ogrFeature numPulled before = Ret values ->
    Field.pgTypeName (tableFields_at tableFields column) = "geometry" ->
    encode_geometry (GetGeometryRef ogrFeature) numPulled = Throw e ->
    strValues tableFields ogrFields ogrFeature numPulled (before ++ column :: after)
    = Throw e.
Proof.
  induction before as [|c before IH]; intros values Hb Hg He; simpl.
  - rewrite Hg; simpl. now rewrite He.
  - simpl in Hb.
    destruct (if String.eqb (Field.pgTypeName (tableFields_at tableFields c)) "geometry"
              then encode_geometry (GetGeometryRef ogrFeature) numPulled
              else field_value ogrFeature (ogrFields_at ogrFields c)) as [v| |];
      simpl in Hb |- *; try discriminate Hb.
    destruct (strValues tableFields ogrFields ogrFeature numPulled before)
      as [vs| |] eqn:Hvs; simpl in Hb; try discriminate Hb.
    now rewrite (IH vs eq_refl Hg He).
Qed.

(** C6 (amended).  Each failure while the geometry of a feature is
    encoded aborts the job with a message of its own.  The message for
    a failed WKB export ends in the number of features pulled before,
    which identifies the feature; the messages for the two allocation
    failures are fixed texts that carry no feature number. *)
Theorem geometry_encoding_failures (ogrGeometry : OGRGeometry) (numPulled : Z) :
  (CPLMalloc_ok ogrGeometry = false ->
   encode_geometry ogrGeometry numPulled
   = Throw (WorkerError "Unable to allocate memory to export geometry"))
  /\ (CPLMalloc_ok ogrGeometry = true -> exportToWkb ogrGeometry = None ->
      encode_geometry ogrGeometry numPulled
      = Throw (WorkerError ("Could not export the geometry from feature #"
                            +:+ to_string_int numPulled)))
  /\ (CPLMalloc_ok ogrGeometry = true ->
      (exists buffer, exportToWkb ogrGeometry = Some buffer) ->
      CPLBinaryToHex_ok ogrGeometry = false ->
      encode_geometry ogrGeometry numPulled
      = Throw (WorkerError "Unable to allocate memory to convert geometry to hex"))
  /\ (forall other : Z,
        "Could not export the geometry from feature #" +:+ to_string_int numPulled
        = "Could not export the geometry from feature #" +:+ to_string_int other ->
        numPulled = other)
  /\ (forall (D : Type) (db : Database D) insertStmtName tableFields ogrFields
             before column after ogrFeature rest values e (w : World D),
        GetGeometryRef ogrFeature = ogrGeometry ->
        encode_geometry ogrGeometry numPulled = Throw e ->
        strValues tableFields ogrFields ogrFeature numPulled before = Ret values ->
        Field.pgTypeName (tableFields_at tableFields column) = "geometry" ->
        stream_features db insertStmtName tableFields ogrFields
          (before ++ column :: after) (ogrFeature :: rest) numPulled w
        = (Throw e,
           mkWorld (w_job w) (w_db w) (w_trace w ++ [EvOgr OgrGetNextFeature])))
  /\ (forall (D : Type) (db : Database D) insertStmtName tableFields ogrFields
             insertColumns ogrFeature rest values d' (w : World D),
        strValues tableFields ogrFields ogrFeature numPulled insertColumns = Ret values ->
        execPrepared db insertStmtName values (w_db w) = (Ret tt, d') ->
        stream_features db insertStmtName tableFields ogrFields insertColumns
          (ogrFeature :: rest) numPulled w
        = stream_features db insertStmtName tableFields ogrFields insertColumns
            rest (numPulled + 1)
            (mkWorld (w_job w) d'
               (w_trace w
                ++ [EvOgr OgrGetNextFeature;
                    EvDb (DbExecPrepared insertStmtName values)]))).
Proof.
  split; [|split; [|split; [|split; [|split]]]].
  - intros H. unfold encode_geometry. now rewrite H.
  - intros H1 H2. unfold encode_geometry. now rewrite H1, H2.
  - intros H1 [buffer H2] H3. unfold encode_geometry. now rewrite H1, H2, H3.
  - intros other H. apply string_app_inj in H. now apply to_string_int_inj.
  - intros D db stmt tf ogrFields before column after f rest values e w Hg He Hb Hc.
    subst ogrGeometry. simpl. unfold bind, emit, lift; simpl.
    now rewrite (strValues_throws tf ogrFields f numPulled e before column after
                   values Hb Hc He).
  - intros D db stmt tf ogrFields cols f rest values d' w Hv He.
    simpl. unfold bind at 1, emit; simpl. unfold bind at 1, lift; simpl. rewrite Hv.
    unfold bind at 1, dbCall; simpl. rewrite He. now rewrite <- app_assoc.
Qed.

(** C6, as stated, fails: when an allocation fails, the message is the
    same whatever the number of the feature. *)
Lemma allocation_failure_message_has_no_ordinal :
  let no_buffer := mkGeometry 21 false (Some Scenario.point_1_2) true in
  let no_hex := mkGeometry 21 true (Some Scenario.point_1_2) false in
  encode_geometry no_buffer 0
  = Throw (WorkerError "Unable to allocate memory to export geometry")
  /\ encode_geometry no_buffer 7 = encode_geometry no_buffer 0
  /\ encode_geometry no_hex 0
     = Throw (WorkerError "Unable to allocate memory to convert geometry to hex")
  /\ encode_geometry no_hex 7 = encode_geometry no_hex 0.
Proof.
  repeat split.
Qed.

(** ** The rendering of REAL fields (lines 240-241) *)

Lemma round_half_even_bound (num den : Z) :
  0 < den -> Z.abs (2 * num - 2 * round_half_even num den * den) <= den.
Proof.
  intros Hden. unfold round_half_even.
  pose proof (Z.div_mod num den ltac:(lia)) as Hdm.
  pose proof (Z.mod_pos_bound num den Hden) as Hr.
  set (q := num / den) in *. set (r := num mod den) in *.
  destruct (2 * r <? den) eqn:H1; [apply Z.ltb_lt in H1; apply Z.abs_le; nia|].
  apply Z.ltb_ge in H1.
  destruct (den <? 2 * r) eqn:H2; [apply Z.ltb_lt in H2; apply Z.abs_le; nia|].
  apply Z.ltb_ge in H2.
  destruct (Z.even q); apply Z.abs_le; nia.
Qed.

Lemma round_half_even_nonneg (num den : Z) :
  0 <= num -> 0 < den -> 0 <= round_half_even num den.
Proof.
  intros Hn Hd. unfold round_half_even.
  pose proof (Z.div_pos num den Hn Hd).
  destruct (2 * (num mod den) <? den); [lia|].
  destruct (den <? 2 * (num mod den)); [lia|].
  destruct (Z.even (num / den)); lia.
Qed.

Lemma scaled_den_pos (e : Z) : 0 < scaled_den e.
Proof. unfold scaled_den. apply Z.pow_pos_nonneg; lia. Qed.

Lemma scaled_num_nonneg (m : positive) (e : Z) : 0 <= scaled_num m e.
Proof.
  unfold scaled_num.
  assert (0 < 2 ^ Z.max e 0) by (apply Z.pow_pos_nonneg; lia). nia.
Qed.

Lemma digit_value_char (k : Z) : 0 <= k <= 9 -> digit_value (digit_char k) = Some k.
Proof.
  intros Hk.
  assert (Hc : k = 0 \/ k = 1 \/ k = 2 \/ k = 3 \/ k = 4 \/ k = 5 \/ k = 6 \/ k = 7
               \/ k = 8 \/ k = 9) by lia.
  repeat (destruct Hc as [->|Hc]; [reflexivity|]). subst; reflexivity.
Qed.

Lemma digit_char_not_point (k : Z) : 0 <= k <= 9 -> Ascii.eqb (digit_char k) "." = false.
Proof.
  intros Hk.
  assert (Hc : k = 0 \/ k = 1 \/ k = 2 \/ k = 3 \/ k = 4 \/ k = 5 \/ k = 6 \/ k = 7
               \/ k = 8 \/ k = 9) by lia.
  repeat (destruct Hc as [->|Hc]; [reflexivity|]). subst; reflexivity.
Qed.

Lemma fixed_digits_cons (acc k : Z) (c : ascii) (s : string) :
  Ascii.eqb c "." = false -> digit_value c = Some k ->
  fixed_digits acc (String c s) = fixed_digits (10 * acc + k) s.
Proof.
  intros Hp Hd. cbn [fixed_digits]. now rewrite Hp, Hd.
Qed.

Lemma fixed_digits_digit (acc k : Z) (s : string) :
  0 <= k <= 9 ->
  fixed_digits acc (String (digit_char k) s) = fixed_digits (10 * acc + k) s.
Proof.
  intros Hk. apply fixed_digits_cons;
    [now apply digit_char_not_point | now apply digit_value_char].
Qed.

Lemma fixed_digits_digits6 (acc n : Z) :
  0 <= n < 10 ^ 6 -> fixed_digits acc (digits6 n) = acc * 10 ^ 6 + n.
Proof.
  intros Hn. unfold digits6.
  assert (Hdigit : forall a, 0 <= a mod 10 <= 9)
    by (intros a; pose proof (Z.mod_pos_bound a 10 ltac:(lia)); lia).
  rewrite !fixed_digits_digit by apply Hdigit.
  cbn [fixed_digits].
  change (10 ^ 6) with 1000000 in *.
  Z.to_euclidean_division_equations. lia.
Qed.

Lemma fixed_digits_uint (d : Decimal.uint) (rest : string) :
  forall acc,
    fixed_digits acc (NilEmpty.string_of_uint d +:+ rest)
    = fixed_digits (uint_value acc d) rest.
Proof.
  induction d; intros acc; cbn [NilEmpty.string_of_uint uint_value];
    rewrite ?string_app_cons; try reflexivity;
    (erewrite fixed_digits_cons; [apply IHd | reflexivity | reflexivity]).
Qed.

Lemma fixed_digits_int (z : Z) (rest : string) :
  0 <= z ->
  fixed_digits 0 (to_string_int z +:+ rest) = fixed_digits z rest.
Proof.
  intros Hz. unfold to_string_int.
  rewrite <- (DecimalZ.of_to z) at 2.
  destruct z as [|p|p]; try lia.
  - exact (fixed_digits_uint (Decimal.D0 Decimal.Nil) rest 0).
  - change (Z.of_int (Z.to_int (Z.pos p))) with (Z.of_uint (Pos.to_uint p)).
    rewrite of_uint_value.
    exact (fixed_digits_uint (Pos.to_uint p) rest 0).
Qed.

Lemma to_string_int_not_minus (z : Z) (rest : string) :
  0 <= z ->
  millionths (to_string_int z +:+ String "." rest)
  = fixed_digits 0 (to_string_int z +:+ String "." rest).
Proof.
  intros Hz. unfold to_string_int.
  destruct z as [|p|p]; try lia; [reflexivity|].
  simpl Z.to_int. simpl NilEmpty.string_of_int.
  destruct (Pos.to_uint p); reflexivity.
Qed.

(** The rendering of [n] millionths reads back as [n]. *)
Lemma millionths_fixed6 (s : bool) (n : Z) :
  0 <= n -> millionths (fixed6 s n) = if s then - n else n.
Proof.
  intros Hn. unfold fixed6.
  assert (Hq : 0 <= n / 10 ^ 6) by (apply Z.div_pos; lia).
  assert (Hr : 0 <= n mod 10 ^ 6 < 10 ^ 6) by (apply Z.mod_pos_bound; lia).
  assert (Hread : fixed_digits 0
                    (to_string_int (n / 10 ^ 6) +:+ "." +:+ digits6 (n mod 10 ^ 6)) = n).
  { rewrite fixed_digits_int by exact Hq.
    change ("." +:+ digits6 (n mod 10 ^ 6)) with (String "." (digits6 (n mod 10 ^ 6))).
    cbn [fixed_digits]. change (Ascii.eqb "." ".") with true. cbv iota.
    rewrite fixed_digits_digits6 by exact Hr.
    pose proof (Z.div_mod n (10 ^ 6) ltac:(lia)). lia. }
  destruct s; simpl sign_string.
  - change ("-" +:+ to_string_int (n / 10 ^ 6) +:+ "." +:+ digits6 (n mod 10 ^ 6))
      with (String "-" (to_string_int (n / 10 ^ 6) +:+ "." +:+ digits6 (n mod 10 ^ 6))).
    cbn [millionths]. now rewrite Hread.
  - change (EmptyString +:+ to_string_int (n / 10 ^ 6) +:+ "."
            +:+ digits6 (n mod 10 ^ 6))
      with (to_string_int (n / 10 ^ 6) +:+ "." +:+ digits6 (n mod 10 ^ 6)).
    change ("." +:+ digits6 (n mod 10 ^ 6)) with (String "." (digits6 (n mod 10 ^ 6))).
    rewrite to_string_int_not_minus by exact Hq. exact Hread.
Qed.



(** * Further properties of the worker *)

(** ** The source's fields by lower-cased name (lines 104-123) *)

Lemma In_lookup {A} (l : list A) (x : A) : In x l <-> exists i, l !! i = Some x.
Proof. rewrite <- list_elem_of_In. apply list_elem_of_lookup. Qed.

Lemma collect_fields_other (defns : list OGRFieldDefn) (k : string) :
  forall (i : nat) (m : gmap string OgrField.t),
    (forall d, In d defns -> lowercase (GetNameRef d) <> k) ->
    collect_fields defns i m !! k = m !! k.
Proof.
  induction defns as [|d rest IH]; intros i m Hno; [reflexivity|].
  cbn [collect_fields]. rewrite IH by (intros d' Hd'; apply Hno; now right).
  apply lookup_insert_ne. apply Hno. now left.
Qed.

Lemma collect_fields_last (defns : list OGRFieldDefn) (k : string) :
  forall (i : nat) (m : gmap string OgrField.t) (j : nat) (d : OGRFieldDefn),
    defns !! j = Some d ->
    lowercase (GetNameRef d) = k ->
    (forall j' d', (j < j')%nat -> defns !! j' = Some d' -> lowercase (GetNameRef d') <> k) ->
    exists f, collect_fields defns i m !! k = Some f
              /\ OgrField.index f = (i + j)%nat
              /\ OgrField.type f = GetType d.
Proof.
  induction defns as [|d0 rest IH]; intros i m j d Hj Hk Hlast; [discriminate Hj|].
  cbn [collect_fields]. destruct j as [|j].
  - injection Hj as ->. rewrite collect_fields_other.
    + rewrite Hk, lookup_insert_eq. eexists. split; [reflexivity|].
      split; [simpl; lia | reflexivity].
    + intros d' Hd'. apply In_lookup in Hd' as [j' Hj'].
      apply (Hlast (S j') d'); [lia | exact Hj'].
  - destruct (IH (S i) (<[lowercase (GetNameRef d0) :=
                          OgrField.mk (OgrField.name
                                         (ogrFields_at m (lowercase (GetNameRef d0))))
                                      i (GetType d0)]> m) j d Hj Hk)
      as [f [Hf [Hi Ht]]].
    + intros j' d' Hlt Hj'. apply (Hlast (S j') d'); [lia | exact Hj'].
    + exists f. split; [exact Hf|]. split; [lia | exact Ht].
Qed.

Lemma last_field_named (defns : list OGRFieldDefn) (k : string) :
  (forall d, In d defns -> lowercase (GetNameRef d) <> k)
  \/ exists j d, defns !! j = Some d /\ lowercase (GetNameRef d) = k
                 /\ forall j' d', (j < j')%nat -> defns !! j' = Some d' ->
                                  lowercase (GetNameRef d') <> k.
Proof.
  induction defns as [|d0 rest IH]; [left; intros d []|].
  destruct IH as [Hno|[j [d [Hj [Hk Hlast]]]]].
  - destruct (string_dec (lowercase (GetNameRef d0)) k) as [Heq|Hne].
    + right. exists 0%nat, d0. split; [reflexivity|]. split; [exact Heq|].
      intros [|j'] d' Hlt Hj'; [lia|]. apply Hno.
      apply In_lookup. now exists j'.
    + left. intros d [<-|Hd]; [exact Hne | now apply Hno].
  - right. exists (S j), d. split; [exact Hj|]. split; [exact Hk|].
    intros [|j'] d' Hlt Hj'; [lia|]. apply (Hlast j' d'); [lia | exact Hj'].
Qed.

(** X1.  The map of source fields is keyed by lower-cased field name.  A
    key is present exactly when some field of the source has that name
    up to the case of ASCII letters; its entry then carries the position
    and the type of the last such field, so of two fields whose names
    differ only in case the later one hides the earlier one. *)
Theorem source_fields_by_lowercase_name (defns : list OGRFieldDefn) (k : string) :
  match collect_fields defns 0 ∅ !! k with
  | Some f =>
      lowercase k = k
      /\ exists j d,
           defns !! j = Some d
           /\ lowercase (GetNameRef d) = k
           /\ OgrField.index f = j
           /\ OgrField.type f = GetType d
           /\ forall j' d', (j < j')%nat -> defns !! j' = Some d' ->
                            lowercase (GetNameRef d') <> k
  | None => forall d, In d defns -> lowercase (GetNameRef d) <> k
  end.
Proof.
  destruct (last_field_named defns k) as [Hno|[j [d [Hj [Hk Hlast]]]]].
  - rewrite (collect_fields_other defns k 0 ∅ Hno), lookup_empty. exact Hno.
  - destruct (collect_fields_last defns k 0 ∅ j d Hj Hk Hlast) as [f [Hf [Hi Ht]]].
    rewrite Hf. split.
    + rewrite <- Hk. apply lowercase_idempotent.
    + exists j, d. repeat split; auto.
Qed.

(** ** The columns of the target (lines 144-178) *)

Lemma empty_true (s : string) : empty s = true <-> s = EmptyString.
Proof. destruct s; simpl; split; intros H; try reflexivity; discriminate H. Qed.

Lemma classify_field_cases ln og f acc :
  (String.eqb (Field.pgTypeName f) "geometry" = true
   /\ empty (geometryColumn acc) = false
   /\ classify_field ln og f acc = Throw (WorkerError (multiple_geometry_message ln)))
  \/ exists cols,
       classify_field ln og f acc = Ret cols
       /\ (String.eqb (Field.pgTypeName f) "geometry" = true
           -> empty (geometryColumn acc) = true)
       /\ geometryColumn cols
          = (if String.eqb (Field.pgTypeName f) "geometry" then Field.name f
             else geometryColumn acc)
       /\ insertColumns cols = insertColumns acc ++ inserted_for og f.
Proof.
  unfold classify_field, inserted_for.
  destruct (String.eqb (Field.pgTypeName f) "geometry") eqn:Hg.
  - destruct (empty (geometryColumn acc)) eqn:He; simpl.
    + right. eexists. split; [reflexivity|]. split; [auto|]. split; [reflexivity|].
      simpl. destruct (ogrFields_has og (Field.name f)); simpl;
        now rewrite <- ?app_assoc.
    + left. auto.
  - right. simpl. eexists. split; [reflexivity|]. split; [discriminate|].
    split; [reflexivity|].
    simpl. destruct (ogrFields_has og (Field.name f)); simpl;
      now rewrite ?app_nil_r.
Qed.

Lemma classify_fields_insert ln og tableFields :
  forall acc cols,
    classify_fields ln og tableFields acc = Ret cols ->
    insertColumns cols
    = insertColumns acc ++ flat_map (inserted_for og) (List.map snd tableFields).
Proof.
  induction tableFields as [|p rest IH]; intros acc cols H; simpl in H |- *.
  - injection H as <-. now rewrite app_nil_r.
  - destruct (classify_field_cases ln og (snd p) acc)
      as [[_ [_ Ht]]|[cols1 [Hc [_ [_ Hi]]]]];
      rewrite ?Ht, ?Hc in H; simpl in H; [discriminate H|].
    rewrite (IH cols1 cols H), Hi. now rewrite <- app_assoc.
Qed.

Lemma classify_fields_geometry ln og tableFields :
  Forall (fun p => Field.name (snd p) <> EmptyString) tableFields ->
  forall acc,
    let n := (length (geometry_columns tableFields)
              + (if empty (geometryColumn acc) then 0 else 1))%nat in
    ((n <= 1)%nat -> exists cols, classify_fields ln og tableFields acc = Ret cols)
    /\ ((2 <= n)%nat ->
        classify_fields ln og tableFields acc
        = Throw (WorkerError (multiple_geometry_message ln))).
Proof.
  induction 1 as [|p rest Hp Hrest IH]; intros acc n.
  - subst n. simpl. split; [eauto|]. destruct (empty (geometryColumn acc)); simpl; lia.
  - subst n. unfold geometry_columns in *. cbn [List.map List.filter classify_fields].
    destruct (classify_field_cases ln og (snd p) acc)
      as [[Hg [He Ht]]|[cols1 [Hc [He [Hgc _]]]]].
    + rewrite Hg, He, Ht. cbn [length]. split; [lia | reflexivity].
    + rewrite Hc. cbn [rbind]. specialize (IH cols1). cbv zeta in IH. rewrite Hgc in IH.
      destruct (String.eqb (Field.pgTypeName (snd p)) "geometry") eqn:Hg.
      * rewrite (He eq_refl). cbn [length].
        assert (Hne : empty (Field.name (snd p)) = false).
        { destruct (empty (Field.name (snd p))) eqn:E; [|reflexivity].
          apply empty_true in E. contradiction. }
        rewrite Hne in IH. destruct IH as [IH1 IH2].
        split; intros Hn; [apply IH1 | apply IH2]; lia.
      * exact IH.
Qed.

Lemma introspect_insert_columns (layerName : string) (ogrFields : gmap string OgrField.t)
    (tableFields : FieldMap) (cols : Columns) :
  introspect layerName ogrFields tableFields = Ret cols ->
  insertColumns cols = flat_map (inserted_for ogrFields) (List.map snd tableFields)
  /\ (forall c,
        In c (insertColumns cols)
        <-> exists f, In f (List.map snd tableFields)
                      /\ Field.name f = c
                      /\ (Field.pgTypeName f = "geometry"
                          \/ ogrFields_has ogrFields c = true))
  /\ (forall f,
        In f (List.map snd tableFields) ->
        Field.pgTypeName f = "geometry" ->
        ogrFields_has ogrFields (Field.name f) = true ->
        exists before after,
          insertColumns cols = before ++ Field.name f :: Field.name f :: after).
Proof.
  intros H. unfold introspect in H.
  destruct (classify_fields layerName ogrFields tableFields
              (mkColumns [] EmptyString [] [])) as [cols1| |] eqn:Hc;
    simpl in H; try discriminate H.
  destruct (check_primary_key layerName ogrFields cols1); simpl in H; try discriminate H.
  injection H as <-.
  apply classify_fields_insert in Hc. simpl in Hc.
  split; [exact Hc|]. split.
  - intros c. rewrite Hc, in_flat_map. unfold inserted_for. split.
    + intros [f [Hf Hin]]. exists f. split; [exact Hf|].
      apply in_app_or in Hin as [Hin|Hin].
      * destruct (String.eqb (Field.pgTypeName f) "geometry") eqn:Hg; [|destruct Hin].
        destruct Hin as [<-|[]]. split; [reflexivity|]. left. now apply String.eqb_eq.
      * destruct (ogrFields_has ogrFields (Field.name f)) eqn:Hh; [|destruct Hin].
        destruct Hin as [<-|[]]. split; [reflexivity|]. now right.
    + intros [f [Hf [<- Hor]]]. exists f. split; [exact Hf|].
      apply in_or_app. destruct Hor as [Hg|Hh].
      * left. rewrite Hg. now left.
      * right. rewrite Hh. now left.
  - intros f Hf Hg Hh. apply in_split in Hf as [l1 [l2 Hl]].
    rewrite Hc, Hl, flat_map_app. cbn [flat_map]. unfold inserted_for at 2.
    rewrite Hg, Hh. simpl.
    exists (flat_map (inserted_for ogrFields) l1), (flat_map (inserted_for ogrFields) l2).
    reflexivity.
Qed.

(** X2.  The insert columns of a target that passes the introspection,
    in the order of the target's columns: a column is listed when it is
    of type geometry and when the source has a field of its name; a
    geometry column the source also has an attribute for is listed
    twice, one entry after the other. *)
Theorem insert_columns_of_target (layerName : string) (ogrFields : gmap string OgrField.t)
    (tableFields : FieldMap) (cols : Columns) :
  introspect layerName ogrFields tableFields = Ret cols ->
  insertColumns cols = flat_map (inserted_for ogrFields) (List.map snd tableFields)
  /\ (forall c,
        In c (insertColumns cols)
        <-> exists f, In f (List.map snd tableFields)
                      /\ Field.name f = c
                      /\ (Field.pgTypeName f = "geometry"
                          \/ ogrFields_has ogrFields c = true))
  /\ (forall f,
        In f (List.map snd tableFields) ->
        Field.pgTypeName f = "geometry" ->
        ogrFields_has ogrFields (Field.name f) = true ->
        exists before after,
          insertColumns cols = before ++ Field.name f :: Field.name f :: after).
Proof.
  exact (introspect_insert_columns layerName ogrFields tableFields cols).
Qed.

Lemma insert_columns_of_target_witness :
  exists before after,
    insertColumns Cases.doubled_columns = before ++ "geom" :: "geom" :: after.
Proof.
  destruct (insert_columns_of_target "roads" (collect_fields Cases.fields_with_geom 0 ∅)
              Scenario.roads_table Cases.doubled_columns) as [_ [_ H]].
  - vm_compute. reflexivity.
  - apply (H (Field.mk "geom" "geometry" false)).
    + simpl. auto.
    + reflexivity.
    + vm_compute. reflexivity.
Defined.

(** X3.  A target with two or more geometry columns is refused with the
    message of line 157, whatever its primary key and whatever the
    source provides: the check comes before those on the primary key.
    The code knows that it has seen a geometry column by the name it
    has kept of it, so the names of the columns must not be empty. *)
Theorem multiple_geometry_columns_refused (layerName : string)
    (ogrFields : gmap string OgrField.t) (tableFields : FieldMap) :
  Forall (fun p => Field.name (snd p) <> EmptyString) tableFields ->
  (2 <= length (geometry_columns tableFields))%nat ->
  introspect layerName ogrFields tableFields
  = Throw (WorkerError ("Layer " +:+ dq +:+ layerName +:+ dq
             +:+ " has multiple geometry columns. Currently only one is supported")).
Proof.
  intros Hn Hg. unfold introspect.
  destruct (classify_fields_geometry layerName ogrFields tableFields Hn
              (mkColumns [] EmptyString [] [])) as [_ H].
  simpl in H. rewrite H by lia. reflexivity.
Qed.

Lemma multiple_geometry_columns_refused_witness :
  introspect "roads" Scenario.ogrFields Cases.two_geometries_table
  = Throw (WorkerError ("Layer " +:+ dq +:+ "roads" +:+ dq
             +:+ " has multiple geometry columns. Currently only one is supported")).
Proof.
  apply (multiple_geometry_columns_refused "roads" Scenario.ogrFields
           Cases.two_geometries_table).
  - repeat constructor; discriminate.
  - vm_compute. lia.
Defined.

(** X4.  A target without a primary-key column, and so also a target
    for which the database reports no column at all, is refused with
    the message of line 167, provided it has at most one geometry
    column. *)
Theorem target_without_primary_key_refused (layerName : string)
    (ogrFields : gmap string OgrField.t) (tableFields : FieldMap) :
  Forall (fun p => Field.name (snd p) <> EmptyString) tableFields ->
  (length (geometry_columns tableFields) <= 1)%nat ->
  pk_names tableFields = [] ->
  introspect layerName ogrFields tableFields
  = Throw (WorkerError ("Got no primarykey for layer " +:+ dq +:+ layerName +:+ dq)).
Proof.
  intros Hn Hg Hpk. unfold introspect.
  destruct (classify_fields_geometry layerName ogrFields tableFields Hn
              (mkColumns [] EmptyString [] [])) as [[cols Hc] _]; [simpl; lia|].
  rewrite Hc. simpl.
  apply classify_fields_columns in Hc as [Hk _]. simpl in Hk.
  unfold check_primary_key. rewrite Hk, Hpk. reflexivity.
Qed.

Lemma target_without_primary_key_refused_witness :
  introspect "roads" Scenario.ogrFields Cases.keyless_table
  = Throw (WorkerError ("Got no primarykey for layer " +:+ dq +:+ "roads" +:+ dq))
  /\ introspect "roads" Scenario.ogrFields []
     = Throw (WorkerError ("Got no primarykey for layer " +:+ dq +:+ "roads" +:+ dq)).
Proof.
  split.
  - apply (target_without_primary_key_refused "roads" Scenario.ogrFields
             Cases.keyless_table).
    + repeat constructor; discriminate.
    + vm_compute. lia.
    + reflexivity.
  - apply (target_without_primary_key_refused "roads" Scenario.ogrFields []).
    + constructor.
    + simpl. lia.
    + reflexivity.
Defined.

Lemma missing_nil og pk :
  missingPrimaryKeysSource og pk = [] <-> forall c, In c pk -> ogrFields_has og c = true.
Proof.
  unfold missingPrimaryKeysSource. induction pk as [|c pk IH]; simpl.
  - split; [intros _ c [] | reflexivity].
  - destruct (ogrFields_has og c) eqn:Hc; simpl.
    + rewrite IH. split.
      * intros H c' [<-|H']; auto.
      * intros H c' H'. apply H. now right.
    + split; [discriminate|]. intros H. specialize (H c (or_introl eq_refl)). congruence.
Qed.

(** X5.  The introspection accepts a target exactly when it has at
    most one geometry column, at least one primary-key column, and a
    source field for every primary-key column; the columns it then
    works with are the primary-key columns, the other columns, and the
    geometry column if there is one. *)
Theorem introspection_accepts (layerName : string) (ogrFields : gmap string OgrField.t)
    (tableFields : FieldMap) :
  Forall (fun p => Field.name (snd p) <> EmptyString) tableFields ->
  ((exists cols, introspect layerName ogrFields tableFields = Ret cols)
   <-> (length (geometry_columns tableFields) <= 1)%nat
       /\ pk_names tableFields <> []
       /\ forall c, In c (pk_names tableFields) -> ogrFields_has ogrFields c = true)
  /\ forall cols,
       introspect layerName ogrFields tableFields = Ret cols ->
       primaryKeyColumns cols = pk_names tableFields
       /\ updateColumns cols = nonpk_names tableFields
       /\ geometryColumn cols
          = match geometry_columns tableFields with
            | [] => EmptyString
            | f :: _ => Field.name f
            end.
Proof.
  intros Hn.
  pose proof (classify_fields_geometry layerName ogrFields tableFields Hn
                (mkColumns [] EmptyString [] [])) as [Hok Hmany].
  simpl in Hok, Hmany. rewrite Nat.add_0_r in Hok, Hmany.
  split; [split|].
  - intros [cols H]. unfold introspect in H.
    destruct (classify_fields layerName ogrFields tableFields
                (mkColumns [] EmptyString [] [])) as [cols1| |] eqn:Hc;
      simpl in H; try discriminate H.
    assert (Hg : (length (geometry_columns tableFields) <= 1)%nat).
    { destruct (le_lt_dec (length (geometry_columns tableFields)) 1) as [Hle|Hlt];
        [exact Hle|]. assert (Hx := Hmany ltac:(lia)). discriminate Hx. }
    split; [exact Hg|].
    apply classify_fields_columns in Hc as [Hk _]. simpl in Hk.
    unfold check_primary_key in H. rewrite Hk in H.
    destruct (pk_names tableFields) as [|c l] eqn:Hpk;
      cbv beta iota delta [rbind] in H; [discriminate H|].
    split; [discriminate|].
    apply missing_nil.
    destruct (missingPrimaryKeysSource ogrFields (c :: l)); [reflexivity|].
    discriminate H.
  - intros [Hg [Hpk Hall]].
    destruct (Hok Hg) as [cols Hc]. exists cols. unfold introspect. rewrite Hc. simpl.
    apply classify_fields_columns in Hc as [Hk _]. simpl in Hk.
    unfold check_primary_key. rewrite Hk.
    destruct (pk_names tableFields) as [|c l] eqn:Hp; [now destruct Hpk|].
    apply missing_nil in Hall. rewrite Hall. reflexivity.
  - intros cols H.
    destruct (introspect_columns _ _ _ _ H) as [Hk Hu].
    split; [exact Hk|]. split; [exact Hu|].
    unfold introspect in H.
    destruct (classify_fields layerName ogrFields tableFields
                (mkColumns [] EmptyString [] [])) as [cols1| |] eqn:Hc;
      simpl in H; try discriminate H.
    destruct (check_primary_key layerName ogrFields cols1); simpl in H;
      try discriminate H.
    injection H as <-.
    assert (Hg : (length (geometry_columns tableFields) <= 1)%nat).
    { destruct (le_lt_dec (length (geometry_columns tableFields)) 1) as [Hle|Hlt];
        [exact Hle|]. assert (Hx := Hmany ltac:(lia)). discriminate Hx. }
    clear Hok Hmany Hk Hu Hn.
    assert (Hgen : forall tf acc cols',
               classify_fields layerName ogrFields tf acc = Ret cols' ->
               geometryColumn cols'
               = match rev (geometry_columns tf) with
                 | [] => geometryColumn acc
                 | f :: _ => Field.name f
                 end).
    { induction tf as [|p rest IH]; intros acc cols' Hcl; simpl in Hcl.
      - now injection Hcl as <-.
      - destruct (classify_field_cases layerName ogrFields (snd p) acc)
          as [[_ [_ Ht]]|[cols2 [Hc2 [_ [Hgc _]]]]];
          rewrite ?Ht, ?Hc2 in Hcl; simpl in Hcl; [discriminate Hcl|].
        rewrite (IH cols2 cols' Hcl), Hgc.
        unfold geometry_columns. cbn [List.map List.filter].
        destruct (String.eqb (Field.pgTypeName (snd p)) "geometry"); [|reflexivity].
        cbn [rev].
        destruct (rev (List.filter
                         (fun f => String.eqb (Field.pgTypeName f) "geometry")
                         (List.map snd rest))); reflexivity. }
    rewrite (Hgen _ _ _ Hc). simpl.
    destruct (geometry_columns tableFields) as [|f [|f' l]]; simpl in Hg |- *;
      [reflexivity | reflexivity | lia].
Qed.

Lemma introspection_accepts_witness :
  (exists cols, introspect "roads" Scenario.ogrFields Scenario.roads_table = Ret cols)
  <-> (length (geometry_columns Scenario.roads_table) <= 1)%nat
      /\ pk_names Scenario.roads_table <> []
      /\ forall c, In c (pk_names Scenario.roads_table) ->
                   ogrFields_has Scenario.ogrFields c = true.
Proof.
  apply (introspection_accepts "roads" Scenario.ogrFields Scenario.roads_table).
  repeat constructor; discriminate.
Defined.

(** X6.  Source fields are looked up by lower-cased name, the columns of
    the target by their name as it is.  A primary-key column whose name
    has an upper-case letter is therefore never found in the source:
    whatever fields the source has, the pull is refused and the column
    is listed as missing. *)
Theorem capital_key_column_never_found (layerName : string) (defns : list OGRFieldDefn)
    (tableFields : FieldMap) (c : string) :
  let ogrFields := collect_fields defns 0 ∅ in
  let missing := missingPrimaryKeysSource ogrFields (pk_names tableFields) in
  (exists cols,
      classify_fields layerName ogrFields tableFields (mkColumns [] EmptyString [] [])
      = Ret cols) ->
  In c (pk_names tableFields) ->
  lowercase c <> c ->
  ogrFields_has ogrFields c = false
  /\ In c missing
  /\ introspect layerName ogrFields tableFields
     = Throw (WorkerError
                ("The source for layer " +:+ dq +:+ layerName +:+ dq
                 +:+ " is missing the following fields required by the primary key: "
                 +:+ StringUtils.join missing ", ")).
Proof.
  intros ogrFields missing [cols Hc] Hin Hcap.
  assert (Hhas : ogrFields_has ogrFields c = false).
  { destruct (ogrFields_has ogrFields c) eqn:Hh; [|reflexivity].
    apply collect_fields_has in Hh as [Hh|[d [_ Hd]]].
    - unfold ogrFields_has in Hh. rewrite lookup_empty in Hh. discriminate Hh.
    - destruct Hcap. rewrite <- Hd. apply lowercase_idempotent. }
  assert (Hm : In c missing).
  { unfold missing, missingPrimaryKeysSource. apply filter_In.
    split; [exact Hin|]. now rewrite Hhas. }
  split; [exact Hhas|]. split; [exact Hm|].
  rewrite (introspect_missing _ _ _ _ Hc).
  - fold missing. unfold missing_message. string_norm. reflexivity.
  - fold missing. intros E. rewrite E in Hm. destruct Hm.
Qed.

Lemma capital_key_column_never_found_witness :
  ogrFields_has (collect_fields Scenario.fields 0 ∅) "Id" = false
  /\ In "Id" (missingPrimaryKeysSource (collect_fields Scenario.fields 0 ∅)
                (pk_names Cases.capital_key_table))
  /\ introspect "roads" (collect_fields Scenario.fields 0 ∅) Cases.capital_key_table
     = Throw (WorkerError
                ("The source for layer " +:+ dq +:+ "roads" +:+ dq
                 +:+ " is missing the following fields required by the primary key: "
                 +:+ StringUtils.join
                       (missingPrimaryKeysSource (collect_fields Scenario.fields 0 ∅)
                          (pk_names Cases.capital_key_table)) ", ")).
Proof.
  apply (capital_key_column_never_found "roads" Scenario.fields
           Cases.capital_key_table "Id").
  - eexists. vm_compute. reflexivity.
  - simpl. auto.
  - vm_compute. discriminate.
Defined.

Lemma inserted_for_name og (f : Field.t) (c : string) :
  In c (inserted_for og f) -> Field.name f = c.
Proof.
  unfold inserted_for. intros H. apply in_app_or in H as [H|H].
  - destruct (String.eqb (Field.pgTypeName f) "geometry"); [|destruct H].
    now destruct H as [H|[]].
  - destruct (ogrFields_has og (Field.name f)); [|destruct H].
    now destruct H as [H|[]].
Qed.

(** X7.  A column of the target that is neither part of the primary key
    nor of type geometry and that the source has no field for is left
    out of the insert columns, so no value is ever written for it to the
    scratch table; it is an update column all the same, and the UPDATE
    statement assigns it from the scratch table. *)
Theorem unmatched_column_updated_not_inserted (layer : Layer.t) (layerName tempTableName : string)
    (ogrFields : gmap string OgrField.t) (tableFields : FieldMap) (cols : Columns)
    (f : Field.t) :
  introspect layerName ogrFields tableFields = Ret cols ->
  NoDup (List.map Field.name (List.map snd tableFields)) ->
  In f (List.map snd tableFields) ->
  Field.isPrimaryKey f = false ->
  Field.pgTypeName f <> "geometry" ->
  ogrFields_has ogrFields (Field.name f) = false ->
  ~ In (Field.name f) (insertColumns cols)
  /\ In (Field.name f) (updateColumns cols)
  /\ In (Field.name f, Sql.ColRef tempTableName (Field.name f))
        (Sql.assignments (update_ast layer tempTableName cols))
  /\ updateStmt layer tempTableName cols
     = Sql.print (update_ast layer tempTableName cols).
Proof.
  intros H Hnd Hf Hpk Hg Hh.
  destruct (introspect_insert_columns _ _ _ _ H) as [_ [Hins _]].
  destruct (introspect_columns _ _ _ _ H) as [_ Hu].
  assert (Hup : In (Field.name f) (updateColumns cols)).
  { rewrite Hu. unfold nonpk_names. apply in_map. apply filter_In.
    split; [exact Hf | now rewrite Hpk]. }
  split; [|split; [exact Hup|split; [|apply updateStmt_print]]].
  - intros Hin. apply Hins in Hin as [f' [Hf' [Hname Hor]]].
    assert (f' = f).
    { clear - Hnd Hf Hf' Hname. induction (List.map snd tableFields) as [|x l IH];
        [destruct Hf|]. simpl in Hnd. apply NoDup_cons in Hnd as [Hx Hl].
      destruct Hf as [->|Hf], Hf' as [->|Hf']; auto.
      - destruct Hx. apply list_elem_of_In. rewrite <- Hname. now apply in_map.
      - destruct Hx. apply list_elem_of_In. rewrite Hname. now apply in_map. }
    subst f'. destruct Hor as [Hor|Hor]; [contradiction | congruence].
  - simpl. apply (in_map (fun c => (c, Sql.ColRef tempTableName c))) in Hup. exact Hup.
Qed.

Lemma unmatched_column_updated_not_inserted_witness :
  ~ In "remarks"
      (insertColumns (mkColumns ["id"] "geom" ["geom"; "id"] ["geom"; "remarks"]))
  /\ In "remarks"
        (updateColumns (mkColumns ["id"] "geom" ["geom"; "id"] ["geom"; "remarks"])).
Proof.
  destruct (unmatched_column_updated_not_inserted Scenario.roads "roads" "batyr_42"
              Scenario.ogrFields Cases.remarks_table
              (mkColumns ["id"] "geom" ["geom"; "id"] ["geom"; "remarks"])
              (Field.mk "remarks" "text" false)) as [H1 [H2 _]].
  - vm_compute. reflexivity.
  - apply (bool_decide_unpack _). vm_compute. exact I.
  - simpl. auto.
  - reflexivity.
  - discriminate.
  - vm_compute. reflexivity.
  - split; [exact H1 | exact H2].
Defined.

Lemma find_key (tableFields : FieldMap) (c : string) (f : Field.t) :
  NoDup (List.map fst tableFields) ->
  In (c, f) tableFields ->
  tableFields_at tableFields c = f.
Proof.
  unfold tableFields_at. induction tableFields as [|[k g] rest IH]; intros Hnd Hin;
    [destruct Hin|].
  simpl in Hnd. apply NoDup_cons in Hnd as [Hk Hrest]. simpl.
  destruct Hin as [Heq|Hin].
  - injection Heq as -> ->. now rewrite String.eqb_refl.
  - destruct (String.eqb k c) eqn:E.
    + apply String.eqb_eq in E. subst k. destruct Hk.
      apply list_elem_of_In. apply (in_map fst) in Hin. exact Hin.
    + now apply IH.
Qed.

(** X8.  The insert columns are read back through [operator[]] of the
    two maps (lines 185, 205 and 232), which would create an entry for
    a key that is not there.  When the target's columns are keyed by
    their names, every insert column is the key of a column of the
    target, and unless that column is of type geometry the source has
    a field for it: no entry is ever made up. *)
Theorem insert_columns_resolve (layerName : string) (ogrFields : gmap string OgrField.t)
    (tableFields : FieldMap) (cols : Columns) (c : string) :
  introspect layerName ogrFields tableFields = Ret cols ->
  NoDup (List.map fst tableFields) ->
  Forall (fun p => fst p = Field.name (snd p)) tableFields ->
  In c (insertColumns cols) ->
  In (c, tableFields_at tableFields c) tableFields
  /\ Field.name (tableFields_at tableFields c) = c
  /\ (Field.pgTypeName (tableFields_at tableFields c) = "geometry"
      \/ exists entry, ogrFields !! c = Some entry
                       /\ ogrFields_at ogrFields c = entry).
Proof.
  intros H Hnd Hkeys Hin.
  destruct (introspect_insert_columns _ _ _ _ H) as [_ [Hins _]].
  apply Hins in Hin as [f [Hf [Hname Hor]]].
  apply in_map_iff in Hf as [[k g] [Hg Hp]]. simpl in Hg. subst g.
  assert (Hk : k = c).
  { pose proof (proj1 (List.Forall_forall _ _) Hkeys _ Hp) as Hkey. simpl in Hkey.
    congruence. }
  subst k. rewrite (find_key tableFields c f Hnd Hp).
  split; [exact Hp|]. split; [exact Hname|].
  destruct Hor as [Hg|Hh]; [now left|right].
  unfold ogrFields_has in Hh. unfold ogrFields_at.
  destruct (ogrFields !! c) as [entry|]; [|discriminate Hh].
  now exists entry.
Qed.

Lemma insert_columns_resolve_witness :
  In ("length", tableFields_at Scenario.roads_table "length") Scenario.roads_table
  /\ Field.name (tableFields_at Scenario.roads_table "length") = "length"
  /\ (Field.pgTypeName (tableFields_at Scenario.roads_table "length") = "geometry"
      \/ exists entry, Scenario.ogrFields !! "length" = Some entry
                       /\ ogrFields_at Scenario.ogrFields "length" = entry).
Proof.
  apply (insert_columns_resolve "roads" Scenario.ogrFields Scenario.roads_table
           Scenario.roads_columns "length").
  - vm_compute. reflexivity.
  - apply (bool_decide_unpack _). vm_compute. exact I.
  - repeat constructor.
  - simpl. auto.
Defined.

(** ** The streaming loop (lines 200-263) *)

Lemma strValues_length tf og f n ic :
  forall values, strValues tf og f n ic = Ret values -> length values = length ic.
Proof.
  induction ic as [|c ic IH]; intros values H; simpl in H.
  - now injection H as <-.
  - destruct (if String.eqb (Field.pgTypeName (tableFields_at tf c)) "geometry"
              then encode_geometry (GetGeometryRef f) n
              else field_value f (ogrFields_at og c)) as [v| |];
      simpl in H; try discriminate H.
    destruct (strValues tf og f n ic) as [vs| |]; simpl in H; try discriminate H.
    injection H as <-. simpl. now rewrite (IH vs eq_refl).
Qed.

Section Streaming.

Context {D : Type}.
Variable db : Database D.
Variable insertStmtName : string.
Variable tableFields : FieldMap.
Variable ogrFields : gmap string OgrField.t.
Variable insertColumns : list string.

Local Abbreviation the_stream :=
  (stream_features db insertStmtName tableFields ogrFields insertColumns).

Lemma stream_features_run (features : list OGRFeature) :
  forall numPulled (w : World D) r w',
    the_stream features numPulled w = (r, w') ->
    w_job w' = w_job w
    /\ exists evs,
         w_trace w' = w_trace w ++ evs
         /\ Forall (streaming_event insertStmtName (length insertColumns)) evs
         /\ executed_statements evs = []
         /\ (length (List.filter is_exec_prepared evs) <= length features)%nat
         /\ forall n,
              r = Ret n ->
              n = numPulled + Z.of_nat (length features)
              /\ length (List.filter is_exec_prepared evs) = length features
              /\ length (List.filter is_next_feature evs) = S (length features).
Proof.
  induction features as [|f rest IH]; intros numPulled w r w' H.
  - simpl in H. unfold bind, emit, ret in H; simpl in H. inversion H; subst; simpl.
    split; [reflexivity|]. exists [EvOgr OgrGetNextFeature].
    split; [reflexivity|]. split; [repeat constructor|]. split; [reflexivity|].
    split; [simpl; lia|].
    intros n Hn. injection Hn as <-. simpl. repeat split; lia.
  - cbn [stream_features] in H. unfold bind at 1, emit in H; simpl in H.
    unfold bind at 1, lift in H; simpl in H.
    destruct (strValues tableFields ogrFields f numPulled insertColumns)
      as [values| |] eqn:Hv.
    + unfold bind at 1, dbCall in H; simpl in H.
      destruct (execPrepared db insertStmtName values (w_db w)) as [[[]| |] d1] eqn:He.
      * apply IH in H as [Hj [evs [Htr [Hevs [Hex [Hle Hret]]]]]]. simpl in Hj, Htr.
        split; [exact Hj|].
        exists (EvOgr OgrGetNextFeature
                :: EvDb (DbExecPrepared insertStmtName values) :: evs).
        split; [rewrite Htr, <- !app_assoc; reflexivity|].
        split.
        { constructor; [exact I|]. constructor; [|exact Hevs].
          split; [reflexivity | now apply strValues_length in Hv]. }
        split; [exact Hex|]. split; [simpl; lia|].
        intros n Hn. destruct (Hret n Hn) as [H1 [H2 H3]]. simpl.
        repeat split; lia.
      * inversion H; subst; simpl. split; [reflexivity|].
        exists [EvOgr OgrGetNextFeature; EvDb (DbExecPrepared insertStmtName values)].
        split; [now rewrite <- app_assoc|].
        split.
        { constructor; [exact I|]. constructor; [|constructor].
          split; [reflexivity | now apply strValues_length in Hv]. }
        split; [reflexivity|]. split; [simpl; lia|]. intros n Hn; discriminate Hn.
      * inversion H; subst; simpl. split; [reflexivity|].
        exists [EvOgr OgrGetNextFeature; EvDb (DbExecPrepared insertStmtName values)].
        split; [now rewrite <- app_assoc|].
        split.
        { constructor; [exact I|]. constructor; [|constructor].
          split; [reflexivity | now apply strValues_length in Hv]. }
        split; [reflexivity|]. split; [simpl; lia|]. intros n Hn; discriminate Hn.
    + inversion H; subst; simpl. split; [reflexivity|].
      exists [EvOgr OgrGetNextFeature]. split; [reflexivity|].
      split; [repeat constructor|]. split; [reflexivity|]. split; [simpl; lia|].
      intros n Hn; discriminate Hn.
    + inversion H; subst; simpl. split; [reflexivity|].
      exists [EvOgr OgrGetNextFeature]. split; [reflexivity|].
      split; [repeat constructor|]. split; [reflexivity|]. split; [simpl; lia|].
      intros n Hn; discriminate Hn.
Qed.

End Streaming.

(** ** The work inside the transaction, step by step (lines 127-328) *)

Lemma executed_statements_app (l1 l2 : list Event) :
  executed_statements (l1 ++ l2) = executed_statements l1 ++ executed_statements l2.
Proof. unfold executed_statements. apply omap_app. Qed.

Section TransactionFacts.

Context {D : Type}.
Variable db : Database D.

Lemma reconcile_run layer tempTableName cols numPulled (w : World D) r w' :
  reconcile db layer tempTableName cols numPulled w = (r, w') ->
  exists evs,
    w_trace w' = w_trace w ++ evs
    /\ List.filter is_exec_prepared evs = []
    /\ List.filter is_next_feature evs = []
    /\ ((r = Ret tt
         /\ executed_statements evs
            = [updateStmt layer tempTableName cols;
               insertMissingStmt layer tempTableName cols;
               deleteRemovedStmt layer tempTableName cols]
         /\ exists r1 r2 r3,
              w_job w'
              = Job.setStatistics numPulled (atoi (PQcmdTuples r2))
                  (atoi (PQcmdTuples r1)) (atoi (PQcmdTuples r3))
                  (Job.setStatus Job.FINISHED
                     (Job.setStatistics numPulled 0 0 0 (w_job w))))
        \/ ((forall a, r <> Ret a)
            /\ w_job w' = Job.setStatistics numPulled 0 0 0 (w_job w)
            /\ exists k,
                 (1 <= k <= 3)%nat
                 /\ executed_statements evs
                    = take k [updateStmt layer tempTableName cols;
                              insertMissingStmt layer tempTableName cols;
                              deleteRemovedStmt layer tempTableName cols])).
Proof.
  unfold reconcile, bind at 1, setStatistics at 1, modifyJob; simpl.
  unfold bind at 1, dbCall; simpl.
  destruct (exec db (updateStmt layer tempTableName cols) (w_db w)) as [[r1| |] d1];
    simpl.
  2,3: intros H; inversion H; subst; simpl; eexists; split;
    [rewrite <- app_assoc; reflexivity|]; simpl;
    split; [reflexivity|]; split; [reflexivity|]; right;
    split; [congruence|]; split; [reflexivity|];
    first [ exists 1%nat; split; [lia | reflexivity]
          | exists 2%nat; split; [lia | reflexivity]
          | exists 3%nat; split; [lia | reflexivity] ].
  unfold bind at 1; simpl.
  destruct (exec db (insertMissingStmt layer tempTableName cols) d1) as [[r2| |] d2];
    simpl.
  2,3: intros H; inversion H; subst; simpl; eexists; split;
    [rewrite <- !app_assoc; reflexivity|]; simpl;
    split; [reflexivity|]; split; [reflexivity|]; right;
    split; [congruence|]; split; [reflexivity|];
    first [ exists 1%nat; split; [lia | reflexivity]
          | exists 2%nat; split; [lia | reflexivity]
          | exists 3%nat; split; [lia | reflexivity] ].
  unfold bind at 1; simpl.
  destruct (exec db (deleteRemovedStmt layer tempTableName cols) d2) as [[r3| |] d3];
    simpl.
  2,3: intros H; inversion H; subst; simpl; eexists; split;
    [rewrite <- !app_assoc; reflexivity|]; simpl;
    split; [reflexivity|]; split; [reflexivity|]; right;
    split; [congruence|]; split; [reflexivity|];
    first [ exists 1%nat; split; [lia | reflexivity]
          | exists 2%nat; split; [lia | reflexivity]
          | exists 3%nat; split; [lia | reflexivity] ].
  unfold bind, setStatus, setStatistics, modifyJob; simpl.
  intros H; inversion H; subst; simpl. eexists. split;
    [rewrite <- !app_assoc; reflexivity|]. simpl.
  split; [reflexivity|]. split; [reflexivity|]. left.
  split; [reflexivity|]. split; [reflexivity|]. exists r1, r2, r3. reflexivity.
Qed.

Lemma pull_transaction_run job layer ogrLayer ogrFields (w : World D) r w' :
  let features := GetFeatures ogrLayer (Job.getFilter job) in
  let tmp := "batyr_" +:+ Job.getId job in
  let stmt := "batyr_insert" +:+ Job.getId job in
  pull_transaction db job layer ogrLayer ogrFields w = (r, w') ->
  exists evs,
    w_trace w' = w_trace w ++ evs
    /\ (forall stmtName values,
          In (EvDb (DbExecPrepared stmtName values)) evs ->
          stmtName = stmt
          /\ exists tableFields cols,
               introspect (Job.getLayerName job) ogrFields tableFields = Ret cols
               /\ length values = length (insertColumns cols)
               /\ In (EvDb (DbPrepare stmt
                              (insertQuery tmp tableFields (insertColumns cols))
                              (length (insertColumns cols)))) evs)
    /\ (length (List.filter is_exec_prepared evs) <= length features)%nat
    /\ ((r = Ret tt
         /\ length (List.filter is_exec_prepared evs) = length features
         /\ length (List.filter is_next_feature evs) = S (length features)
         /\ exists tableFields cols r1 r2 r3,
              introspect (Job.getLayerName job) ogrFields tableFields = Ret cols
              /\ executed_statements evs
                 = [updateStmt layer tmp cols; insertMissingStmt layer tmp cols;
                    deleteRemovedStmt layer tmp cols]
              /\ w_job w'
                 = Job.setStatistics (Z.of_nat (length features))
                     (atoi (PQcmdTuples r2)) (atoi (PQcmdTuples r1))
                     (atoi (PQcmdTuples r3))
                     (Job.setStatus Job.FINISHED
                        (Job.setStatistics (Z.of_nat (length features)) 0 0 0
                           (w_job w))))
        \/ ((forall a, r <> Ret a)
            /\ ((w_job w' = w_job w /\ executed_statements evs = [])
                \/ (w_job w'
                    = Job.setStatistics (Z.of_nat (length features)) 0 0 0 (w_job w)
                    /\ exists tableFields cols k,
                         introspect (Job.getLayerName job) ogrFields tableFields
                         = Ret cols
                         /\ (1 <= k <= 3)%nat
                         /\ executed_statements evs
                            = take k [updateStmt layer tmp cols;
                                      insertMissingStmt layer tmp cols;
                                      deleteRemovedStmt layer tmp cols])))).
Proof.
  intros features tmp stmt.
  assert (Hearly : forall evs : list Event,
             (forall ev, In ev evs -> is_exec_prepared ev = false) ->
             executed_statements evs = [] ->
             forall (rr : Res unit) (j : Job.t), (forall a, rr <> Ret a) -> j = w_job w ->
             (forall stmtName values,
                 In (EvDb (DbExecPrepared stmtName values)) evs ->
                 stmtName = stmt
                 /\ exists tableFields cols,
                      introspect (Job.getLayerName job) ogrFields tableFields = Ret cols
                      /\ length values = length (insertColumns cols)
                      /\ In (EvDb (DbPrepare stmt
                                     (insertQuery tmp tableFields (insertColumns cols))
                                     (length (insertColumns cols)))) evs)
             /\ (length (List.filter is_exec_prepared evs) <= length features)%nat
             /\ ((rr = Ret tt
                  /\ length (List.filter is_exec_prepared evs) = length features
                  /\ length (List.filter is_next_feature evs) = S (length features)
                  /\ exists tableFields cols r1 r2 r3,
                       introspect (Job.getLayerName job) ogrFields tableFields = Ret cols
                       /\ executed_statements evs
                          = [updateStmt layer tmp cols; insertMissingStmt layer tmp cols;
                             deleteRemovedStmt layer tmp cols]
                       /\ j
                          = Job.setStatistics (Z.of_nat (length features))
                              (atoi (PQcmdTuples r2)) (atoi (PQcmdTuples r1))
                              (atoi (PQcmdTuples r3))
                              (Job.setStatus Job.FINISHED
                                 (Job.setStatistics (Z.of_nat (length features)) 0 0 0
                                    (w_job w))))
                 \/ ((forall a, rr <> Ret a)
                     /\ ((j = w_job w /\ executed_statements evs = [])
                         \/ (j = Job.setStatistics (Z.of_nat (length features)) 0 0 0
                                   (w_job w)
                             /\ exists tableFields cols k,
                                  introspect (Job.getLayerName job) ogrFields tableFields
                                  = Ret cols
                                  /\ (1 <= k <= 3)%nat
                                  /\ executed_statements evs
                                     = take k [updateStmt layer tmp cols;
                                               insertMissingStmt layer tmp cols;
                                               deleteRemovedStmt layer tmp cols]))))).
  { intros evs Hnone Hex rr j Hrr Hj. split; [|split].
    - intros nm vs Hin. apply Hnone in Hin. discriminate Hin.
    - assert (List.filter is_exec_prepared evs = []) as ->; [|simpl; lia].
      clear - Hnone. induction evs as [|ev evs IH]; [reflexivity|]. simpl.
      rewrite (Hnone ev (or_introl eq_refl)). apply IH.
      intros ev' H'. apply Hnone. now right.
    - right. split; [exact Hrr|]. left. split; [exact Hj | exact Hex]. }
  unfold pull_transaction. fold tmp stmt.
  unfold bind at 1, dbCall; simpl.
  destruct (createTempTable db _ _ _ (w_db w)) as [[[]| |] d1]; simpl.
  2,3: intros H; inversion H; subst; simpl; eexists; split; [reflexivity|];
    apply Hearly; [intros ev [<-|[]]; reflexivity | reflexivity | congruence
                  | reflexivity].
  unfold bind at 1; simpl.
  destruct (getTableFields db _ _ d1) as [[tableFields| |] d2]; simpl.
  2,3: intros H; inversion H; subst; simpl; eexists; split;
    [rewrite <- app_assoc; reflexivity|];
    apply Hearly; [intros ev [<-|[<-|[]]]; reflexivity | reflexivity | congruence
                  | reflexivity].
  unfold bind at 1, lift; simpl.
  destruct (introspect (Job.getLayerName job) ogrFields tableFields)
    as [cols| |] eqn:Hint; simpl.
  2,3: intros H; inversion H; subst; simpl; eexists; split;
    [rewrite <- app_assoc; reflexivity|];
    apply Hearly; [intros ev [<-|[<-|[]]]; reflexivity | reflexivity | congruence
                  | reflexivity].
  unfold bind at 1; simpl.
  destruct (prepare db _ _ _ d2) as [[[]| |] d3]; simpl.
  2,3: intros H; inversion H; subst; simpl; eexists; split;
    [rewrite <- !app_assoc; reflexivity|];
    apply Hearly; [intros ev [<-|[<-|[<-|[]]]]; reflexivity | reflexivity | congruence
                  | reflexivity].
  unfold bind at 1.
  match goal with
  | |- context [stream_features ?a ?b ?c ?d ?e ?f ?g ?w0] =>
      destruct (stream_features a b c d e f g w0) as [rs w4] eqn:Hs;
      destruct (stream_features_run a b c d e f g w0 _ _ Hs)
        as [Hj [sevs [Htr [Hsev [Hsex [Hsle Hsret]]]]]];
      simpl in Hj, Htr
  end.
  fold features in Hsle, Hsret.
  set (head := [EvDb (DbCreateTempTable (Layer.target_table_schema layer)
                        (Layer.target_table_name layer) tmp);
                EvDb (DbGetTableFields (Layer.target_table_schema layer)
                        (Layer.target_table_name layer));
                EvDb (DbPrepare stmt (insertQuery tmp tableFields (insertColumns cols))
                        (length (insertColumns cols)))]).
  assert (Htr4 : w_trace w4 = w_trace w ++ head ++ sevs)
    by (rewrite Htr, <- !app_assoc; reflexivity).
  assert (Hprep : forall tail stmtName values,
             List.filter is_exec_prepared tail = [] ->
             In (EvDb (DbExecPrepared stmtName values)) (head ++ sevs ++ tail) ->
             stmtName = stmt
             /\ exists tableFields cols,
                  introspect (Job.getLayerName job) ogrFields tableFields = Ret cols
                  /\ length values = length (insertColumns cols)
                  /\ In (EvDb (DbPrepare stmt
                                 (insertQuery tmp tableFields (insertColumns cols))
                                 (length (insertColumns cols))))
                        (head ++ sevs ++ tail)).
  { intros tail nm vs Htail Hin.
    apply in_app_or in Hin as [Hin|Hin];
      [destruct Hin as [Hin|[Hin|[Hin|[]]]]; discriminate Hin|].
    apply in_app_or in Hin as [Hin|Hin].
    - pose proof (proj1 (List.Forall_forall _ _) Hsev _ Hin) as [Hnm Hlen].
      simpl in Hnm, Hlen. split; [exact Hnm|].
      exists tableFields, cols. split; [exact Hint|]. split; [exact Hlen|].
      apply in_or_app. left. simpl. auto.
    - assert (In (EvDb (DbExecPrepared nm vs)) (List.filter is_exec_prepared tail))
        by (apply filter_In; split; [exact Hin | reflexivity]).
      rewrite Htail in H. destruct H. }
  assert (Hcount : forall tail,
             List.filter is_exec_prepared tail = [] ->
             List.filter is_exec_prepared (head ++ sevs ++ tail)
             = List.filter is_exec_prepared sevs).
  { intros tail Htail. rewrite !List.filter_app, Htail, app_nil_r. reflexivity. }
  destruct rs as [n| |].
  - intros H. apply reconcile_run in H
      as [revs [Hrtr [Hrex [Hrnext Hcases]]]].
    destruct (Hsret n eq_refl) as [Hn [Hcnt Hnext]]. simpl in Hn. subst n.
    exists (head ++ sevs ++ revs).
    split; [rewrite Hrtr, Htr4, <- !app_assoc; reflexivity|].
    split; [intros nm vs; apply Hprep; exact Hrex|].
    rewrite (Hcount revs Hrex).
    split; [exact Hsle|].
    assert (Hstm : executed_statements (head ++ sevs ++ revs)
                   = executed_statements revs).
    { rewrite !executed_statements_app, Hsex. reflexivity. }
    destruct Hcases as [[Hr [Hst [r1 [r2 [r3 Hjob]]]]]|[Hr [Hjob [k [Hk Hst]]]]].
    + left. split; [exact Hr|]. split; [exact Hcnt|].
      split.
      { rewrite !List.filter_app, Hrnext, app_nil_r. simpl. exact Hnext. }
      exists tableFields, cols, r1, r2, r3. split; [exact Hint|].
      split; [rewrite Hstm; exact Hst|]. rewrite Hjob, Hj. reflexivity.
    + right. split; [exact Hr|]. right. split; [rewrite Hjob, Hj; reflexivity|].
      exists tableFields, cols, k. split; [exact Hint|]. split; [exact Hk|].
      rewrite Hstm. exact Hst.
  - intros H; inversion H; subst. exists (head ++ sevs ++ []).
    split; [rewrite app_nil_r; exact Htr4|].
    split; [intros nm vs; apply Hprep; reflexivity|].
    rewrite (Hcount [] eq_refl). split; [exact Hsle|].
    right. split; [congruence|]. left. split; [exact Hj|].
    rewrite !executed_statements_app, Hsex. reflexivity.
  - intros H; inversion H; subst. exists (head ++ sevs ++ []).
    split; [rewrite app_nil_r; exact Htr4|].
    split; [intros nm vs; apply Hprep; reflexivity|].
    rewrite (Hcount [] eq_refl). split; [exact Hsle|].
    right. split; [congruence|]. left. split; [exact Hj|].
    rewrite !executed_statements_app, Hsex. reflexivity.
Qed.

End TransactionFacts.

Lemma opening_events_no_statement (evs : list Event) :
  Forall opening_event evs ->
  executed_statements evs = [] /\ List.filter is_exec_prepared evs = [].
Proof.
  induction 1 as [|ev evs Hev _ [IH1 IH2]]; [split; reflexivity|].
  destruct ev as [j|c|c]; simpl in Hev; try destruct Hev.
  simpl. split; [exact IH1 | exact IH2].
Qed.

Section PullRun.

Context {D : Type}.
Variable GDAL_VERSION_MAJOR : Z.
Variable configuration : Configuration.
Variable ogr : OGRSFDriverRegistrar.
Variable db : Database D.

Lemma pull_run (job : Job.t) (w : World D) r w' :
  pull GDAL_VERSION_MAJOR configuration ogr db job w = (r, w') ->
  pulled (w_job w) r (w_job w').
Proof.
  unfold pull, bind at 1.
  destruct (open_source GDAL_VERSION_MAJOR configuration ogr job w)
    as [[[layer ogrLayer]| |] w1] eqn:Hos;
    destruct (open_source_frame GDAL_VERSION_MAJOR configuration ogr job w _ _ Hos)
      as [Hj _].
  2,3: intros H; inversion H; subst; rewrite <- Hj; apply PulledStopped; congruence.
  unfold bind at 1, dbCall.
  destruct (getTransaction db (w_db w1)) as [[[|]| |] d2]; simpl.
  - intros H. apply pull_transaction_run in H as [evs [_ [_ [_ Hcases]]]].
    simpl in Hcases. rewrite <- Hj in Hcases.
    destruct Hcases as [[-> [_ [_ [tf [cols [r1 [r2 [r3 [_ [_ ->]]]]]]]]]]
                       |[Hr [[-> _]|[-> _]]]].
    + apply PulledFinished.
    + now apply PulledStopped.
    + now apply PulledStoppedLate.
  - unfold bind, setStatus, setMessage, modifyJob; simpl.
    intros H; inversion H; subst; simpl. rewrite <- Hj. apply PulledNoTransaction.
  - intros H; inversion H; subst; simpl. rewrite <- Hj. apply PulledStopped; congruence.
  - intros H; inversion H; subst; simpl. rewrite <- Hj. apply PulledStopped; congruence.
Qed.

Lemma reconnect_loop_run (w : World D) r w' :
  reconnect_loop db w = (r, w') ->
  (w_job w' = w_job w \/ w_job w' = Job.setMessage waiting_message (w_job w))
  /\ forall a, r = Ret a -> exists n d, reconnect db (w_db w) = (Connected n, d).
Proof.
  unfold reconnect_loop, bind at 1, dbCall; simpl.
  destruct (reconnect db (w_db w)) as [[[|n]|[|n] e|] d1]; simpl.
  - unfold ret. intros H; inversion H; subst; simpl. split; [now left|]. eauto.
  - unfold bind at 1, setMessage at 1, modifyJob; simpl.
    unfold bind at 1, emit; simpl. rewrite emit_all_run; simpl.
    intros H; inversion H; subst; simpl. split; [now right|]. eauto.
  - unfold throw. intros H; inversion H; subst; simpl. split; [now left|].
    intros a Ha; discriminate Ha.
  - unfold bind at 1, setMessage at 1, modifyJob; simpl.
    unfold bind at 1. unfold bind at 1, emit; simpl. rewrite emit_all_run; simpl.
    unfold throw.
    intros H; inversion H; subst; simpl. split; [now right|].
    intros a Ha; discriminate Ha.
  - unfold bind, setMessage, modifyJob, lift; simpl.
    intros H; inversion H; subst; simpl. split; [now right|].
    intros a Ha; discriminate Ha.
Qed.

(** The body of the [try] block: the job is marked IN_PROCESS, the
    wait for the database may leave its message, and the pull, if it
    is reached, starts from a cleared message. *)
Lemma process_job_run (w : World D) r w1 :
  process_job GDAL_VERSION_MAJOR configuration ogr db w = (r, w1) ->
  exists jw,
    (jw = Job.setStatus Job.IN_PROCESS (w_job w)
     \/ jw = Job.setMessage waiting_message (Job.setStatus Job.IN_PROCESS (w_job w)))
    /\ (pulled (Job.setMessage EmptyString jw) r (w_job w1)
        \/ ((forall a, r <> Ret a) /\ w_job w1 = jw)).
Proof.
  unfold process_job, bind at 1, setStatus at 1, modifyJob; simpl.
  unfold bind at 1.
  match goal with
  | |- context [reconnect_loop db ?w0] =>
      destruct (reconnect_loop db w0) as [[[]| |] w2] eqn:Hr;
      destruct (reconnect_loop_run w0 _ _ Hr) as [Hjw _]; simpl in Hjw
  end.
  - unfold bind at 1, setMessage, modifyJob; simpl. unfold bind, getJob; simpl.
    intros H. apply pull_run in H. simpl in H.
    exists (w_job w2). split; [exact Hjw|]. left. exact H.
  - intros H; inversion H; subst. exists (w_job w1). split; [exact Hjw|].
    right. split; [congruence | reflexivity].
  - intros H; inversion H; subst. exists (w_job w1). split; [exact Hjw|].
    right. split; [congruence | reflexivity].
Qed.

(** One iteration of the loop, by the way it ends. *)
Lemma run_job_run (w : World D) r w' :
  run_job GDAL_VERSION_MAJOR configuration ogr db w = (r, w') ->
  (r = Ret tt
   /\ Job.getStatus (w_job w') = Job.FINISHED
   /\ Job.getMessage (w_job w') = EmptyString)
  \/ ((r = Ret tt
       \/ exists what, r = Throw (runtime_error what)
                       /\ Job.getMessage (w_job w') = what)
      /\ Job.getStatus (w_job w') = Job.FAILED
      /\ (Job.getStatistics (w_job w') = Job.getStatistics (w_job w)
          \/ exists n, Job.getStatistics (w_job w') = Job.mkStatistics n 0 0 0))
  \/ ((r = Throw other_exception \/ r = Blocked)
      /\ Job.getStatus (w_job w') = Job.IN_PROCESS
      /\ (Job.getStatistics (w_job w') = Job.getStatistics (w_job w)
          \/ exists n, Job.getStatistics (w_job w') = Job.mkStatistics n 0 0 0)).
Proof.
  unfold run_job.
  destruct (process_job GDAL_VERSION_MAJOR configuration ogr db w) as [r1 w1] eqn:Hp.
  apply process_job_run in Hp as [jw [Hjw Hcases]].
  assert (Hstat : Job.getStatus jw = Job.IN_PROCESS
                  /\ Job.getStatistics jw = Job.getStatistics (w_job w))
    by (destruct Hjw as [->| ->]; split; reflexivity).
  destruct Hstat as [Hst Hcnt].
  assert (Hw1 : (r1 = Ret tt /\ Job.getStatus (w_job w1) = Job.FINISHED
                 /\ Job.getMessage (w_job w1) = EmptyString)
                \/ (r1 = Ret tt /\ Job.getStatus (w_job w1) = Job.FAILED
                    /\ Job.getStatistics (w_job w1) = Job.getStatistics (w_job w))
                \/ ((forall a, r1 <> Ret a)
                    /\ Job.getStatus (w_job w1) = Job.IN_PROCESS
                    /\ (Job.getStatistics (w_job w1) = Job.getStatistics (w_job w)
                        \/ exists n, Job.getStatistics (w_job w1)
                                     = Job.mkStatistics n 0 0 0))).
  { destruct Hcases as [Hp|[Hr ->]].
    - inversion Hp; subst; simpl.
      + left. auto.
      + right; left. auto.
      + right; right. auto.
      + right; right. split; [assumption|]. split; [exact Hst|]. right. eauto.
    - right; right. auto. }
  destruct Hw1 as [[-> [H1 H2]]|[[-> [H1 H2]]|[Hr [H1 H2]]]].
  - intros H; inversion H; subst. left. auto.
  - intros H; inversion H; subst. right; left. auto.
  - destruct r1 as [a|[what|what|what|]|]; [destruct (Hr a eq_refl)| | | | |].
    + unfold bind, setStatus, setMessage, modifyJob; simpl.
      intros H; inversion H; subst; simpl. right; left. auto.
    + unfold bind, setStatus, setMessage, modifyJob; simpl.
      intros H; inversion H; subst; simpl. right; left. auto.
    + unfold bind, setStatus, setMessage, modifyJob, throw; simpl.
      intros H; inversion H; subst; simpl. right; left. split; [eauto|]. auto.
    + intros H; inversion H; subst. right; right. auto.
    + intros H; inversion H; subst. right; right. auto.
Qed.

End PullRun.

Lemma insertQueryValues_length tf ic :
  forall idx, length (insertQueryValues tf ic idx) = length ic.
Proof.
  induction ic as [|c ic IH]; intros idx; simpl; [reflexivity|]. now rewrite IH.
Qed.

(** X9.  Inside the transaction, every execution of the prepared insert
    statement names the statement prepared for this job and passes as
    many values as the statement was prepared with parameters, which
    is also the number of placeholders in its text: one for each insert
    column. *)
Theorem prepared_insert_gets_its_parameters {D : Type} (db : Database D) (job : Job.t)
    (layer : Layer.t) (ogrLayer : OGRLayer) (ogrFields : gmap string OgrField.t)
    (w : World D) r w' :
  pull_transaction db job layer ogrLayer ogrFields w = (r, w') ->
  exists evs,
    w_trace w' = w_trace w ++ evs
    /\ forall stmtName values,
         In (EvDb (DbExecPrepared stmtName values)) evs ->
         stmtName = "batyr_insert" +:+ Job.getId job
         /\ exists tableFields cols,
              introspect (Job.getLayerName job) ogrFields tableFields = Ret cols
              /\ length values = length (insertColumns cols)
              /\ length (insertQueryValues tableFields (insertColumns cols) 1)
                 = length values
              /\ In (EvDb (DbPrepare stmtName
                             (insertQuery ("batyr_" +:+ Job.getId job) tableFields
                                (insertColumns cols))
                             (length values))) evs.
Proof.
  intros H. apply pull_transaction_run in H as [evs [Htr [Hprep _]]].
  exists evs. split; [exact Htr|].
  intros nm vs Hin. destruct (Hprep nm vs Hin) as [-> [tf [cols [Hi [Hlen Hp]]]]].
  split; [reflexivity|]. exists tf, cols. split; [exact Hi|]. split; [exact Hlen|].
  split; [now rewrite insertQueryValues_length|]. now rewrite Hlen.
Qed.

Lemma prepared_insert_gets_its_parameters_witness :
  exists evs,
    w_trace (snd (pull_transaction Cases.roads_database (Scenario.job EmptyString)
                    Scenario.roads Cases.one_feature Scenario.ogrFields
                    (Scenario.world EmptyString)))
    = w_trace (Scenario.world EmptyString) ++ evs
    /\ forall stmtName values,
         In (EvDb (DbExecPrepared stmtName values)) evs ->
         stmtName = "batyr_insert" +:+ "42".
Proof.
  destruct (prepared_insert_gets_its_parameters Cases.roads_database
              (Scenario.job EmptyString) Scenario.roads Cases.one_feature
              Scenario.ogrFields (Scenario.world EmptyString) _ _
              (surjective_pairing _)) as [evs [Htr H]].
  exists evs. split; [exact Htr|].
  intros nm vs Hin. exact (proj1 (H nm vs Hin)).
Defined.

(** X10.  The number of features the source delivers under the job's
    filter bounds the number of rows written to the scratch table; when
    the work inside the transaction completes, exactly that many rows
    have been written, the source has been asked once more for a
    feature, and the job reports that number as pulled. *)
Theorem pulled_counts_the_features {D : Type} (db : Database D) (job : Job.t)
    (layer : Layer.t) (ogrLayer : OGRLayer) (ogrFields : gmap string OgrField.t)
    (w : World D) r w' :
  let features := GetFeatures ogrLayer (Job.getFilter job) in
  pull_transaction db job layer ogrLayer ogrFields w = (r, w') ->
  exists evs,
    w_trace w' = w_trace w ++ evs
    /\ (length (List.filter is_exec_prepared evs) <= length features)%nat
    /\ (r = Ret tt ->
        Job.getStatus (w_job w') = Job.FINISHED
        /\ Job.numPulled (Job.getStatistics (w_job w')) = Z.of_nat (length features)
        /\ length (List.filter is_exec_prepared evs) = length features
        /\ length (List.filter is_next_feature evs) = S (length features)).
Proof.
  intros features H. apply pull_transaction_run in H as [evs [Htr [_ [Hle Hcases]]]].
  exists evs. split; [exact Htr|]. split; [exact Hle|].
  intros ->. destruct Hcases as [[_ [H1 [H2 [tf [cols [r1 [r2 [r3 [_ [_ ->]]]]]]]]]]
                                |[Hr _]]; [|now destruct (Hr tt)].
  simpl. auto.
Qed.

Lemma pulled_counts_the_features_witness :
  Job.numPulled
    (Job.getStatistics
       (w_job (snd (pull_transaction Cases.roads_database (Scenario.job EmptyString)
                      Scenario.roads Cases.one_feature Scenario.ogrFields
                      (Scenario.world EmptyString))))) = 1.
Proof.
  destruct (pulled_counts_the_features Cases.roads_database
              (Scenario.job EmptyString) Scenario.roads Cases.one_feature
              Scenario.ogrFields (Scenario.world EmptyString) _ _
              (surjective_pairing _)) as [evs [_ [_ H]]].
  destruct H as [_ [H _]]; [vm_compute; reflexivity|].
  exact H.
Defined.

(** X11.  The statements of the reconciliation are handed to the
    database in the order UPDATE, INSERT, DELETE, each only after the
    one before has succeeded, and nothing else is executed directly:
    a pull has executed none of them, or a beginning of that sequence,
    and all three when the work inside the transaction completes. *)
Theorem reconciliation_statements_in_order {D : Type} (db : Database D) (job : Job.t)
    (layer : Layer.t) (ogrLayer : OGRLayer) (ogrFields : gmap string OgrField.t)
    (w : World D) r w' :
  let tmp := "batyr_" +:+ Job.getId job in
  pull_transaction db job layer ogrLayer ogrFields w = (r, w') ->
  exists evs,
    w_trace w' = w_trace w ++ evs
    /\ (executed_statements evs = []
        \/ exists tableFields cols k,
             introspect (Job.getLayerName job) ogrFields tableFields = Ret cols
             /\ (1 <= k <= 3)%nat
             /\ executed_statements evs
                = take k [updateStmt layer tmp cols; insertMissingStmt layer tmp cols;
                          deleteRemovedStmt layer tmp cols])
    /\ (r = Ret tt ->
        exists tableFields cols,
          introspect (Job.getLayerName job) ogrFields tableFields = Ret cols
          /\ executed_statements evs
             = [updateStmt layer tmp cols; insertMissingStmt layer tmp cols;
                deleteRemovedStmt layer tmp cols]).
Proof.
  intros tmp H. apply pull_transaction_run in H as [evs [Htr [_ [_ Hcases]]]].
  exists evs. split; [exact Htr|].
  destruct Hcases as [[-> [_ [_ [tf [cols [r1 [r2 [r3 [Hi [Hex _]]]]]]]]]]
                     |[Hr [[_ Hex]|[_ [tf [cols [k [Hi [Hk Hex]]]]]]]]].
  - split; [|intros _; exists tf, cols; auto].
    right. exists tf, cols, 3%nat. split; [exact Hi|]. split; [lia | exact Hex].
  - split; [now left|]. intros ->. now destruct (Hr tt).
  - split; [|intros ->; now destruct (Hr tt)].
    right. exists tf, cols, k. auto.
Qed.

Lemma reconciliation_statements_in_order_witness :
  exists evs,
    w_trace (snd (pull_transaction Cases.roads_database (Scenario.job "id > 0")
                    Scenario.roads Cases.one_feature Scenario.ogrFields
                    (Scenario.world "id > 0")))
    = w_trace (Scenario.world "id > 0") ++ evs
    /\ exists tableFields cols,
         introspect "roads" Scenario.ogrFields tableFields = Ret cols
         /\ executed_statements evs
            = [updateStmt Scenario.roads ("batyr_" +:+ "42") cols;
               insertMissingStmt Scenario.roads ("batyr_" +:+ "42") cols;
               deleteRemovedStmt Scenario.roads ("batyr_" +:+ "42") cols].
Proof.
  destruct (reconciliation_statements_in_order Cases.roads_database
              (Scenario.job "id > 0") Scenario.roads Cases.one_feature
              Scenario.ogrFields (Scenario.world "id > 0") _ _
              (surjective_pairing _)) as [evs [Htr [_ H]]].
  exists evs. split; [exact Htr|].
  apply H. vm_compute. reflexivity.
Defined.

(** ** Attributes by the type of their field (lines 232-246) *)

Lemma strValues_outcome tf og f n ic :
  (exists values, strValues tf og f n ic = Ret values)
  \/ exists what, strValues tf og f n ic = Throw (WorkerError what).
Proof.
  induction ic as [|c ic IH]; simpl; [left; eauto|].
  destruct (String.eqb (Field.pgTypeName (tableFields_at tf c)) "geometry").
  - unfold encode_geometry.
    destruct (negb (CPLMalloc_ok (GetGeometryRef f))); simpl; [right; eauto|].
    destruct (exportToWkb (GetGeometryRef f)); simpl; [|right; eauto].
    destruct (negb (CPLBinaryToHex_ok (GetGeometryRef f))); simpl; [right; eauto|].
    destruct IH as [[vs ->]|[what ->]]; simpl; [left|right]; eauto.
  - unfold field_value.
    destruct (OgrField.type (ogrFields_at og c)); simpl;
      try (right; eexists; reflexivity);
      (destruct IH as [[vs ->]|[what ->]]; simpl; [left|right]; eauto).
Qed.

Lemma field_value_unsupported f (entry : OgrField.t) :
  supported (OgrField.type entry) = false ->
  field_value f entry
  = Throw (WorkerError ("Unsupported OGR field type: "
                        +:+ to_string_int (OGRFieldType_tag (OgrField.type entry)))).
Proof.
  unfold field_value. destruct (OgrField.type entry); simpl; intros H;
    try discriminate H; reflexivity.
Qed.

Lemma strValues_unsupported tf og f n c :
  Field.pgTypeName (tableFields_at tf c) <> "geometry" ->
  supported (OgrField.type (ogrFields_at og c)) = false ->
  forall ic,
    In c ic ->
    (forall values, strValues tf og f n ic <> Ret values)
    /\ forall before after values,
         ic = before ++ c :: after ->
         strValues tf og f n before = Ret values ->
         strValues tf og f n ic
         = Throw (WorkerError
                    ("Unsupported OGR field type: "
                     +:+ to_string_int
                           (OGRFieldType_tag (OgrField.type (ogrFields_at og c))))).
Proof.
  intros Hg Hu.
  assert (Hhere : forall rest,
             strValues tf og f n (c :: rest)
             = Throw (WorkerError
                        ("Unsupported OGR field type: "
                         +:+ to_string_int
                               (OGRFieldType_tag (OgrField.type (ogrFields_at og c)))))).
  { intros rest. cbn [strValues].
    destruct (String.eqb (Field.pgTypeName (tableFields_at tf c)) "geometry") eqn:E;
      [apply String.eqb_eq in E; contradiction|].
    now rewrite (field_value_unsupported f _ Hu). }
  intros ic Hin. split.
  - induction ic as [|c0 ic IH]; [destruct Hin|].
    destruct Hin as [->|Hin]; [intros values; rewrite Hhere; discriminate|].
    intros values. cbn [strValues].
    destruct (if String.eqb (Field.pgTypeName (tableFields_at tf c0)) "geometry"
              then encode_geometry (GetGeometryRef f) n
              else field_value f (ogrFields_at og c0)) as [v| |]; simpl;
      try discriminate.
    destruct (strValues tf og f n ic) as [vs| |] eqn:Hvs; simpl; try discriminate.
    destruct (IH Hin vs eq_refl).
  - intros before after. revert ic Hin.
    induction before as [|c0 before IH]; intros ic Hin values -> Hb.
    + apply Hhere.
    + cbn [strValues app] in Hb |- *.
      destruct (if String.eqb (Field.pgTypeName (tableFields_at tf c0)) "geometry"
                then encode_geometry (GetGeometryRef f) n
                else field_value f (ogrFields_at og c0)) as [v| |]; simpl in Hb |- *;
        try discriminate Hb.
      destruct (strValues tf og f n before) as [vs| |] eqn:Hvs; simpl in Hb;
        try discriminate Hb.
      rewrite (IH (before ++ c :: after) ltac:(apply in_or_app; right; now left)
                 vs eq_refl eq_refl).
      reflexivity.
Qed.

(** X12.  Only fields of type String, Integer and Real can be pulled.
    An insert column whose source field is of another type stops the
    pull at the first feature, before anything is written for it, with
    a WorkerError; when nothing before that column fails, the message
    names the numeric tag of the type.  The type is looked at only
    when a feature is read: a source without features passes. *)
Theorem unsupported_field_type_stops_stream {D : Type} (db : Database D)
    (insertStmtName : string) (tableFields : FieldMap) (ogrFields : gmap string OgrField.t)
    (insertColumns : list string) (c : string) (ogrFeature : OGRFeature)
    (rest : list OGRFeature) (numPulled : Z) (w : World D) :
  In c insertColumns ->
  Field.pgTypeName (tableFields_at tableFields c) <> "geometry" ->
  supported (OgrField.type (ogrFields_at ogrFields c)) = false ->
  (exists what,
      stream_features db insertStmtName tableFields ogrFields insertColumns
        (ogrFeature :: rest) numPulled w
      = (Throw (WorkerError what),
         mkWorld (w_job w) (w_db w) (w_trace w ++ [EvOgr OgrGetNextFeature])))
  /\ (forall before after values,
        insertColumns = before ++ c :: after ->
        strValues tableFields ogrFields ogrFeature numPulled before = Ret values ->
        stream_features db insertStmtName tableFields ogrFields insertColumns
          (ogrFeature :: rest) numPulled w
        = (Throw (WorkerError
                    ("Unsupported OGR field type: "
                     +:+ to_string_int
                           (OGRFieldType_tag
                              (OgrField.type (ogrFields_at ogrFields c))))),
           mkWorld (w_job w) (w_db w) (w_trace w ++ [EvOgr OgrGetNextFeature])))
  /\ stream_features db insertStmtName tableFields ogrFields insertColumns []
       numPulled w
     = (Ret numPulled,
        mkWorld (w_job w) (w_db w) (w_trace w ++ [EvOgr OgrGetNextFeature])).
Proof.
  intros Hin Hg Hu.
  destruct (strValues_unsupported tableFields ogrFields ogrFeature numPulled c Hg Hu
              insertColumns Hin) as [Hno Hmsg].
  split; [|split].
  - destruct (strValues_outcome tableFields ogrFields ogrFeature numPulled insertColumns)
      as [[vs Hv]|[what Hv]]; [destruct (Hno vs Hv)|].
    exists what. cbn [stream_features]. unfold bind, emit, lift; simpl.
    now rewrite Hv.
  - intros before after values Hic Hb.
    cbn [stream_features]. unfold bind, emit, lift; simpl.
    now rewrite (Hmsg before after values Hic Hb).
  - reflexivity.
Qed.

Lemma unsupported_field_type_stops_stream_witness :
  stream_features Cases.roads_database "batyr_insert42" Cases.dated_table
    Cases.dated_fields ["built"; "id"]
    [Scenario.feature Scenario.point_geometry] 0 (Scenario.world EmptyString)
  = (Throw (WorkerError ("Unsupported OGR field type: " +:+ to_string_int 9)),
     mkWorld (Scenario.job EmptyString) 0%nat [EvOgr OgrGetNextFeature]).
Proof.
  destruct (unsupported_field_type_stops_stream Cases.roads_database "batyr_insert42"
              Cases.dated_table Cases.dated_fields ["built"; "id"] "built"
              (Scenario.feature Scenario.point_geometry) [] 0
              (Scenario.world EmptyString)) as [_ [H _]].
  - simpl. auto.
  - vm_compute. discriminate.
  - vm_compute. reflexivity.
  - exact (H [] ["id"] [] eq_refl eq_refl).
Defined.

Lemma atoi_to_string_int_any (z : Z) : atoi (to_string_int z) = z.
Proof.
  destruct (Z_le_gt_dec 0 z) as [Hz|Hz]; [now apply atoi_to_string_int|].
  destruct z as [|p|p]; try lia.
  pose proof (DecimalZ.of_to (Z.neg p)) as Hof.
  change (Z.of_int (Z.to_int (Z.neg p))) with (- Z.of_uint (Pos.to_uint p)) in Hof.
  unfold to_string_int.
  change (NilEmpty.string_of_int (Z.to_int (Z.neg p)))
    with (String "-" (NilEmpty.string_of_uint (Pos.to_uint p))).
  change (atoi (String "-" (NilEmpty.string_of_uint (Pos.to_uint p))))
    with (- atoi_digits 0 (NilEmpty.string_of_uint (Pos.to_uint p))).
  now rewrite atoi_digits_uint, <- of_uint_value.
Qed.

(** X13.  An attribute of an Integer field is written as the decimal
    text of its value: the text reads back as the value, and different
    values give different texts, negative ones included. *)
Theorem integer_field_rendered_exactly (ogrFeature other : OGRFeature) (name : string)
    (index : nat) :
  let ogrField := OgrField.mk name index OFTInteger in
  exists text,
    field_value ogrFeature ogrField = Ret text
    /\ atoi text = GetFieldAsInteger ogrFeature index
    /\ (field_value other ogrField = Ret text
        <-> GetFieldAsInteger other index = GetFieldAsInteger ogrFeature index).
Proof.
  intros ogrField. exists (to_string_int (GetFieldAsInteger ogrFeature index)).
  split; [reflexivity|]. split; [apply atoi_to_string_int_any|].
  unfold field_value; simpl. split.
  - intros H. injection H as H. now apply to_string_int_inj.
  - intros ->. reflexivity.
Qed.

(** ** Failures before the transaction (lines 53-67, 126 and 330-335) *)

(** X14.  When the database hands out no transaction, the pull does
    not throw: it marks the job FAILED with the message of line 331 and
    returns, so the loop goes on with the next job.  Nothing has been
    asked of the database but the transaction. *)
Theorem no_transaction_fails_job {D : Type} (GDAL_VERSION_MAJOR : Z)
    (configuration : Configuration) (ogr : OGRSFDriverRegistrar) (db : Database D)
    (job : Job.t) (w w1 : World D) layer ogrLayer d2 :
  open_source GDAL_VERSION_MAJOR configuration ogr job w = (Ret (layer, ogrLayer), w1) ->
  getTransaction db (w_db w1) = (Ret false, d2) ->
  let failed :=
    Job.setMessage "Could not start a database transaction"
      (Job.setStatus Job.FAILED (w_job w)) in
  pull GDAL_VERSION_MAJOR configuration ogr db job w
  = (Ret tt,
     mkWorld failed d2
       (w_trace w1
        ++ [EvDb DbGetTransaction; EvJob (Job.setStatus Job.FAILED (w_job w));
            EvJob failed]))
  /\ Job.getStatus failed = Job.FAILED
  /\ Job.getMessage failed = "Could not start a database transaction"
  /\ Job.getStatistics failed = Job.getStatistics (w_job w)
  /\ exists evs, w_trace w1 = w_trace w ++ evs /\ Forall opening_event evs.
Proof.
  intros Hos Htx failed.
  destruct (open_source_frame GDAL_VERSION_MAJOR configuration ogr job w _ _ Hos)
    as [Hj Hevs].
  split; [|repeat split; auto].
  unfold pull. rewrite (bind_Ret _ _ _ _ _ Hos).
  unfold bind at 1, dbCall. rewrite Htx; simpl.
  unfold bind, setStatus, setMessage, modifyJob; simpl.
  unfold failed. rewrite <- Hj, <- !app_assoc. reflexivity.
Qed.

Lemma no_transaction_fails_job_witness :
  fst (pull 2 Scenario.configuration (Scenario.registrar Cases.one_feature)
         Cases.no_transaction_database (Scenario.job EmptyString)
         (Scenario.world EmptyString)) = Ret tt.
Proof.
  pose (v := ltac:(let v := eval vm_compute in
                     (open_source (D := nat) 2 Scenario.configuration
                        (Scenario.registrar Cases.one_feature)
                        (Scenario.job EmptyString) (Scenario.world EmptyString)) in
                   exact v)).
  assert (Hos : open_source 2 Scenario.configuration
                  (Scenario.registrar Cases.one_feature)
                  (Scenario.job EmptyString) (Scenario.world EmptyString) = v)
    by (vm_compute; reflexivity).
  unfold v in Hos. clear v.
  destruct (no_transaction_fails_job 2 Scenario.configuration _
              Cases.no_transaction_database (Scenario.job EmptyString)
              (Scenario.world EmptyString) _ _ _ 1%nat Hos eq_refl) as [H _].
  now rewrite H.
Defined.

(** X15.  A source that cannot be opened, or that lacks the configured
    layer, stops the pull with a WorkerError naming the layer before
    anything is asked of the database and before the job record is
    touched. *)
Theorem unopened_source_stops_pull {D : Type} (GDAL_VERSION_MAJOR : Z)
    (configuration : Configuration) (ogr : OGRSFDriverRegistrar) (db : Database D)
    (job : Job.t) (w : World D) (layer : Layer.t) :
  getLayer configuration (Job.getLayerName job) = Ret layer ->
  (Open ogr (Layer.source layer) = None ->
   pull GDAL_VERSION_MAJOR configuration ogr db job w
   = (Throw (WorkerError ("Could not open dataset for layer " +:+ dq
                          +:+ Layer.name layer +:+ dq)),
      mkWorld (w_job w) (w_db w)
        (w_trace w ++ [EvOgr (OgrOpen (Layer.source layer))])))
  /\ (forall ogrDataset,
        Open ogr (Layer.source layer) = Some ogrDataset ->
        GetLayerByName ogrDataset (Layer.source_layer layer) = None ->
        pull GDAL_VERSION_MAJOR configuration ogr db job w
        = (Throw (WorkerError ("source_layer " +:+ dq +:+ Layer.source_layer layer
                               +:+ dq +:+ " in dataset for layer " +:+ dq
                               +:+ Layer.name layer +:+ dq +:+ " not found")),
           mkWorld (w_job w) (w_db w)
             (w_trace w ++ [EvOgr (OgrOpen (Layer.source layer));
                            EvOgr (OgrGetLayerByName (Layer.source_layer layer))]))).
Proof.
  intros Hl. split.
  - intros Ho. unfold pull, open_source, bind, lift, emit, throw; simpl.
    rewrite Hl; simpl. rewrite Ho. reflexivity.
  - intros ds Ho Hn. unfold pull, open_source, bind, lift, emit, throw; simpl.
    rewrite Hl; simpl. rewrite Ho; simpl. rewrite Hn. now rewrite <- app_assoc.
Qed.

Lemma unopened_source_stops_pull_witness :
  pull 2 Scenario.configuration Cases.no_dataset Cases.roads_database
    (Scenario.job EmptyString) (Scenario.world EmptyString)
  = (Throw (WorkerError ("Could not open dataset for layer " +:+ dq +:+ "roads" +:+ dq)),
     mkWorld (Scenario.job EmptyString) 0%nat [EvOgr (OgrOpen "/data/roads.shp")])
  /\ pull 2 Scenario.configuration Cases.no_layer Cases.roads_database
       (Scenario.job EmptyString) (Scenario.world EmptyString)
     = (Throw (WorkerError ("source_layer " +:+ dq +:+ "roads" +:+ dq
                            +:+ " in dataset for layer " +:+ dq +:+ "roads" +:+ dq
                            +:+ " not found")),
        mkWorld (Scenario.job EmptyString) 0%nat
          [EvOgr (OgrOpen "/data/roads.shp"); EvOgr (OgrGetLayerByName "roads")]).
Proof.
  split.
  - apply (proj1 (unopened_source_stops_pull 2 Scenario.configuration Cases.no_dataset
                    Cases.roads_database (Scenario.job EmptyString)
                    (Scenario.world EmptyString) Scenario.roads eq_refl) eq_refl).
  - apply (proj2 (unopened_source_stops_pull 2 Scenario.configuration Cases.no_layer
                    Cases.roads_database (Scenario.job EmptyString)
                    (Scenario.world EmptyString) Scenario.roads eq_refl)
                 (mkDataSource (fun _ => None)) eq_refl eq_refl).
Defined.

(** ** The jobs the loop is done with (lines 343-390) *)

(** X16.  When the loop has gone through the queue and leaves, every job
    it popped is settled: FINISHED with an empty message, or FAILED.
    When it is stopped by an exception or by a database that never
    comes back, every job before the last one popped is settled; the
    last one is FAILED after a runtime_error and is left IN_PROCESS
    otherwise; the jobs behind it are never popped. *)
Theorem loop_settles_popped_jobs {D : Type} (GDAL_VERSION_MAJOR : Z)
    (configuration : Configuration) (ogr : OGRSFDriverRegistrar) (db : Database D)
    (queue : list Job.t) (d : D) r (ws : list (World D)) :
  run GDAL_VERSION_MAJOR configuration ogr db queue d = (r, ws) ->
  match r with
  | Ret _ => length ws = length queue /\ Forall terminal ws
  | _ =>
      exists done last,
        ws = done ++ [last]
        /\ (length ws <= length queue)%nat
        /\ Forall terminal done
        /\ match r with
           | Throw (runtime_error what) =>
               Job.getStatus (w_job last) = Job.FAILED
               /\ Job.getMessage (w_job last) = what
           | _ => Job.getStatus (w_job last) = Job.IN_PROCESS
           end
  end.
Proof.
  revert d r ws. induction queue as [|job rest IH]; intros d r ws H.
  - simpl in H. inversion H; subst. split; [reflexivity | constructor].
  - cbn [run] in H.
    destruct (run_job GDAL_VERSION_MAJOR configuration ogr db (mkWorld job d []))
      as [r1 w1] eqn:Hj.
    pose proof (run_job_run GDAL_VERSION_MAJOR configuration ogr db _ _ _ Hj) as Hrun.
    destruct r1 as [[]|e|].
    + assert (Hterm : terminal w1).
      { destruct Hrun as [[_ [H1 H2]]|[[_ [H1 _]]|[[Hr|Hr] _]]];
          try discriminate Hr; [left; auto | right; auto]. }
      destruct (run GDAL_VERSION_MAJOR configuration ogr db rest (w_db w1))
        as [r2 ws2] eqn:Hrest.
      inversion H; subst. specialize (IH _ _ _ Hrest).
      destruct r as [a|e|].
      * destruct IH as [Hlen Hall]. split; [simpl; lia | now constructor].
      * destruct IH as [done [last [-> [Hlen [Hall Hlast]]]]].
        exists (w1 :: done), last. split; [reflexivity|].
        split; [simpl in *; lia|]. split; [now constructor | exact Hlast].
      * destruct IH as [done [last [-> [Hlen [Hall Hlast]]]]].
        exists (w1 :: done), last. split; [reflexivity|].
        split; [simpl in *; lia|]. split; [now constructor | exact Hlast].
    + inversion H; subst. exists [], w1. split; [reflexivity|].
      split; [simpl; lia|]. split; [constructor|].
      destruct Hrun as [[Hr _]|[[[Hr|[what [Hr Hm]]] [H1 _]]|[[Hr|Hr] [H1 _]]]];
        try discriminate Hr.
      * injection Hr as ->. split; [exact H1 | exact Hm].
      * injection Hr as ->. exact H1.
    + inversion H; subst. exists [], w1. split; [reflexivity|].
      split; [simpl; lia|]. split; [constructor|].
      destruct Hrun as [[Hr _]|[[[Hr|[what [Hr _]]] [H1 _]]|[[Hr|Hr] [H1 _]]]];
        try discriminate Hr. exact H1.
Qed.

(** X17.  A job that ends FAILED never shows counts of created, updated
    or deleted rows from this run: its statistics are those it had when
    it was popped, or, when the failure came after the features had
    been streamed, the number of features pulled with three zeros. *)
Theorem failed_job_statistics {D : Type} (GDAL_VERSION_MAJOR : Z)
    (configuration : Configuration) (ogr : OGRSFDriverRegistrar) (db : Database D)
    (w : World D) r w' :
  run_job GDAL_VERSION_MAJOR configuration ogr db w = (r, w') ->
  Job.getStatus (w_job w') = Job.FAILED ->
  (r = Ret tt \/ exists what, r = Throw (runtime_error what))
  /\ (Job.getStatistics (w_job w') = Job.getStatistics (w_job w)
      \/ exists n, Job.getStatistics (w_job w') = Job.mkStatistics n 0 0 0).
Proof.
  intros H Hf. apply run_job_run in H as [[_ [H1 _]]|[[Hr [_ Hs]]|[_ [H1 _]]]].
  - rewrite Hf in H1. discriminate H1.
  - split; [|exact Hs]. destruct Hr as [Hr|[what [Hr _]]]; eauto.
  - rewrite Hf in H1. discriminate H1.
Qed.

Lemma failed_job_statistics_witness :
  Job.getStatistics
    (w_job (snd (run_job 2 Scenario.configuration
                   (Scenario.registrar Cases.one_feature)
                   Cases.update_only_database (Scenario.world EmptyString))))
  = Job.getStatistics (w_job (Scenario.world EmptyString))
  \/ exists n,
       Job.getStatistics
         (w_job (snd (run_job 2 Scenario.configuration
                        (Scenario.registrar Cases.one_feature)
                        Cases.update_only_database (Scenario.world EmptyString))))
       = Job.mkStatistics n 0 0 0.
Proof.
  apply (failed_job_statistics 2 Scenario.configuration
           (Scenario.registrar Cases.one_feature) Cases.update_only_database
           (Scenario.world EmptyString) _ _ (surjective_pairing _)).
  vm_compute. reflexivity.
Defined.

Lemma loop_settles_popped_jobs_witness :
  length (snd (run 2 Scenario.configuration (Scenario.registrar Cases.one_feature)
                 Cases.roads_database
                 [Scenario.job EmptyString; Scenario.job "nope ="] 0%nat)) = 2%nat
  /\ Forall terminal
       (snd (run 2 Scenario.configuration (Scenario.registrar Cases.one_feature)
               Cases.roads_database
               [Scenario.job EmptyString; Scenario.job "nope ="] 0%nat)).
Proof.
  pose proof (loop_settles_popped_jobs 2 Scenario.configuration
                (Scenario.registrar Cases.one_feature) Cases.roads_database
                [Scenario.job EmptyString; Scenario.job "nope ="] 0%nat _ _
                (surjective_pairing _)) as H.
  assert (Hr : fst (run 2 Scenario.configuration (Scenario.registrar Cases.one_feature)
                      Cases.roads_database
                      [Scenario.job EmptyString; Scenario.job "nope ="] 0%nat) = Ret tt)
    by (vm_compute; reflexivity).
  rewrite Hr in H. exact H.
Defined.

(** ** What the worker can throw *)

Section Raises.

Context {D : Type}.
Variable P : exn -> Prop.

Lemma raises_ret {A} (a : A) : raises P (@ret D A a).
Proof. intros w e w' H. discriminate H. Qed.

Lemma raises_throw {A} (e : exn) : P e -> raises P (@throw D A e).
Proof. intros He w e' w' H. inversion H; subst. exact He. Qed.

Lemma raises_lift {A} (r : Res A) :
  (forall e, r = Throw e -> P e) -> raises P (@lift D A r).
Proof. intros Hr w e w' H. inversion H; subst. now apply Hr. Qed.

Lemma raises_emit (ev : Event) : raises P (@emit D ev).
Proof. intros w e w' H. discriminate H. Qed.

Lemma raises_getJob : raises P (@getJob D).
Proof. intros w e w' H. discriminate H. Qed.

Lemma raises_modifyJob (f : Job.t -> Job.t) : raises P (@modifyJob D f).
Proof. intros w e w' H. discriminate H. Qed.

Lemma raises_dbCall {A} (c : DbCall) (op : D -> Res A * D) :
  (forall d e d', op d = (Throw e, d') -> P e) -> raises P (dbCall c op).
Proof.
  intros Hop w e w' H. unfold dbCall in H.
  destruct (op (w_db w)) as [r d1] eqn:E. inversion H; subst. eapply Hop; eauto.
Qed.

Lemma raises_bind {A B} (m : M D A) (k : A -> M D B) :
  raises P m -> (forall a, raises P (k a)) -> raises P (bind m k).
Proof.
  intros Hm Hk w e w' H. unfold bind in H.
  destruct (m w) as [[a|e1|] w1] eqn:E.
  - eapply Hk; eauto.
  - inversion H; subst. eapply Hm; eauto.
  - discriminate H.
Qed.

Lemma raises_emit_all (evs : list Event) : raises P (@emit_all D evs).
Proof. intros w e w' H. rewrite emit_all_run in H. discriminate H. Qed.

End Raises.

Lemma classify_fields_raises ln og tf :
  forall acc e, classify_fields ln og tf acc = Throw e -> handled e.
Proof.
  induction tf as [|p rest IH]; intros acc e H; simpl in H; [discriminate H|].
  destruct (classify_field_cases ln og (snd p) acc)
    as [[_ [_ Ht]]|[cols1 [Hc _]]]; rewrite ?Ht, ?Hc in H; simpl in H.
  - injection H as <-. exact I.
  - eapply IH; eauto.
Qed.

Lemma introspect_raises ln og tf e : introspect ln og tf = Throw e -> handled e.
Proof.
  unfold introspect. intros H.
  destruct (classify_fields ln og tf (mkColumns [] EmptyString [] []))
    as [cols| |] eqn:Hc; simpl in H.
  - unfold check_primary_key in H.
    destruct (primaryKeyColumns cols); cbv beta iota delta [rbind] in H;
      [injection H as <-; exact I|].
    destruct (missingPrimaryKeysSource og (s :: l)); cbv beta iota delta [rbind] in H;
      [discriminate H | injection H as <-; exact I].
  - injection H as <-. eapply classify_fields_raises; eauto.
  - discriminate H.
Qed.

Section Survival.

Context {D : Type}.
Variable GDAL_VERSION_MAJOR : Z.
Variable configuration : Configuration.
Variable ogr : OGRSFDriverRegistrar.
Variable db : Database D.

Hypothesis configuration_throws :
  forall layerName e, getLayer configuration layerName = Throw e -> handled e.
Hypothesis db_throws : throws_only_handled db.

Ltac raises_tac :=
  repeat first
    [ apply raises_ret
    | apply raises_throw; exact I
    | apply raises_emit
    | apply raises_getJob
    | apply raises_modifyJob
    | apply raises_emit_all
    | apply raises_bind; [| intros ? ] ].

Lemma open_source_raises (job : Job.t) :
  raises handled (@open_source D GDAL_VERSION_MAJOR configuration ogr job).
Proof.
  unfold open_source. apply raises_bind; [apply raises_lift; apply configuration_throws|].
  intros layer. raises_tac.
  destruct (Open ogr (Layer.source layer)) as [ds|]; raises_tac.
  destruct (GetLayerByName ds (Layer.source_layer layer)) as [ogrLayer|]; raises_tac.
  - unfold apply_filter. destruct (empty (Job.getFilter job)); raises_tac.
    destruct (SetAttributeFilter ogrLayer (Job.getFilter job)); raises_tac.
  - unfold check_geometry_count.
    destruct ((1 <? GDAL_VERSION_MAJOR)
              && negb (GetGeomFieldCount (GetLayerDefn ogrLayer) =? 1)); raises_tac.
Qed.

Lemma stream_features_raises stmt tf og ic features :
  forall n, raises handled (stream_features db stmt tf og ic features n).
Proof.
  destruct db_throws as [_ [_ [_ [_ [_ [Hep _]]]]]].
  induction features as [|f rest IH]; intros n; cbn [stream_features]; raises_tac.
  - apply raises_lift. intros e He.
    destruct (strValues_outcome tf og f n ic) as [[vs Hv]|[what Hv]];
      rewrite Hv in He; [discriminate He | injection He as <-; exact I].
  - apply raises_dbCall. intros d e d'. apply Hep.
  - apply IH.
Qed.

Lemma pull_raises (job : Job.t) :
  raises handled (pull GDAL_VERSION_MAJOR configuration ogr db job).
Proof.
  destruct db_throws as [_ [Htx [Htmp [Htf [Hpr [_ Hex]]]]]].
  unfold pull. apply raises_bind; [apply open_source_raises|].
  intros [layer ogrLayer].
  apply raises_bind; [apply raises_dbCall; exact Htx|]. intros [|].
  - unfold pull_transaction.
    apply raises_bind; [apply raises_dbCall; intros d e d'; apply Htmp|]. intros _.
    apply raises_bind; [apply raises_dbCall; intros d e d'; apply Htf|]. intros tf.
    apply raises_bind; [apply raises_lift; intros e; apply introspect_raises|].
    intros cols.
    apply raises_bind; [apply raises_dbCall; intros d e d'; apply Hpr|]. intros _.
    apply raises_bind; [apply stream_features_raises|]. intros n.
    unfold reconcile, setStatistics, setStatus.
    apply raises_bind; [apply raises_modifyJob|]. intros _.
    apply raises_bind; [apply raises_dbCall; intros d e d'; apply Hex|]. intros r1.
    apply raises_bind; [apply raises_dbCall; intros d e d'; apply Hex|]. intros r2.
    apply raises_bind; [apply raises_dbCall; intros d e d'; apply Hex|]. intros r3.
    raises_tac.
  - unfold setStatus, setMessage. raises_tac.
Qed.

Lemma reconnect_loop_raises : raises handled (reconnect_loop db).
Proof.
  destruct db_throws as [Hrc _].
  intros w e w' H. unfold reconnect_loop, bind at 1, dbCall in H; simpl in H.
  destruct (reconnect db (w_db w)) as [[[|n]|[|n] e0|] d1] eqn:E; simpl in H.
  - discriminate H.
  - unfold bind at 1, setMessage at 1, modifyJob in H; simpl in H.
    unfold bind at 1, emit in H; simpl in H. rewrite emit_all_run in H.
    discriminate H.
  - inversion H; subst. eapply Hrc; eauto.
  - unfold bind at 1, setMessage at 1, modifyJob in H; simpl in H.
    unfold bind at 1 in H. unfold bind at 1, emit in H; simpl in H.
    rewrite emit_all_run in H; simpl in H.
    inversion H; subst. eapply Hrc; eauto.
  - unfold bind, setMessage, modifyJob, lift in H; simpl in H. discriminate H.
Qed.

Lemma process_job_raises :
  raises handled (process_job GDAL_VERSION_MAJOR configuration ogr db).
Proof.
  unfold process_job, setStatus, setMessage.
  apply raises_bind; [apply raises_modifyJob|]. intros _.
  apply raises_bind; [apply reconnect_loop_raises|].
  intros _. apply raises_bind; [apply raises_modifyJob|]. intros _.
  apply raises_bind; [apply raises_getJob|]. intros job. apply pull_raises.
Qed.

Lemma run_job_survives (w : World D) r w' :
  run_job GDAL_VERSION_MAJOR configuration ogr db w = (r, w') ->
  r = Ret tt \/ r = Blocked.
Proof.
  unfold run_job.
  destruct (process_job GDAL_VERSION_MAJOR configuration ogr db w)
    as [[[]|e|] w1] eqn:Hp.
  - intros H; inversion H; auto.
  - pose proof (process_job_raises _ _ _ Hp) as He.
    destruct e as [what|what|what|]; try destruct He;
      unfold bind, setStatus, setMessage, modifyJob; simpl;
      intros H; inversion H; auto.
  - intros H; inversion H; auto.
Qed.

End Survival.



(** ** The update step run twice (lines 268-298) *)

Lemma updated_row_settled (pk uc : list string) (S : list Sql.Row) (t : Sql.Row) :
  (forall c, In c pk -> ~ In c uc) ->
  key_decides pk uc S ->
  let t' := match List.find (fun s => key_match pk t s && row_differs uc t s) S with
            | Some s => copy_columns uc s t
            | None => t
            end in
  forall s', In s' S -> key_match pk t' s' && row_differs uc t' s' = false.
Proof.
  intros Hdisj Hkey t' s' Hs'. unfold t'.
  destruct (List.find (fun s => key_match pk t s && row_differs uc t s) S) as [s|] eqn:Hf.
  - apply find_some in Hf as [Hs Hm]. apply andb_true_iff in Hm as [Hk _].
    destruct (key_match pk (copy_columns uc s t) s') eqn:Hk'; [|reflexivity].
    simpl. apply not_true_is_false. intros Hd.
    apply (proj1 (row_differs_spec _ _ _)) in Hd as [c [Hc Hne]].
    apply Hne. rewrite (proj1 (copy_columns_lookup uc s t c) Hc).
    apply (Hkey s s' Hs Hs'); [|exact Hc].
    apply (proj2 (key_match_spec _ _ _)). intros k Hkin.
    pose proof (proj1 (key_match_spec _ _ _) Hk k Hkin) as H1.
    pose proof (proj1 (key_match_spec _ _ _) Hk' k Hkin) as H2.
    rewrite (proj2 (copy_columns_lookup uc s t k) (Hdisj k Hkin)) in H2.
    congruence.
  - exact (find_none _ _ Hf s' Hs').
Qed.



(** ** The wait for the database (lines 358-366) *)

Lemma reconnect_while_later {D} (attempt : D -> Res bool * D) (fuel : nat) :
  forall (k : nat) (w : World D) outcome d',
    reconnect_outcome attempt fuel (w_db w) = (outcome, d') ->
    outcome <> NeverConnected ->
    reconnect_while attempt fuel (S k) w
    = (outcome_result outcome,
       mkWorld (w_job w) d'
         (w_trace w ++ replicate (S (failed_attempts outcome)) (EvDb DbReconnect))).
Proof.
  induction fuel as [|fuel IH]; intros k w outcome d' H Hne; cbn [reconnect_outcome] in H.
  - inversion H; subst. now destruct Hne.
  - cbn [reconnect_while]. unfold bind at 1, dbCall.
    destruct (attempt (w_db w)) as [[[|]|e|] d1] eqn:Ha.
    + inversion H; subst. reflexivity.
    + destruct (reconnect_outcome attempt fuel d1) as [o d2] eqn:Ho.
      cbn [Nat.eqb]. unfold bind at 1, ret.
      assert (Ho' : o <> NeverConnected)
        by (intros ->; inversion H; subst; now destruct Hne).
      rewrite (IH (S k) (mkWorld (w_job w) d1 (w_trace w ++ [EvDb DbReconnect]))
                  o d2 Ho Ho').
      destruct o as [n|n e|]; inversion H; subst; simpl;
        rewrite <- ?app_assoc; try reflexivity. now destruct Ho'.
    + inversion H; subst. reflexivity.
    + inversion H; subst. now destruct Hne.
Qed.

(** X20.  The wait for the database, attempt by attempt.  When the
    connection is there after [n] failed attempts, or an attempt throws
    after [n] failed ones, [reconnect] has been called [n + 1] times;
    the job's message has been set to the notice of waiting once, right
    after the first failed attempt, and not at all when there is no
    failed attempt.  The loop as a whole is what [reconnect_loop] does
    with the outcome of the attempts. *)
Theorem waiting_notice_set_once {D : Type} (db : Database D)
    (attempt : D -> Res bool * D) (fuel : nat) (w : World D) outcome d' :
  reconnect_outcome attempt fuel (w_db w) = (outcome, d') ->
  reconnect db (w_db w) = (outcome, d') ->
  outcome <> NeverConnected ->
  let waiting := Job.setMessage waiting_message (w_job w) in
  let after :=
    match failed_attempts outcome with
    | O => mkWorld (w_job w) d' (w_trace w ++ [EvDb DbReconnect])
    | S n =>
        mkWorld waiting d'
          (w_trace w ++ EvDb DbReconnect :: EvJob waiting
                        :: replicate (S n) (EvDb DbReconnect))
    end in
  reconnect_while attempt fuel 0 w = (outcome_result outcome, after)
  /\ reconnect_loop db w = (outcome_result outcome, after).
Proof.
  intros Ho Hdb Hne waiting after. split.
  - destruct fuel as [|fuel]; cbn [reconnect_outcome] in Ho.
    + inversion Ho; subst. now destruct Hne.
    + cbn [reconnect_while]. unfold bind at 1, dbCall.
      destruct (attempt (w_db w)) as [[[|]|e|] d1] eqn:Ha.
      * inversion Ho; subst. reflexivity.
      * destruct (reconnect_outcome attempt fuel d1) as [o d2] eqn:Ho2.
        cbn [Nat.eqb]. unfold bind at 1, setMessage, modifyJob. cbv beta iota zeta.
        assert (Ho' : o <> NeverConnected)
          by (intros ->; inversion Ho; subst; now destruct Hne).
        cbn [w_job w_db w_trace]. fold waiting.
        rewrite (reconnect_while_later attempt fuel 0
                   (mkWorld waiting d1
                      ((w_trace w ++ [EvDb DbReconnect]) ++ [EvJob waiting]))
                   o d2 Ho2 Ho').
        unfold after.
        destruct o as [n|n e|]; inversion Ho; subst; simpl;
          rewrite <- ?app_assoc; try reflexivity. now destruct Ho'.
      * inversion Ho; subst. reflexivity.
      * inversion Ho; subst. now destruct Hne.
  - unfold reconnect_loop, bind at 1, dbCall. rewrite Hdb. cbv beta iota zeta.
    unfold after.
    destruct outcome as [[|n]|[|n] e|]; [| | | |now destruct Hne].
    + reflexivity.
    + unfold bind at 1, setMessage at 1, modifyJob. cbv beta iota zeta.
      rewrite emit_all_run. cbn [w_job w_db w_trace failed_attempts outcome_result].
      fold waiting. rewrite <- !app_assoc. reflexivity.
    + reflexivity.
    + unfold bind at 1, setMessage at 1, modifyJob. cbv beta iota zeta.
      unfold bind at 1. rewrite emit_all_run. unfold throw.
      cbn [w_job w_db w_trace failed_attempts outcome_result].
      fold waiting. rewrite <- !app_assoc. reflexivity.
Qed.

Lemma waiting_notice_set_once_witness :
  reconnect_while Cases.third_attempt 5 0 (Scenario.world EmptyString)
  = (Ret tt,
     mkWorld (Job.setMessage waiting_message (Scenario.job EmptyString)) 3%nat
       [EvDb DbReconnect;
        EvJob (Job.setMessage waiting_message (Scenario.job EmptyString));
        EvDb DbReconnect; EvDb DbReconnect]).
Proof.
  exact (proj1 (waiting_notice_set_once
                  (mkDatabase (reconnect_outcome Cases.third_attempt 5)
                     (fun d => (Ret true, d)) (fun _ _ _ d => (Ret tt, d))
                     (fun _ _ d => (Ret [], d)) (fun _ _ _ d => (Ret tt, d))
                     (fun _ _ d => (Ret tt, d))
                     (fun _ d => (Ret (mkPGresult EmptyString), d)))
                  Cases.third_attempt 5 (Scenario.world EmptyString)
                  (Connected 2) 3%nat eq_refl eq_refl ltac:(discriminate))).
Defined.

(** ** The geometry as hexadecimal WKB (lines 207-230) *)

Lemma hex_value_char (k : N) : (k < 16)%N -> hex_value (hex_char k) = k.
Proof.
  intros Hk.
  assert (Hc : (k = 0 \/ k = 1 \/ k = 2 \/ k = 3 \/ k = 4 \/ k = 5 \/ k = 6 \/ k = 7
                \/ k = 8 \/ k = 9 \/ k = 10 \/ k = 11 \/ k = 12 \/ k = 13 \/ k = 14
                \/ k = 15)%N) by lia.
  repeat (destruct Hc as [->|Hc]; [reflexivity|]). subst; reflexivity.
Qed.

Lemma bytes_of_hex_of_bytes (bytes : list Byte.byte) :
  bytes_of_hex (hex_of_bytes bytes) = List.map Some bytes
  /\ String.length (hex_of_bytes bytes) = (2 * length bytes)%nat.
Proof.
  induction bytes as [|b rest [IH1 IH2]]; [split; reflexivity|].
  cbn [hex_of_bytes bytes_of_hex List.map String.length length]. split.
  - pose proof (Byte.to_N_bounded b) as Hb.
    rewrite !hex_value_char.
    + rewrite IH1. f_equal.
      replace (16 * (Byte.to_N b / 16) + Byte.to_N b mod 16)%N with (Byte.to_N b)
        by (pose proof (N.div_mod (Byte.to_N b) 16 ltac:(lia)); lia).
      apply Byte.of_to_N.
    + apply N.mod_lt. lia.
    + apply N.Div0.div_lt_upper_bound. lia.
  - rewrite IH2. lia.
Qed.

(** X21.  When the allocations and the export succeed, the geometry of
    a feature is written as the hexadecimal text of its WKB bytes: two
    digits for each of the [WkbSize] bytes, from which the bytes read
    back; the text does not depend on the position of the feature. *)
Theorem geometry_written_as_hex (ogrGeometry : OGRGeometry) (buffer : list Byte.byte)
    (numPulled : Z) :
  CPLMalloc_ok ogrGeometry = true ->
  exportToWkb ogrGeometry = Some buffer ->
  CPLBinaryToHex_ok ogrGeometry = true ->
  Z.of_nat (length buffer) = WkbSize ogrGeometry ->
  exists text,
    encode_geometry ogrGeometry numPulled = Ret text
    /\ Z.of_nat (String.length text) = 2 * WkbSize ogrGeometry
    /\ bytes_of_hex text = List.map Some buffer
    /\ forall other, encode_geometry ogrGeometry other = Ret text.
Proof.
  intros Hm He Hh Hlen.
  assert (Henc : forall n, encode_geometry ogrGeometry n = Ret (hex_of_bytes buffer)).
  { intros n. unfold encode_geometry, CPLBinaryToHex. rewrite Hm, He, Hh. simpl.
    rewrite <- Hlen, Nat2Z.id, firstn_all. reflexivity. }
  exists (hex_of_bytes buffer).
  destruct (bytes_of_hex_of_bytes buffer) as [H1 H2].
  split; [apply Henc|]. split; [rewrite H2; lia|]. split; [exact H1 | exact Henc].
Qed.

Lemma geometry_written_as_hex_witness :
  exists text,
    encode_geometry Scenario.point_geometry 0 = Ret text
    /\ Z.of_nat (String.length text) = 2 * 21
    /\ bytes_of_hex text = List.map Some Scenario.point_1_2.
Proof.
  destruct (geometry_written_as_hex Scenario.point_geometry Scenario.point_1_2 0
              eq_refl eq_refl eq_refl eq_refl) as [text [H1 [H2 [H3 _]]]].
  exists text. split; [exact H1|]. split; [exact H2 | exact H3].
Defined.

(** ** Failures of the introspection seen from the pull (lines 126-178) *)

(** X22.  Whatever makes the introspection of the target refuse it, the
    pull fails with that error after exactly three calls to the
    database: the transaction, the scratch table and the target's
    columns.  No statement has been prepared or executed, no feature
    has been read, and the job record is as it was. *)
Theorem refused_target_stops_pull {D : Type} (GDAL_VERSION_MAJOR : Z)
    (configuration : Configuration) (ogr : OGRSFDriverRegistrar) (db : Database D)
    (job : Job.t) (w w1 : World D) layer ogrLayer d2 d3 d4 tableFields e :
  let schema := Layer.target_table_schema layer in
  let table := Layer.target_table_name layer in
  let ogrFields := collect_fields (GetFieldDefns (GetLayerDefn ogrLayer)) 0 ∅ in
  open_source GDAL_VERSION_MAJOR configuration ogr job w = (Ret (layer, ogrLayer), w1) ->
  getTransaction db (w_db w1) = (Ret true, d2) ->
  createTempTable db schema table ("batyr_" +:+ Job.getId job) d2 = (Ret tt, d3) ->
  getTableFields db schema table d3 = (Ret tableFields, d4) ->
  introspect (Job.getLayerName job) ogrFields tableFields = Throw e ->
  pull GDAL_VERSION_MAJOR configuration ogr db job w
  = (Throw e,
     mkWorld (w_job w) d4
       (w_trace w1
        ++ [EvDb DbGetTransaction;
            EvDb (DbCreateTempTable schema table ("batyr_" +:+ Job.getId job));
            EvDb (DbGetTableFields schema table)]))
  /\ (exists what, e = WorkerError what)
  /\ exists evs, w_trace w1 = w_trace w ++ evs /\ Forall opening_event evs.
Proof.
  intros schema table ogrFields Hos Htx Htmp Htf Hi.
  destruct (open_source_frame GDAL_VERSION_MAJOR configuration ogr job w _ _ Hos)
    as [Hj Hevs].
  split; [|split; [|exact Hevs]].
  - unfold pull. rewrite (bind_Ret _ _ _ _ _ Hos).
    unfold bind at 1, dbCall. rewrite Htx; simpl.
    unfold pull_transaction, bind at 1, dbCall; simpl.
    fold schema table. rewrite Htmp; simpl.
    unfold bind at 1; simpl. rewrite Htf; simpl.
    unfold bind at 1, lift; simpl.
    fold ogrFields. rewrite Hi. rewrite <- Hj, <- !app_assoc. reflexivity.
  - pose proof (introspect_raises _ _ _ _ Hi) as He.
    unfold introspect in Hi.
    destruct (classify_fields (Job.getLayerName job) ogrFields tableFields
                (mkColumns [] EmptyString [] [])) as [cols| |] eqn:Hc;
      cbv beta iota delta [rbind] in Hi.
    + unfold check_primary_key in Hi.
      destruct (primaryKeyColumns cols); cbv beta iota delta [rbind] in Hi;
        [injection Hi as <-; eauto|].
      destruct (missingPrimaryKeysSource ogrFields (s :: l));
        cbv beta iota delta [rbind] in Hi; [discriminate Hi | injection Hi as <-; eauto].
    + injection Hi as <-.
      clear - Hc. revert Hc. generalize (mkColumns [] EmptyString [] []).
      induction tableFields as [|p rest IH]; intros acc H; simpl in H;
        [discriminate H|].
      destruct (classify_field_cases (Job.getLayerName job) ogrFields (snd p) acc)
        as [[_ [_ Ht]]|[cols1 [Hc1 _]]]; rewrite ?Ht, ?Hc1 in H; simpl in H.
      * injection H as <-. eauto.
      * eapply IH; eauto.
    + discriminate Hi.
Qed.

Lemma refused_target_stops_pull_witness :
  exists w',
    pull 2 Scenario.configuration (Scenario.registrar Cases.one_feature)
      (Scenario.database Cases.two_geometries_table [])
      (Scenario.job EmptyString) (Scenario.world EmptyString)
    = (Throw (WorkerError (multiple_geometry_message "roads")), w').
Proof.
  pose (v := ltac:(let v := eval vm_compute in
                     (open_source (D := nat) 2 Scenario.configuration
                        (Scenario.registrar Cases.one_feature)
                        (Scenario.job EmptyString) (Scenario.world EmptyString)) in
                   exact v)).
  assert (Hos : open_source 2 Scenario.configuration
                  (Scenario.registrar Cases.one_feature)
                  (Scenario.job EmptyString) (Scenario.world EmptyString) = v)
    by (vm_compute; reflexivity).
  unfold v in Hos. clear v.
  destruct (refused_target_stops_pull 2 Scenario.configuration _
              (Scenario.database Cases.two_geometries_table [])
              (Scenario.job EmptyString) (Scenario.world EmptyString) _ _ _
              0%nat 0%nat 0%nat Cases.two_geometries_table
              (WorkerError (multiple_geometry_message "roads"))
              Hos eq_refl eq_refl eq_refl) as [H _].
  - vm_compute. reflexivity.
  - eexists. exact H.
Defined.

(** ** What is written to the scratch table (lines 200-263) *)

Lemma written_values_app (l1 l2 : list Event) :
  written_values (l1 ++ l2) = written_values l1 ++ written_values l2.
Proof. unfold written_values. apply omap_app. Qed.

(** X23.  The features are written to the scratch table in the order
    the source delivers them, one execution of the prepared statement
    for each, with the value vector of that feature.  When the stream
    ends normally every feature has been written; when it is stopped,
    the features before the failing one have been written, in order,
    and nothing else. *)
Theorem features_written_in_order {D : Type} (db : Database D) (insertStmtName : string)
    (tableFields : FieldMap) (ogrFields : gmap string OgrField.t)
    (insertColumns : list string) (features : list OGRFeature) (numPulled : Z)
    (w : World D) r w' :
  stream_features db insertStmtName tableFields ogrFields insertColumns features
    numPulled w = (r, w') ->
  exists evs,
    w_trace w' = w_trace w ++ evs
    /\ (exists k,
          (k <= length features)%nat
          /\ List.map Ret (written_values evs)
             = take k (feature_values tableFields ogrFields insertColumns features
                         numPulled))
    /\ (forall n,
          r = Ret n ->
          List.map Ret (written_values evs)
          = feature_values tableFields ogrFields insertColumns features numPulled).
Proof.
  revert numPulled w r w'.
  induction features as [|f rest IH]; intros numPulled w r w' H.
  - simpl in H. unfold bind, emit, ret in H; simpl in H. inversion H; subst; simpl.
    exists [EvOgr OgrGetNextFeature]. split; [reflexivity|].
    split; [exists 0%nat; split; [lia | reflexivity] | reflexivity].
  - cbn [stream_features] in H. unfold bind at 1, emit in H; simpl in H.
    unfold bind at 1, lift in H; simpl in H. cbn [feature_values].
    destruct (strValues tableFields ogrFields f numPulled insertColumns)
      as [values| |] eqn:Hv.
    + unfold bind at 1, dbCall in H; simpl in H.
      destruct (execPrepared db insertStmtName values (w_db w)) as [[[]| |] d1] eqn:He.
      * apply IH in H as [evs [Htr [[k [Hk Hpre]] Hall]]]. simpl in Htr.
        exists (EvOgr OgrGetNextFeature
                :: EvDb (DbExecPrepared insertStmtName values) :: evs).
        split; [rewrite Htr, <- !app_assoc; reflexivity|].
        split.
        { exists (S k). split; [simpl; lia|]. simpl. now rewrite Hpre. }
        intros n Hn. simpl. now rewrite (Hall n Hn).
      * inversion H; subst; simpl.
        exists [EvOgr OgrGetNextFeature; EvDb (DbExecPrepared insertStmtName values)].
        split; [now rewrite <- app_assoc|].
        split; [exists 1%nat; split; [simpl; lia | reflexivity]|].
        intros n Hn; discriminate Hn.
      * inversion H; subst; simpl.
        exists [EvOgr OgrGetNextFeature; EvDb (DbExecPrepared insertStmtName values)].
        split; [now rewrite <- app_assoc|].
        split; [exists 1%nat; split; [simpl; lia | reflexivity]|].
        intros n Hn; discriminate Hn.
    + inversion H; subst; simpl. exists [EvOgr OgrGetNextFeature].
      split; [reflexivity|].
      split; [exists 0%nat; split; [lia | reflexivity]|].
      intros n Hn; discriminate Hn.
    + inversion H; subst; simpl. exists [EvOgr OgrGetNextFeature].
      split; [reflexivity|].
      split; [exists 0%nat; split; [lia | reflexivity]|].
      intros n Hn; discriminate Hn.
Qed.

Lemma features_written_in_order_witness :
  exists evs,
    w_trace (snd (stream_features Cases.roads_database "batyr_insert42"
                    Scenario.roads_table Scenario.ogrFields
                    ["geom"; "id"; "length"; "name"]
                    [Scenario.feature Scenario.point_geometry] 0
                    (Scenario.world EmptyString)))
    = w_trace (Scenario.world EmptyString) ++ evs
    /\ List.map Ret (written_values evs)
       = feature_values Scenario.roads_table Scenario.ogrFields
           ["geom"; "id"; "length"; "name"]
           [Scenario.feature Scenario.point_geometry] 0.
Proof.
  destruct (features_written_in_order Cases.roads_database "batyr_insert42"
              Scenario.roads_table Scenario.ogrFields
              ["geom"; "id"; "length"; "name"]
              [Scenario.feature Scenario.point_geometry] 0
              (Scenario.world EmptyString) _ _ (surjective_pairing _))
    as [evs [Htr [_ H]]].
  exists evs. split; [exact Htr|].
  apply (H 1). vm_compute. reflexivity.
Defined.

Lemma strValues_lookup tf og f n ic :
  forall values,
    strValues tf og f n ic = Ret values ->
    forall p c,
      ic !! p = Some c ->
      exists v,
        values !! p = Some v
        /\ (if String.eqb (Field.pgTypeName (tableFields_at tf c)) "geometry"
            then encode_geometry (GetGeometryRef f) n
            else field_value f (ogrFields_at og c)) = Ret v.
Proof.
  induction ic as [|c0 ic IH]; intros values H p c Hp; [discriminate Hp|].
  cbn [strValues] in H.
  destruct (if String.eqb (Field.pgTypeName (tableFields_at tf c0)) "geometry"
            then encode_geometry (GetGeometryRef f) n
            else field_value f (ogrFields_at og c0)) as [v0| |] eqn:Hv0;
    simpl in H; try discriminate H.
  destruct (strValues tf og f n ic) as [vs| |] eqn:Hvs; simpl in H; try discriminate H.
  injection H as <-. destruct p as [|p].
  - injection Hp as <-. exists v0. split; [reflexivity | exact Hv0].
  - simpl in Hp. destruct (IH vs eq_refl p c Hp) as [v [H1 H2]].
    exists v. split; [exact H1 | exact H2].
Qed.

(** X24.  The values of a feature follow the insert columns, one value
    for each column at the same position.  The value for a column that
    is not of type geometry is the attribute of the source field of
    that name up to case, the last one if there are several, rendered
    by the type of that field: as it is for a String, in decimal for an
    Integer, with six decimals for a Real. *)
Theorem values_follow_insert_columns (tableFields : FieldMap)
    (defns : list OGRFieldDefn) (ogrFeature : OGRFeature) (numPulled : Z)
    (insertColumns : list string) (values : list string) :
  let ogrFields := collect_fields defns 0 ∅ in
  strValues tableFields ogrFields ogrFeature numPulled insertColumns = Ret values ->
  length values = length insertColumns
  /\ forall p c,
       insertColumns !! p = Some c ->
       Field.pgTypeName (tableFields_at tableFields c) <> "geometry" ->
       forall j d,
         defns !! j = Some d ->
         lowercase (GetNameRef d) = c ->
         (forall j' d', (j < j')%nat -> defns !! j' = Some d' ->
                        lowercase (GetNameRef d') <> c) ->
         match GetType d with
         | OFTString => values !! p = Some (GetFieldAsString ogrFeature j)
         | OFTInteger =>
             values !! p = Some (to_string_int (GetFieldAsInteger ogrFeature j))
         | OFTReal =>
             values !! p = Some (to_string_double (GetFieldAsDouble ogrFeature j))
         | _ => False
         end.
Proof.
  intros ogrFields H. split; [now apply strValues_length in H|].
  intros p c Hp Hg j d Hj Hc Hlast.
  destruct (strValues_lookup _ _ _ _ _ _ H p c Hp) as [v [Hv Hval]].
  destruct (String.eqb (Field.pgTypeName (tableFields_at tableFields c)) "geometry")
    eqn:E; [apply String.eqb_eq in E; contradiction|].
  destruct (collect_fields_last defns c 0 ∅ j d Hj Hc Hlast) as [entry [He [Hi Ht]]].
  unfold ogrFields, ogrFields_at in Hval. rewrite He in Hval. simpl in Hval.
  unfold field_value in Hval. rewrite Ht, Hi in Hval. simpl in Hval.
  destruct (GetType d); try discriminate Hval; injection Hval as <-; exact Hv.
Qed.

Lemma values_follow_insert_columns_witness :
  ["0101000000000000000000F03F0000000000000040"; "1"; "0.000000"; "A"] !! 1%nat
  = Some (to_string_int
            (GetFieldAsInteger (Scenario.feature Scenario.point_geometry) 0)).
Proof.
  refine (proj2 (values_follow_insert_columns Scenario.roads_table Scenario.fields
                   (Scenario.feature Scenario.point_geometry) 0
                   ["geom"; "id"; "length"; "name"]
                   ["0101000000000000000000F03F0000000000000040"; "1"; "0.000000"; "A"]
                   _)
                1%nat "id" eq_refl _ 0%nat (mkFieldDefn "ID" OFTInteger)
                eq_refl eq_refl _).
  - vm_compute. reflexivity.
  - vm_compute. discriminate.
  - intros [|[|[|j']]] d' Hlt Hj; try lia; try discriminate Hj;
      injection Hj as <-; vm_compute; discriminate.
Defined.

(** ** The prepared insert statement (lines 181-198) *)

Lemma insertQueryValues_lookup tf ic :
  forall idx p c,
    ic !! p = Some c ->
    insertQueryValues tf ic idx !! p
    = Some ("$" +:+ to_string_int (idx + Z.of_nat p) +:+ "::"
            +:+ Field.pgTypeName (tableFields_at tf c)).
Proof.
  induction ic as [|c0 ic IH]; intros idx p c Hp; [discriminate Hp|].
  destruct p as [|p]; cbn [insertQueryValues].
  - injection Hp as <-. simpl. now rewrite Z.add_0_r.
  - simpl in Hp. simpl lookup. rewrite (IH (idx + 1) p c Hp).
    replace (idx + 1 + Z.of_nat p) with (idx + Z.of_nat (S p)) by lia. reflexivity.
Qed.

(** X25.  The prepared insert statement has one parameter for each
    insert column: the column at position [p], counted from zero, is
    given the parameter numbered [p + 1], cast to the type of the column
    of that name in the target. *)
Theorem insert_parameters_follow_columns (tableFields : FieldMap)
    (insertColumns : list string) :
  length (insertQueryValues tableFields insertColumns 1) = length insertColumns
  /\ forall p c,
       insertColumns !! p = Some c ->
       insertQueryValues tableFields insertColumns 1 !! p
       = Some ("$" +:+ to_string_int (Z.of_nat p + 1) +:+ "::"
               +:+ Field.pgTypeName (tableFields_at tableFields c)).
Proof.
  split; [apply insertQueryValues_length|].
  intros p c Hp. rewrite (insertQueryValues_lookup _ _ 1 p c Hp).
  replace (1 + Z.of_nat p) with (Z.of_nat p + 1) by lia. reflexivity.
Qed.
